(** * Next.js Actions Analyzer: the backend's correlation store

    A shallow embedding of the plugin backend (the module holding
    [actions], [actionNotesById], [actionNamesById],
    [discoveredActionsById], [actionUsagesById] and [seenRequestIds]) and
    the properties of its per-pair processing, its scans and its
    classification view.

    Conventions of the embedding.
    - A JavaScript string is a Rocq [string]: a sequence of code units
      below 256.  Case mapping and white space follow ECMAScript on that
      range.
    - A [Record<string, V>] is the [gmap string V] of its own
      properties.  Where the key of a lookup is taken from traffic (the
      [Next-Action] header), the lookup is [jsGet]: it also finds the
      members a plain object inherits from [Object.prototype].  Where the
      key is a captured identifier of a bundle (forty or more hex digits,
      never the name of such a member) or is handed over by the
      analyst's table, the lookup is that of the map.  An assignment
      [record[key] = value] creates or replaces the own property.  The
      iteration order of [Object.keys]/[Object.values] is not modelled.
    - A [Set<string>] that is only tested for membership is a
      [gset string]; a set that is iterated is a duplicate-free list in
      insertion order.
    - The module-level bindings and everything sent through the [sdk]
      handle form one [State] that every operation threads. *)

From Stdlib Require Import Strings.String Strings.Ascii.
From stdpp Require Import gmap strings list fin_maps pretty.

(** ** Strings *)

Module Js.

Definition code (c : ascii) : nat := nat_of_ascii c.

Definition lowerChar (c : ascii) : ascii :=
  let n := code c in
  if ((65 <=? n) && (n <=? 90)
      || (192 <=? n) && (n <=? 214)
      || (216 <=? n) && (n <=? 222))%nat
  then ascii_of_nat (n + 32) else c.

Definition upperChar (c : ascii) : ascii :=
  let n := code c in
  if ((97 <=? n) && (n <=? 122))%nat then ascii_of_nat (n - 32) else c.

Fixpoint mapChars (f : ascii -> ascii) (s : string) : string :=
  match s with
  | EmptyString => EmptyString
  | String c r => String (f c) (mapChars f r)
  end.

Definition toLowerCase : string -> string := mapChars lowerChar.
(** Only compared against ["POST"] in this program, where the mapping
    of the ASCII letters decides the comparison. *)
Definition toUpperCase : string -> string := mapChars upperChar.

Definition isWhite (c : ascii) : bool :=
  let n := code c in
  ((9 <=? n) && (n <=? 13) || (n =? 32) || (n =? 160))%nat.

Fixpoint trimStart (s : string) : string :=
  match s with
  | String c r => if isWhite c then trimStart r else s
  | EmptyString => EmptyString
  end.

(** [trimEnd] drops the trailing white space: a character is kept when
    it is not white or when something is kept after it. *)
Fixpoint trimEnd (s : string) : string :=
  match s with
  | EmptyString => EmptyString
  | String c r =>
      match trimEnd r with
      | EmptyString => if isWhite c then EmptyString else String c EmptyString
      | r' => String c r'
      end
  end.

Definition trim (s : string) : string := trimEnd (trimStart s).

Fixpoint startsWith (s p : string) : bool :=
  match p, s with
  | EmptyString, _ => true
  | String _ _, EmptyString => false
  | String a p', String b s' => if Ascii.eqb a b then startsWith s' p' else false
  end.

(** [s.includes(p)]: [p] occurs in [s] at some offset. *)
Fixpoint includes (s p : string) : bool :=
  startsWith s p ||
  match s with
  | EmptyString => false
  | String _ r => includes r p
  end.

Definition endsWith (s p : string) : bool :=
  startsWith (String.rev s) (String.rev p).

(** [s.split(sep)[0]] for a one-character separator. *)
Fixpoint splitHead (sep : ascii) (s : string) : string :=
  match s with
  | EmptyString => EmptyString
  | String c r => if Ascii.eqb c sep then EmptyString else String c (splitHead sep r)
  end.

(** [s.split(sep).pop()] for a one-character separator: the text after
    the last separator. *)
Fixpoint splitLast (sep : ascii) (s : string) : string :=
  match s with
  | EmptyString => EmptyString
  | String c r =>
      if includes r (String sep EmptyString) then splitLast sep r
      else if Ascii.eqb c sep then r else s
  end.

(** [notes.join(sep)]. *)
Fixpoint join (sep : string) (l : list string) : string :=
  match l with
  | [] => EmptyString
  | [x] => x
  | x :: r => x +:+ sep +:+ join sep r
  end.

Definition isDigit (c : ascii) : bool :=
  let n := code c in ((48 <=? n) && (n <=? 57))%nat.

Fixpoint allChars (f : ascii -> bool) (s : string) : bool :=
  match s with
  | EmptyString => true
  | String c r => f c && allChars f r
  end.

(** [/^\d+$/.test(s)]. *)
Definition allDigits (s : string) : bool :=
  match s with
  | EmptyString => false
  | _ => allChars isDigit s
  end.

Definition isHexDigit (c : ascii) : bool :=
  let n := code c in
  ((48 <=? n) && (n <=? 57) || (65 <=? n) && (n <=? 70)
   || (97 <=? n) && (n <=? 102))%nat.

(** [s.slice(0, n)]. *)
Fixpoint sliceTo (n : nat) (s : string) : string :=
  match n, s with
  | S n', String c r => String c (sliceTo n' r)
  | _, _ => EmptyString
  end.

(** Number of offsets of [s] at which [p] occurs. *)
Fixpoint occurrences (s p : string) : nat :=
  (if startsWith s p then 1 else 0) +
  match s with
  | EmptyString => 0
  | String _ r => occurrences r p
  end.

End Js.

(** ** Data model *)

(** A value produced by [JSON.parse].  An object is the list that
    [Object.entries] returns for it; numbers are the runtime's. *)
#[local] Set Warnings "-register-all".
Inductive JSON (number : Type) : Type :=
| JNull
| JBool (b : bool)
| JNumber (n : number)
| JString (s : string)
| JArray (elements : list (JSON number))
| JObject (entries : list (string * JSON number)).

Arguments JNull {number}.
Arguments JBool {number} b.
Arguments JNumber {number} n.
Arguments JString {number} s.
Arguments JArray {number} elements.
Arguments JObject {number} entries.

(** The error signatures of [errorPatterns], in the order of the array. *)
Inductive ErrorPattern :=
| ErrorFieldString | ErrorFieldObject | ErrorFieldArray
| ExceptionWord | StackTraceWords | StacktraceWord
| AtFrame | FileLine | JsErrorName
| UndefinedMethod | UndefinedFunction.

(** The [createServerReference] patterns: the four of
    [extractActionNames] and the four of [findAllActions], each in the
    order of its array. *)
Inductive NamePattern :=
| ExtractP1 | ExtractP2 | ExtractP3 | ExtractP4
| FindP1 | FindP2 | FindP3 | FindP4.

(** One match of [body.matchAll(pattern)]: the two capture groups. *)
Record Match := { group1 : option string; group2 : option string }.

(** The members a plain object inherits from [Object.prototype]
    (ECMAScript 20.1.3 and B.2.2): eleven functions and the accessor
    [__proto__], which reads as the prototype object itself. *)
Inductive ProtoMember :=
| MConstructor | MHasOwnProperty | MIsPrototypeOf | MPropertyIsEnumerable
| MToLocaleString | MToString | MValueOf | MProto
| MDefineGetter | MDefineSetter | MLookupGetter | MLookupSetter.

(** The two expressions of [addActionEntry] and [ensureActionNotes]
    that throw a [TypeError] when they meet an inherited member:
    [existing.includes(prefix)] and the spread
    [[...actionUsagesById[actionId], usage]]. *)
Inductive TypeErrorSite :=
| IncludesOfMember
| SpreadOfMember.

(** What the JavaScript runtime supplies: numbers, [JSON.parse] ([None]
    when it throws), [RegExp] matching, the clock behind [nowIso], the
    text [String(member)] of an inherited member and the message of a
    [TypeError].  The first group of every [createServerReference]
    pattern is [[a-fA-F0-9]{40,}] or [[a-f0-9]{40,}]: what [matchAll]
    captures there is forty or more hex digits. *)
Class Runtime := {
  number : Type;
  Number_isInteger : number -> bool;
  Number_toString : number -> string;
  JSON_parse : string -> option (JSON number);
  regexTest : ErrorPattern -> string -> bool;
  matchAll : NamePattern -> string -> list Match;
  clock : nat -> string;
  memberText : ProtoMember -> string;
  typeErrorMessage : TypeErrorSite -> string;
  captures_hex : forall pattern body m actionId,
    m ∈ matchAll pattern body -> group1 m = Some actionId ->
    (40 <= String.length actionId)%nat
    /\ Js.allChars Js.isHexDigit actionId = true;
}.

Module Request.
Record t := {
  getId : string;
  getMethod : string;
  getUrl : string;
  getPath : string;
  getHost : string;
  getHeaders : list (string * list string);
  getBody : option string;
  rawLength : nat;
}.

(** Header lookup by name, case-insensitive. *)
Fixpoint lookupHeader (name : string) (hs : list (string * list string))
  : option (list string) :=
  match hs with
  | [] => None
  | (k, vs) :: r =>
      if String.eqb (Js.toLowerCase k) (Js.toLowerCase name) then Some vs
      else lookupHeader name r
  end.

Definition getHeader (r : t) (name : string) : option (list string) :=
  lookupHeader name (getHeaders r).
End Request.

Module Response.
Record t := {
  getCode : nat;
  getBody : option string;
  rawLength : nat;
  getCreatedAt : string;
}.
End Response.

Module ActionEntry.
Record t := {
  id : nat;
  requestId : string;
  method : string;
  url : string;
  actionId : string;
  parameters : string;
  requestSize : nat;
  responseSize : nat;
  statusCode : nat;
  timestamp : string;
  securityNotes : string;
  actionNotes : string;
}.

Definition withNotes (a : t) (notes : string) : t :=
  {| id := id a; requestId := requestId a; method := method a; url := url a;
     actionId := actionId a; parameters := parameters a;
     requestSize := requestSize a; responseSize := responseSize a;
     statusCode := statusCode a; timestamp := timestamp a;
     securityNotes := securityNotes a; actionNotes := notes |}.
End ActionEntry.

Module ActionUsage.
Record t := {
  timestamp : string;
  url : string;
  method : string;
  statusCode : nat;
  parameters : string;
  securityNotes : string;
  requestId : string;
}.
End ActionUsage.

Module DiscoveredAction.
Record t := {
  actionId : string;
  functionName : string;
  status : string;
  chunkFile : string;
  executedCount : nat;
  notes : string;
}.
End DiscoveredAction.

Record DiscoveryResult := {
  dr_status : string;
  dr_all : list DiscoveredAction.t;
  dr_unused : list DiscoveredAction.t;
  dr_unknown : list DiscoveredAction.t;
}.

Module DiscoveredActionInternal.
Record t := {
  actionId : string;
  functionName : string;
  chunkFile : string;
  firstSeen : string;
  chunkRequestId : string;
}.
End DiscoveredActionInternal.

Inductive Result (A : Type) : Type :=
| Ok (value : A)
| Error (error : string).

Arguments Ok {A} value.
Arguments Error {A} error.

Record Finding := {
  title : string;
  description : string;
  reporter : string;
  dedupeKey : string;
  findingRequest : Request.t;
}.

(** What the backend sends through the [sdk] handle. *)
Inductive Event :=
| StatusEvent (status : string)
| ActionAdded (entry : ActionEntry.t)
| DataChanged
| FindingCreated (finding : Finding).

(** The module-level bindings, the events sent so far (oldest first) and
    the number of clock readings taken. *)
Record State := {
  actions : list ActionEntry.t;
  actionNotesById : gmap string string;
  actionNamesById : gmap string string;
  discoveredActionsById : gmap string DiscoveredActionInternal.t;
  actionUsagesById : gmap string (list ActionUsage.t);
  seenRequestIds : gset string;
  sent : list Event;
  clockReads : nat;
}.

Definition initialState : State :=
  {| actions := []; actionNotesById := ∅; actionNamesById := ∅;
     discoveredActionsById := ∅; actionUsagesById := ∅;
     seenRequestIds := ∅; sent := []; clockReads := 0 |}.

Definition setActions (v : list ActionEntry.t) (s : State) : State :=
  {| actions := v; actionNotesById := actionNotesById s;
     actionNamesById := actionNamesById s;
     discoveredActionsById := discoveredActionsById s;
     actionUsagesById := actionUsagesById s;
     seenRequestIds := seenRequestIds s; sent := sent s;
     clockReads := clockReads s |}.

Definition setNotes (v : gmap string string) (s : State) : State :=
  {| actions := actions s; actionNotesById := v;
     actionNamesById := actionNamesById s;
     discoveredActionsById := discoveredActionsById s;
     actionUsagesById := actionUsagesById s;
     seenRequestIds := seenRequestIds s; sent := sent s;
     clockReads := clockReads s |}.

Definition setNames (v : gmap string string) (s : State) : State :=
  {| actions := actions s; actionNotesById := actionNotesById s;
     actionNamesById := v;
     discoveredActionsById := discoveredActionsById s;
     actionUsagesById := actionUsagesById s;
     seenRequestIds := seenRequestIds s; sent := sent s;
     clockReads := clockReads s |}.

Definition setDiscovered (v : gmap string DiscoveredActionInternal.t)
  (s : State) : State :=
  {| actions := actions s; actionNotesById := actionNotesById s;
     actionNamesById := actionNamesById s;
     discoveredActionsById := v;
     actionUsagesById := actionUsagesById s;
     seenRequestIds := seenRequestIds s; sent := sent s;
     clockReads := clockReads s |}.

Definition setUsages (v : gmap string (list ActionUsage.t)) (s : State) : State :=
  {| actions := actions s; actionNotesById := actionNotesById s;
     actionNamesById := actionNamesById s;
     discoveredActionsById := discoveredActionsById s;
     actionUsagesById := v;
     seenRequestIds := seenRequestIds s; sent := sent s;
     clockReads := clockReads s |}.

Definition setSeen (v : gset string) (s : State) : State :=
  {| actions := actions s; actionNotesById := actionNotesById s;
     actionNamesById := actionNamesById s;
     discoveredActionsById := discoveredActionsById s;
     actionUsagesById := actionUsagesById s;
     seenRequestIds := v; sent := sent s;
     clockReads := clockReads s |}.

(** [sdk.api.send(...)] and [sdk.findings.create(...)]. *)
Definition send (e : Event) (s : State) : State :=
  {| actions := actions s; actionNotesById := actionNotesById s;
     actionNamesById := actionNamesById s;
     discoveredActionsById := discoveredActionsById s;
     actionUsagesById := actionUsagesById s;
     seenRequestIds := seenRequestIds s; sent := sent s ++ [e];
     clockReads := clockReads s |}.

Definition sendStatus (status : string) (s : State) : State :=
  send (StatusEvent status) s.

(** The status most recently sent, if any. *)
Definition lastStatus (s : State) : option string :=
  last (omap (fun e => match e with StatusEvent t => Some t | _ => None end)
          (sent s)).

(** ** The backend *)

Definition newline : string := String "010"%char EmptyString.

(** One traffic record of a page: [item.request], [item.response]. *)
Record Item := { request : Request.t; response : option Response.t }.

(** What a [catch] clause receives: an [Error] with its message, or
    any other thrown value. *)
Inductive Thrown :=
| ThrownError (message : string)
| ThrownOther.

(** [error instanceof Error ? error.message : "Unknown error"]. *)
Definition errorMessage (e : Thrown) : string :=
  match e with
  | ThrownError m => m
  | ThrownOther => "Unknown error"
  end.

(** How a call ends: it returns a value or throws one. *)
Inductive Completion (A : Type) : Type :=
| Returns (value : A)
| Throws (e : Thrown).

Arguments Returns {A} value.
Arguments Throws {A} e.

(** The properties of [Object.prototype] by name. *)
Definition objectPrototype (key : string) : option ProtoMember :=
  if String.eqb key "constructor" then Some MConstructor
  else if String.eqb key "hasOwnProperty" then Some MHasOwnProperty
  else if String.eqb key "isPrototypeOf" then Some MIsPrototypeOf
  else if String.eqb key "propertyIsEnumerable" then Some MPropertyIsEnumerable
  else if String.eqb key "toLocaleString" then Some MToLocaleString
  else if String.eqb key "toString" then Some MToString
  else if String.eqb key "valueOf" then Some MValueOf
  else if String.eqb key "__proto__" then Some MProto
  else if String.eqb key "__defineGetter__" then Some MDefineGetter
  else if String.eqb key "__defineSetter__" then Some MDefineSetter
  else if String.eqb key "__lookupGetter__" then Some MLookupGetter
  else if String.eqb key "__lookupSetter__" then Some MLookupSetter
  else None.

(** [member.length]: the number of parameters of a function; the
    prototype object has no such property. *)
Definition memberLength (m : ProtoMember) : option nat :=
  match m with
  | MConstructor | MHasOwnProperty | MIsPrototypeOf | MPropertyIsEnumerable
  | MLookupGetter | MLookupSetter => Some 1
  | MToLocaleString | MToString | MValueOf => Some 0
  | MDefineGetter | MDefineSetter => Some 2
  | MProto => None
  end.

(** What [record[key]] evaluates to for a record created as [{}]: the
    own property, else the inherited member, else [undefined]. *)
Inductive Got (V : Type) : Type :=
| Own (value : V)
| Inherited (m : ProtoMember)
| Undefined.

Arguments Own {V} value.
Arguments Inherited {V} m.
Arguments Undefined {V}.

Definition jsGet {V : Type} (record : gmap string V) (key : string) : Got V :=
  match record !! key with
  | Some value => Own value
  | None =>
      match objectPrototype key with
      | Some m => Inherited m
      | None => Undefined
      end
  end.

(** [for (const x of items) body], where [body] may throw: the state
    reached and the value thrown, if any. *)
Fixpoint forEach {A B : Type} (body : A -> B -> A * option Thrown)
  (a : A) (items : list B) : A * option Thrown :=
  match items with
  | [] => (a, None)
  | x :: rest =>
      match body a x with
      | (a, None) => forEach body a rest
      | thrown => thrown
      end
  end.

(** A page callback that cannot throw. *)
Definition returning {A : Type} (onPage : list Item -> A -> A)
  (items : list Item) (a : A) : A * option Thrown :=
  (onPage items a, None).

(** The traffic source as [paginateAllRequests] meets it, for a source
    that answers finitely often: the page served by the next [execute]
    either has [hasNextPage = false], or has [hasNextPage = true] and,
    queried after its [endCursor], the source goes on as [rest]; or the
    [execute] throws. *)
Inductive History :=
| LastPage (items : list Item)
| NextPage (items : list Item) (rest : History)
| FetchFails (e : Thrown).

(** The answer of the point lookup [sdk.requests.get(id)]. *)
Inductive Lookup :=
| Found (item : Item)
| NotFound
| LookupFails (e : Thrown).

(** [new Set(list)], iterated: first occurrences in order. *)
Definition setOfList (l : list string) : list string :=
  foldl (fun acc x => if bool_decide (x ∈ acc) then acc else acc ++ [x]) [] l.

Definition dangerousParams : list string :=
  ["id"; "userId"; "user_id"; "role"; "admin"; "delete"; "update"; "team";
   "teamId"].

Definition errorPatterns : list ErrorPattern :=
  [ErrorFieldString; ErrorFieldObject; ErrorFieldArray; ExceptionWord;
   StackTraceWords; StacktraceWord; AtFrame; FileLine; JsErrorName;
   UndefinedMethod; UndefinedFunction].

Definition extractPatterns : list NamePattern :=
  [ExtractP1; ExtractP2; ExtractP3; ExtractP4].

Definition findPatterns : list NamePattern :=
  [FindP1; FindP2; FindP3; FindP4].

Definition isNextChunkRequest (request : Request.t) : bool :=
  let path := Request.getPath request in
  if negb (Js.includes path "/_next/static/chunks/") then false
  else Js.endsWith (Js.splitHead "?" path) ".js".

Definition getNextActionIdFromRequest (request : Request.t) : option string :=
  let values := Request.getHeader request "Next-Action" in
  let value := values ≫= head in
  let trimmed := Js.trim <$> value in
  match trimmed with
  | Some t => if String.eqb t "" then None else Some t
  | None => None
  end.

Definition getTextBody (body : option string) : string := default "" body.

(** [origin.replace(/^https?:\/\//, "")]. *)
Definition stripScheme (origin : string) : string :=
  if Js.startsWith origin "https://" then String.substring 8 (String.length origin - 8) origin
  else if Js.startsWith origin "http://" then String.substring 7 (String.length origin - 7) origin
  else origin.

Section Backend.
Context `{Runtime}.

Definition nowIso (s : State) : string * State :=
  (clock (clockReads s),
   {| actions := actions s; actionNotesById := actionNotesById s;
      actionNamesById := actionNamesById s;
      discoveredActionsById := discoveredActionsById s;
      actionUsagesById := actionUsagesById s;
      seenRequestIds := seenRequestIds s; sent := sent s;
      clockReads := S (clockReads s) |}).

Definition safeJsonParse (text : string) : option (JSON number) :=
  if (String.length text =? 0)%nat then None else JSON_parse text.

(** The notes one property of a body element contributes. *)
Definition directIdOfEntry (entry : string * JSON number) : list string :=
  let '(key, value) := entry in
  if negb (Js.includes (Js.toLowerCase key) "id") then []
  else match value with
       | JNumber n =>
           if Number_isInteger n
           then ["Direct ID: " +:+ key +:+ "=" +:+ Number_toString n]
           else []
       | JString v =>
           if Js.allDigits v then ["Direct ID: " +:+ key +:+ "=" +:+ v] else []
       | _ => []
       end.

Definition directIdsOfElement (element : JSON number) : list string :=
  match element with
  | JObject entries => flat_map directIdOfEntry entries
  | _ => []
  end.

Definition authNotes (request : Request.t) : list string :=
  let headerKeys := map (fun h => Js.toLowerCase (fst h)) (Request.getHeaders request) in
  let hasAuth :=
    bool_decide ("authorization" ∈ headerKeys) || bool_decide ("cookie" ∈ headerKeys) in
  if negb hasAuth then ["No auth headers"] else [].

Definition dangerNotes (parameters : string) : list string :=
  let lowerParams := Js.toLowerCase parameters in
  flat_map (fun danger =>
              if Js.includes lowerParams (Js.toLowerCase danger)
              then ["Contains: " +:+ danger] else [])
           dangerousParams.

Definition directIdNotes (parameters : string) : list string :=
  match safeJsonParse parameters with
  | Some (JArray bodyJson) =>
      if (1 <? length bodyJson)%nat
      then flat_map directIdsOfElement (drop 1 bodyJson)
      else []
  | _ => []
  end.

Definition responseNotes (response : Response.t) : list string :=
  let responseBody := getTextBody (Response.getBody response) in
  let responseLower := Js.toLowerCase responseBody in
  (if Js.includes responseLower "development" || Js.includes responseBody "__NEXT_DATA__"
   then ["Dev mode indicators"] else [])
  ++ (if existsb (fun p => regexTest p responseBody) errorPatterns
      then ["Error in response"] else [])
  ++ (if existsb (fun t => Js.includes responseLower t)
           ["mssql"; "postgres"; "mysql"; "database error"]
      then ["DB mention"] else []).

Definition originNotes (request : Request.t) : list string :=
  let origin := Js.trim <$> (Request.getHeader request "Origin" ≫= head) in
  let host := Js.trim <$> (Request.getHeader request "Host" ≫= head) in
  match origin, host with
  | Some origin, Some host =>
      if negb (String.eqb origin "") && negb (String.eqb host "") then
        let originHost := Js.splitHead "/" (stripScheme origin) in
        if negb (String.eqb originHost "") && negb (String.eqb originHost host)
        then ["Origin/Host mismatch"] else []
      else []
  | _, _ => []
  end.

(** [actionUsagesById[actionId]?.length ?? 0]. *)
Definition reusedCountOf (actionId : string) (s : State) : nat :=
  match jsGet (actionUsagesById s) actionId with
  | Own usages => length usages
  | Inherited m => default 0 (memberLength m)
  | Undefined => 0
  end.

Definition reuseNotes (actionId : string) (s : State) : list string :=
  let reusedCount := reusedCountOf actionId s in
  if (10 <? reusedCount)%nat
  then ["Action reused " +:+ pretty reusedCount +:+ "x"] else [].

Definition bindNotes (parameters : string) : list string :=
  if Js.includes parameters ".bind(" then ["Potential .bind() usage"] else [].

Definition methodNotes (request : Request.t) : list string :=
  if negb (String.eqb (Js.toUpperCase (Request.getMethod request)) "POST")
  then ["Non-POST action"] else [].

(** The array [notes] of [analyzeSecurity] when it is joined. *)
Definition securityNoteList (request : Request.t) (response : Response.t)
  (actionId parameters : string) (s : State) : list string :=
  authNotes request ++ dangerNotes parameters ++ directIdNotes parameters
  ++ responseNotes response ++ originNotes request ++ reuseNotes actionId s
  ++ bindNotes parameters ++ methodNotes request.

Definition analyzeSecurity (request : Request.t) (response : Response.t)
  (actionId parameters : string) (s : State) : string :=
  Js.join "; " (securityNoteList request response actionId parameters s).

(** The text a template literal puts for the name found. *)
Definition nameText (functionName : Got string) : string :=
  match functionName with
  | Own name => name
  | Inherited m => memberText m
  | Undefined => "undefined"
  end.

(** The call returns the note and leaves the state it reached, or
    throws: an inherited member has no [includes].  When the name is
    [undefined] the identifier names no inherited member, and the note
    found is a string or [undefined]. *)
Definition ensureActionNotes (actionId : string) (s : State)
  : Completion string * State :=
  let existing := jsGet (actionNotesById s) actionId in
  let functionName := jsGet (actionNamesById s) actionId in
  match functionName with
  | Undefined =>
      (Returns match existing with Own text => text | _ => "" end, s)
  | _ =>
      let prefix := "Function: " +:+ nameText functionName in
      match existing with
      | Undefined =>
          (Returns prefix, setNotes (<[actionId := prefix]> (actionNotesById s)) s)
      | Inherited _ =>
          (Throws (ThrownError (typeErrorMessage IncludesOfMember)), s)
      | Own existing =>
          if Js.includes existing prefix then (Returns existing, s)
          else
            let updated := prefix +:+ newline +:+ existing in
            (Returns updated,
             setNotes (<[actionId := updated]> (actionNotesById s)) s)
      end
  end.

(** The state the call leaves and the value it throws, if any.  The
    request is recorded as seen before anything can throw; the
    invocation is appended before the usage history is read. *)
Definition addActionEntry (request : Request.t) (response : Response.t)
  (actionId : string) (s : State) : State * option Thrown :=
  let requestId := Request.getId request in
  if bool_decide (requestId ∈ seenRequestIds s) then (s, None)
  else
    let s := setSeen ({[requestId]} ∪ seenRequestIds s) s in
    let parameters := getTextBody (Request.getBody request) in
    let requestSize := Request.rawLength request in
    let responseSize := Response.rawLength response in
    let statusCode := Response.getCode response in
    let timestamp := Response.getCreatedAt response in
    let securityNotes := analyzeSecurity request response actionId parameters s in
    match ensureActionNotes actionId s with
    | (Throws e, s) => (s, Some e)
    | (Returns actionNotes, s) =>
    let entry :=
      {| ActionEntry.id := length (actions s) + 1;
         ActionEntry.requestId := requestId;
         ActionEntry.method := Request.getMethod request;
         ActionEntry.url := Request.getUrl request;
         ActionEntry.actionId := actionId;
         ActionEntry.parameters := parameters;
         ActionEntry.requestSize := requestSize;
         ActionEntry.responseSize := responseSize;
         ActionEntry.statusCode := statusCode;
         ActionEntry.timestamp := timestamp;
         ActionEntry.securityNotes := securityNotes;
         ActionEntry.actionNotes := actionNotes |} in
    let s := setActions (actions s ++ [entry]) s in
    let usage :=
      {| ActionUsage.timestamp := timestamp;
         ActionUsage.url := ActionEntry.url entry;
         ActionUsage.method := ActionEntry.method entry;
         ActionUsage.statusCode := statusCode;
         ActionUsage.parameters := parameters;
         ActionUsage.securityNotes := securityNotes;
         ActionUsage.requestId := requestId |} in
    match jsGet (actionUsagesById s) actionId with
    | Inherited _ => (s, Some (ThrownError (typeErrorMessage SpreadOfMember)))
    | _ =>
    let s :=
      setUsages (<[actionId := default [] (actionUsagesById s !! actionId) ++ [usage]]>
                   (actionUsagesById s)) s in
    (send (ActionAdded entry) s, None)
    end
    end.

Definition processRequestResponse (request : Request.t)
  (response : option Response.t) (s : State) : State * option Thrown :=
  match response with
  | None => (s, None)
  | Some response =>
      match getNextActionIdFromRequest request with
      | None => (s, None)
      | Some actionId => addActionEntry request response actionId s
      end
  end.

(** [paginateAllRequests]: [onPage] runs on every page served, until a
    fetch or [onPage] throws; the result is the accumulated effect and
    the value thrown, if any. *)
Fixpoint paginateAllRequests {A : Type}
  (onPage : list Item -> A -> A * option Thrown)
  (h : History) (a : A) : A * option Thrown :=
  match h with
  | LastPage items => onPage items a
  | NextPage items rest =>
      match onPage items a with
      | (a, None) => paginateAllRequests onPage rest a
      | thrown => thrown
      end
  | FetchFails e => (a, Some e)
  end.

(** *** Proxy-history scan *)

Definition scanItem (acc : State * nat * nat) (item : Item)
  : (State * nat * nat) * option Thrown :=
  let '(s, scanned, found) := acc in
  let scanned := scanned + 1 in
  match processRequestResponse (request item) (response item) s with
  | (s, Some e) => ((s, scanned, found), Some e)
  | (s, None) =>
      match getNextActionIdFromRequest (request item) with
      | Some _ => ((s, scanned, found + 1), None)
      | None => ((s, scanned, found), None)
      end
  end.

Definition scanPage (items : list Item) (acc : State * nat * nat)
  : (State * nat * nat) * option Thrown :=
  match forEach scanItem acc items with
  | ((s, scanned, found), None) =>
      ((sendStatus ("Scanning requests... " +:+ pretty scanned) s, scanned, found),
       None)
  | thrown => thrown
  end.

Definition scanProxyHistory (h : History) (s : State)
  : Result (nat * nat) * State :=
  let s := sendStatus "Scanning requests..." s in
  match paginateAllRequests scanPage h (s, 0, 0) with
  | ((s, scanned, found), None) =>
      let s :=
        sendStatus ("Scanned " +:+ pretty scanned +:+ " requests ("
                    +:+ pretty found +:+ " actions)") s in
      let s := send DataChanged s in
      (Ok (scanned, found), s)
  | ((s, _, _), Some error) =>
      let message := errorMessage error in
      let s := sendStatus "Scan failed" s in
      (Error message, s)
  end.

(** *** Bundle scans *)

(** The checks both bundle scans apply to a match before using it:
    both groups captured and non-empty, and a name that starts with
    neither [$] nor [_]. *)
Definition capturedPair (m : Match) : option (string * string) :=
  match group1 m, group2 m with
  | Some actionId, Some functionName =>
      if String.eqb actionId "" then None
      else if String.eqb functionName "" then None
      else if Js.startsWith functionName "$" || Js.startsWith functionName "_"
      then None
      else Some (actionId, functionName)
  | _, _ => None
  end.

(** The response body of an item that a bundle scan looks into. *)
Definition chunkBody (item : Item) : option string :=
  match response item with
  | None => None
  | Some response =>
      if negb (isNextChunkRequest (request item)) then None
      else
        let body := getTextBody (Response.getBody response) in
        if negb (Js.includes body "createServerReference") then None
        else Some body
  end.

Definition matchesOf (patterns : list NamePattern) (body : string) : list Match :=
  flat_map (fun pattern => matchAll pattern body) patterns.

Definition extractMatch (acc : State * nat) (m : Match) : State * nat :=
  let '(s, namesExtracted) := acc in
  match capturedPair m with
  | None => acc
  | Some (actionId, functionName) =>
      match actionNamesById s !! actionId with
      | None =>
          (setNames (<[actionId := functionName]> (actionNamesById s)) s,
           namesExtracted + 1)
      | Some _ => acc
      end
  end.

Definition extractItem (acc : State * nat * nat) (item : Item)
  : State * nat * nat :=
  let '(s, scannedChunks, namesExtracted) := acc in
  match chunkBody item with
  | None => acc
  | Some body =>
      let scannedChunks := scannedChunks + 1 in
      let '(s, namesExtracted) :=
        foldl extractMatch (s, namesExtracted) (matchesOf extractPatterns body) in
      (s, scannedChunks, namesExtracted)
  end.

Definition extractPage (items : list Item) (acc : State * nat * nat)
  : State * nat * nat :=
  let '(s, scannedChunks, namesExtracted) := foldl extractItem acc items in
  (sendStatus ("Scanning chunk files... " +:+ pretty scannedChunks) s,
   scannedChunks, namesExtracted).

(** [for (const actionId of Object.keys(actionNamesById)) ensureActionNotes(actionId)];
    the keys are captured identifiers, for which the call returns. *)
Definition ensureAllNotes (s : State) : State :=
  foldl (fun s actionId => snd (ensureActionNotes actionId s)) s
    (map fst (map_to_list (actionNamesById s))).

Definition refreshEntryNotes (s : State) : State :=
  setActions
    (map (fun a =>
            match actionNotesById s !! ActionEntry.actionId a with
            | None => a
            | Some notes => ActionEntry.withNotes a notes
            end)
       (actions s)) s.

Definition extractActionNames (h : History) (s : State)
  : Result (nat * nat) * State :=
  let s := sendStatus "Scanning chunk files..." s in
  match paginateAllRequests (returning extractPage) h (s, 0, 0) with
  | ((s, scannedChunks, namesExtracted), None) =>
      let s := ensureAllNotes s in
      let s := refreshEntryNotes s in
      let s := send DataChanged s in
      let s :=
        sendStatus ("Extracted " +:+ pretty namesExtracted +:+ " action names ("
                    +:+ pretty scannedChunks +:+ " chunks scanned)") s in
      (Ok (scannedChunks, namesExtracted), s)
  | ((s, _, _), Some error) =>
      let message := errorMessage error in
      let s := sendStatus "Action name extraction failed" s in
      (Error message, s)
  end.

Definition findMatch (request : Request.t) (chunkFile : string)
  (s : State) (m : Match) : State :=
  match capturedPair m with
  | None => s
  | Some (actionId, functionName) =>
      match discoveredActionsById s !! actionId with
      | Some _ => s
      | None =>
          let '(firstSeen, s) := nowIso s in
          let s :=
            setDiscovered
              (<[actionId :=
                   {| DiscoveredActionInternal.actionId := actionId;
                      DiscoveredActionInternal.functionName := functionName;
                      DiscoveredActionInternal.chunkFile := chunkFile;
                      DiscoveredActionInternal.firstSeen := firstSeen;
                      DiscoveredActionInternal.chunkRequestId := Request.getId request |}]>
                 (discoveredActionsById s)) s in
          match actionNamesById s !! actionId with
          | None =>
              let s := setNames (<[actionId := functionName]> (actionNamesById s)) s in
              snd (ensureActionNotes actionId s)
          | Some _ => s
          end
      end
  end.

Definition findItem (acc : State * nat) (item : Item) : State * nat :=
  let '(s, chunksFound) := acc in
  match chunkBody item with
  | None => acc
  | Some body =>
      let chunksFound := chunksFound + 1 in
      let chunkFile := Js.splitLast "/" (Request.getPath (request item)) in
      (foldl (findMatch (request item) chunkFile) s (matchesOf findPatterns body),
       chunksFound)
  end.

Definition findPage (items : list Item) (acc : State * nat) : State * nat :=
  let '(s, chunksFound) := foldl findItem acc items in
  (sendStatus ("Scanning chunks... " +:+ pretty chunksFound) s, chunksFound).

(** *** Classification *)

Definition executedActionIds (s : State) : list string :=
  setOfList (map ActionEntry.actionId (actions s)).

(** [.filter((v) => Boolean(v))] keeps the names that are defined and
    not empty. *)
Definition executedFunctionNames (s : State) : list string :=
  setOfList
    (omap (fun id =>
             match actionNamesById s !! id with
             | Some v => if String.eqb v "" then None else Some v
             | None => None
             end)
       (executedActionIds s)).

Definition statusOf (s : State) (discovered : DiscoveredActionInternal.t) : string :=
  if bool_decide (DiscoveredActionInternal.actionId discovered ∈ executedActionIds s)
  then "Executed"
  else if bool_decide (DiscoveredActionInternal.functionName discovered
                         ∈ executedFunctionNames s)
  then "Unused (Function executed with different ID)"
  else "Never Executed".

Definition rowOf (s : State) (discovered : DiscoveredActionInternal.t)
  : DiscoveredAction.t :=
  let actionId := DiscoveredActionInternal.actionId discovered in
  {| DiscoveredAction.actionId := actionId;
     DiscoveredAction.functionName := DiscoveredActionInternal.functionName discovered;
     DiscoveredAction.status := statusOf s discovered;
     DiscoveredAction.chunkFile := DiscoveredActionInternal.chunkFile discovered;
     DiscoveredAction.executedCount :=
       length (default [] (actionUsagesById s !! actionId));
     DiscoveredAction.notes := default "" (actionNotesById s !! actionId) |}.

Definition unknownRowOf (s : State) (executedId : string) : DiscoveredAction.t :=
  {| DiscoveredAction.actionId := executedId;
     DiscoveredAction.functionName :=
       default "Unknown" (actionNamesById s !! executedId);
     DiscoveredAction.status := "Executed (No source found)";
     DiscoveredAction.chunkFile := "Not found";
     DiscoveredAction.executedCount :=
       length (default [] (actionUsagesById s !! executedId));
     DiscoveredAction.notes := default "" (actionNotesById s !! executedId) |}.

(** The rows pushed by the loop over [Object.values(discoveredActionsById)]. *)
Definition allRows (s : State) : list DiscoveredAction.t :=
  map (fun kv => rowOf s (snd kv)) (map_to_list (discoveredActionsById s)).

Definition unusedRows (s : State) : list DiscoveredAction.t :=
  filter (fun row => DiscoveredAction.status row = "Never Executed") (allRows s).

Definition unknownRows (s : State) : list DiscoveredAction.t :=
  map (unknownRowOf s)
    (filter (fun executedId => discoveredActionsById s !! executedId = None)
       (executedActionIds s)).

Definition getDiscovery (s : State) : DiscoveryResult :=
  {| dr_status := ""; dr_all := allRows s; dr_unused := unusedRows s;
     dr_unknown := unknownRows s |}.

(** [findAllActions] builds its rows with the same code as
    [getDiscovery]. *)
Definition findAllActions (h : History) (s : State)
  : Result DiscoveryResult * State :=
  let s := setDiscovered ∅ s in
  let s := sendStatus "Scanning chunks for server actions..." s in
  match paginateAllRequests (returning findPage) h (s, 0) with
  | ((s, _), None) =>
      let status :=
        "Found " +:+ pretty (length (allRows s)) +:+ " actions ("
        +:+ pretty (length (unusedRows s)) +:+ " unused)" in
      let result :=
        {| dr_status := status; dr_all := allRows s; dr_unused := unusedRows s;
           dr_unknown := unknownRows s |} in
      let s := sendStatus status s in
      let s := send DataChanged s in
      (Ok result, s)
  | ((s, _), Some error) =>
      let message := errorMessage error in
      let s := sendStatus "Discovery failed" s in
      (Error message, s)
  end.

(** *** The remaining API *)

Definition getActions (s : State) : list ActionEntry.t := actions s.

Definition getChunkRequestIdForAction (actionId : string) (s : State)
  : Result string :=
  match discoveredActionsById s !! actionId with
  | None => Error "No chunk request found for action"
  | Some discovered => Ok (DiscoveredActionInternal.chunkRequestId discovered)
  end.

Definition clearAll (s : State) : State :=
  let s := setActions [] s in
  let s := setUsages ∅ s in
  let s := setSeen ∅ s in
  let s := sendStatus "Cleared" s in
  send DataChanged s.

Definition setActionNote (actionId note : string) (s : State) : State :=
  let s := setNotes (<[actionId := note]> (actionNotesById s)) s in
  let s :=
    setActions
      (map (fun a =>
              if negb (String.eqb (ActionEntry.actionId a) actionId) then a
              else ActionEntry.withNotes a note)
         (actions s)) s in
  send DataChanged s.

Fixpoint analyzeRequests (get : string -> Lookup) (requestIds : list string)
  (acc : State * nat * nat) : (State * nat * nat) * option Thrown :=
  match requestIds with
  | [] => (acc, None)
  | id :: rest =>
      let '(s, analyzed, found) := acc in
      match get id with
      | LookupFails e => (acc, Some e)
      | NotFound => analyzeRequests get rest (s, analyzed + 1, found)
      | Found entry =>
          let analyzed := analyzed + 1 in
          match response entry with
          | None => analyzeRequests get rest (s, analyzed, found)
          | Some response =>
              match getNextActionIdFromRequest (request entry) with
              | None => analyzeRequests get rest (s, analyzed, found)
              | Some actionId =>
                  match addActionEntry (request entry) response actionId s with
                  | (s, None) =>
                      analyzeRequests get rest (s, analyzed, found + 1)
                  | (s, Some e) => ((s, analyzed, found + 1), Some e)
                  end
              end
          end
      end
  end.

Definition analyzeRequestsById (get : string -> Lookup)
  (requestIds : list string) (s : State) : Result (nat * nat) * State :=
  match analyzeRequests get requestIds (s, 0, 0) with
  | ((s, analyzed, found), None) =>
      (Ok (analyzed, found), send DataChanged s)
  | ((s, _, _), Some error) => (Error (errorMessage error), s)
  end.

(** The handler registered with [sdk.events.onInterceptResponse]; it
    has no [try]: what per-pair processing throws ends the handler. *)
Definition onInterceptResponse (request : Request.t) (response : Response.t)
  (s : State) : State * option Thrown :=
  match processRequestResponse request (Some response) s with
  | (s, Some e) => (s, Some e)
  | (s, None) =>
  match getNextActionIdFromRequest request with
  | None => (s, None)
  | Some actionId =>
      let securityNotes :=
        analyzeSecurity request response actionId
          (getTextBody (Request.getBody request)) s in
      if negb (Js.includes securityNotes "No auth headers") then (s, None)
      else
        (send (FindingCreated
                {| title := "Next.js Server Action without auth: "
                            +:+ Js.sliceTo 8 actionId;
                   description := securityNotes;
                   reporter := "Next.js Actions Analyzer";
                   dedupeKey := Request.getHost request +:+ "-"
                                +:+ Request.getPath request +:+ "-" +:+ actionId;
                   findingRequest := request |}) s, None)
  end
  end.
End Backend.

(** ** Vocabulary of the statements *)

(** The items of the pages served before the traversal ends or fails, in
    traversal order, and the value thrown, if the traversal fails. *)
Fixpoint traversed (h : History) : list Item :=
  match h with
  | LastPage items => items
  | NextPage items rest => items ++ traversed rest
  | FetchFails _ => []
  end.

Fixpoint failure (h : History) : option Thrown :=
  match h with
  | LastPage _ => None
  | NextPage _ rest => failure rest
  | FetchFails e => Some e
  end.

(** Two states hold the same store: they differ at most in the events
    sent and in the clock readings taken. *)
Definition sameStore (s s' : State) : Prop :=
  actions s = actions s'
  ∧ actionNotesById s = actionNotesById s'
  ∧ actionNamesById s = actionNamesById s'
  ∧ discoveredActionsById s = discoveredActionsById s'
  ∧ actionUsagesById s = actionUsagesById s'
  ∧ seenRequestIds s = seenRequestIds s'.

(** The [Next-Action] header is missing, has no value, or its first
    value is white space only. *)
Definition blankActionHeader (request : Request.t) : Prop :=
  match Request.getHeader request "Next-Action" with
  | None | Some [] => True
  | Some (value :: _) => Js.allChars Js.isWhite value = true
  end.

(** Every invocation and every usage record stems from a request
    identifier recorded as seen. *)
Definition seenCoversStore (s : State) : Prop :=
  (∀ a, a ∈ actions s → ActionEntry.requestId a ∈ seenRequestIds s)
  ∧ (∀ actionId usages u,
        actionUsagesById s !! actionId = Some usages → u ∈ usages →
        ActionUsage.requestId u ∈ seenRequestIds s).

Definition invocationsOf (requestId : string) (s : State) : list ActionEntry.t :=
  filter (fun a => ActionEntry.requestId a = requestId) (actions s).

Definition usagesOf (requestId actionId : string) (s : State) : list ActionUsage.t :=
  filter (fun u => ActionUsage.requestId u = requestId)
    (default [] (actionUsagesById s !! actionId)).

(** The reading of the full reset under which it empties all four
    mappings and the set of seen request identifiers. *)
Definition resetEmptiesStore (s : State) : Prop :=
  let s' := clearAll s in
  actions s' = []
  ∧ discoveredActionsById s' = ∅
  ∧ actionUsagesById s' = ∅
  ∧ actionNotesById s' = ∅
  ∧ seenRequestIds s' = ∅.

(** The note [ensureActionNotes] leaves for an identifier, from its
    function name and the note it had: without a name the note stays;
    with a name, a missing note becomes the prefix line, a note that
    contains the prefix stays, and any other note is put below the
    prefix line. *)
Definition maintainedNote (name existing : option string) : option string :=
  match name with
  | None => existing
  | Some functionName =>
      let prefix := "Function: " +:+ functionName in
      match existing with
      | None => Some prefix
      | Some text =>
          if Js.includes text prefix then Some text
          else Some (prefix +:+ newline +:+ text)
      end
  end.

(** The reading of the note invariant under which the prefix occurs in
    the stored note exactly once. *)
Definition prefixExactlyOnce (actionId : string) (s : State) : Prop :=
  ∀ name, actionNamesById s !! actionId = Some name →
    ∃ note, actionNotesById s !! actionId = Some note
            ∧ Js.occurrences note ("Function: " +:+ name) = 1.

(** The reading of the finding's deduplication key under which the
    action identifier enters it truncated, as it enters the title. *)
Definition keyUsesTruncatedId (request : Request.t) (s : State) : Prop :=
  ∀ finding, FindingCreated finding ∈ sent s →
    ∃ actionId, getNextActionIdFromRequest request = Some actionId
      ∧ dedupeKey finding
        = Request.getHost request +:+ "-" +:+ Request.getPath request +:+ "-"
          +:+ Js.sliceTo 8 actionId.

(** From [s] to [s'] nothing happened to the store except that function
    names were added for identifiers that had none. *)
Definition onlyNamesAdded (s s' : State) : Prop :=
  actions s' = actions s
  ∧ actionNotesById s' = actionNotesById s
  ∧ discoveredActionsById s' = discoveredActionsById s
  ∧ actionUsagesById s' = actionUsagesById s
  ∧ seenRequestIds s' = seenRequestIds s
  ∧ actionNamesById s ⊆ actionNamesById s'.

(** The function name the first pair for [actionId] carries. *)
Fixpoint firstNameIn (actionId : string) (pairs : list (string * string))
  : option string :=
  match pairs with
  | [] => None
  | (id, functionName) :: rest =>
      if String.eqb id actionId then Some functionName
      else firstNameIn actionId rest
  end.

Section Passes.
Context `{Runtime}.

(** The identifier/name pairs a full discovery pass extracts, in the
    order of its traversal: page by page, item by item, pattern by
    pattern, match by match. *)
Definition pairsOfItem (item : Item) : list (string * string) :=
  match chunkBody item with
  | None => []
  | Some body => omap capturedPair (matchesOf findPatterns body)
  end.

Definition pairsOfPass (h : History) : list (string * string) :=
  flat_map pairsOfItem (traversed h).

(** Per-pair processing of a list of items, one after the other, until
    one throws: the state reached and the value thrown, if any. *)
Definition processAll (items : list Item) (s : State) : State * option Thrown :=
  forEach (fun s item => processRequestResponse (request item) (response item) s)
    s items.

(** The reading of the reuse rule on the stored text: the security
    notes stored with the invocation created for a new pair contain
    [Action reused <n>x], for the number [n] of usage records the
    identifier had, exactly when [n > 10]. *)
Definition storedTextTellsReuse (request : Request.t) (response : Response.t)
  (actionId : string) (s : State) : Prop :=
  ∀ entry,
    last (actions (addActionEntry request response actionId s).1) = Some entry →
    let n := length (default [] (actionUsagesById s !! actionId)) in
    Js.includes (ActionEntry.securityNotes entry)
      ("Action reused " +:+ pretty n +:+ "x") = true
    ↔ 10 < n.

(** What ends a scan of the traffic early, if anything: the value
    per-pair processing throws first, else the value a fetch throws. *)
Definition scanThrown (h : History) (s : State) : option Thrown :=
  match (processAll (traversed h) s).2 with
  | Some e => Some e
  | None => failure h
  end.
End Passes.

(** The function name stored for a declared action. *)
Definition declaredName (s : State) (actionId : string) : option string :=
  DiscoveredActionInternal.functionName <$> discoveredActionsById s !! actionId.

(** Every declared action is stored under its own identifier. *)
Definition keyedById (s : State) : Prop :=
  ∀ key d, discoveredActionsById s !! key = Some d →
           DiscoveredActionInternal.actionId d = key.

(** The identifier has at least one invocation; the function name is the
    stored name of an identifier that has one. *)
Definition hasInvocation (s : State) (actionId : string) : Prop :=
  ∃ a, a ∈ actions s ∧ ActionEntry.actionId a = actionId.

Definition nameExecuted (s : State) (functionName : string) : Prop :=
  ∃ actionId, hasInvocation s actionId
              ∧ actionNamesById s !! actionId = Some functionName
              ∧ functionName ≠ "".

(** ** Sample traffic *)

Module Sample.

Definition actionId : string := "deadbeefdeadbeefdeadbeefdeadbeefdeadbeef".

Definition post : Request.t :=
  {| Request.getId := "17";
     Request.getMethod := "POST";
     Request.getUrl := "https://shop.test/cart";
     Request.getPath := "/cart";
     Request.getHost := "shop.test";
     Request.getHeaders := [("Host", ["shop.test"]); ("Next-Action", [actionId])];
     Request.getBody := None;
     Request.rawLength := 120 |}.

Definition plain : Request.t :=
  {| Request.getId := "18";
     Request.getMethod := "GET";
     Request.getUrl := "https://shop.test/";
     Request.getPath := "/";
     Request.getHost := "shop.test";
     Request.getHeaders := [("Host", ["shop.test"]); ("Next-Action", ["   "])];
     Request.getBody := None;
     Request.rawLength := 80 |}.

Definition ok : Response.t :=
  {| Response.getCode := 200;
     Response.getBody := None;
     Response.rawLength := 64;
     Response.getCreatedAt := "2025-01-01T00:00:00.000Z" |}.

(** The texts of an engine for an inherited member and for the two
    type errors. *)
Definition nativeText (m : ProtoMember) : string :=
  match m with
  | MProto => "[object Object]"
  | _ => "function () { [native code] }"
  end.

Definition typeErrorText (site : TypeErrorSite) : string :=
  match site with
  | IncludesOfMember => "existing.includes is not a function"
  | SpreadOfMember => "actionUsagesById[actionId] is not iterable"
  end.

(** A runtime that is only asked about empty texts by the samples:
    [safeJsonParse] answers before [JSON.parse] is reached, and no
    error signature matches the empty text. *)
#[local] Instance quiet : Runtime :=
  {| number := nat;
     Number_isInteger := fun _ => true;
     Number_toString := pretty;
     JSON_parse := fun _ => None;
     regexTest := fun _ _ => false;
     matchAll := fun _ _ => [];
     clock := fun _ => "2025-01-01T00:00:00.000Z";
     memberText := nativeText;
     typeErrorMessage := typeErrorText;
     captures_hex := ltac:(intros ? ? ? ? Hin; by apply elem_of_nil in Hin) |}.

(** A call whose [Next-Action] header names a member of
    [Object.prototype]. *)
Definition inherited : Request.t :=
  {| Request.getId := "50";
     Request.getMethod := "POST";
     Request.getUrl := "https://shop.test/cart";
     Request.getPath := "/cart";
     Request.getHost := "shop.test";
     Request.getHeaders := [("Host", ["shop.test"]); ("Next-Action", ["constructor"])];
     Request.getBody := None;
     Request.rawLength := 110 |}.

Definition declared : DiscoveredActionInternal.t :=
  {| DiscoveredActionInternal.actionId := actionId;
     DiscoveredActionInternal.functionName := "checkout";
     DiscoveredActionInternal.chunkFile := "app.js";
     DiscoveredActionInternal.firstSeen := "2025-01-01T00:00:00.000Z";
     DiscoveredActionInternal.chunkRequestId := "3" |}.

(** A store after one discovery pass and one analyst note. *)
Definition annotated : State :=
  {| actions := [];
     actionNotesById := {[ actionId := "Function: checkout" ]};
     actionNamesById := {[ actionId := "checkout" ]};
     discoveredActionsById := {[ actionId := declared ]};
     actionUsagesById := ∅;
     seenRequestIds := ∅;
     sent := [];
     clockReads := 1 |}.

(** The analyst saves a note that repeats the prefix line. *)
Definition doubled : string :=
  "Function: checkout" +:+ newline +:+ "Function: checkout".

Definition reannotated : State :=
  (addActionEntry post ok actionId (setActionNote actionId doubled annotated)).1.

(** The live observer meets the first pair of the session. *)
Definition observed : State := (onInterceptResponse post ok initialState).1.

Definition finding : Finding :=
  {| title := "Next.js Server Action without auth: deadbeef";
     description := "No auth headers";
     reporter := "Next.js Actions Analyzer";
     dedupeKey := "shop.test-/cart-deadbeefdeadbeefdeadbeefdeadbeefdeadbeef";
     findingRequest := post |}.

(** A store in which [post] has been processed once. *)
Definition processed : State :=
  (processRequestResponse post (Some ok) initialState).1.

Definition usage : ActionUsage.t :=
  {| ActionUsage.timestamp := "2025-01-01T00:00:00.000Z";
     ActionUsage.url := "https://shop.test/cart";
     ActionUsage.method := "POST";
     ActionUsage.statusCode := 200;
     ActionUsage.parameters := "";
     ActionUsage.securityNotes := "No auth headers";
     ActionUsage.requestId := "1" |}.

(** A store whose action has eleven usage records already. *)
Definition busy : State :=
  setUsages {[ actionId := replicate 11 usage ]} initialState.

(** A source whose only page holds the call that names an inherited
    member, followed by an ordinary call. *)
Definition poisoned : History :=
  LastPage [{| request := inherited; response := Some ok |};
            {| request := post; response := Some ok |}].

(** A source that serves one page and then fails. *)
Definition flaky : History :=
  NextPage [{| request := post; response := Some ok |}]
    (FetchFails (ThrownError "connection lost")).

(** The body of the end-to-end scenario,
    [["deadbeef...", {"userId": 42}]], and a runtime that parses it. *)
Definition quote : string := String "034"%char EmptyString.

Definition scenarioBody : string :=
  "[" +:+ quote +:+ actionId +:+ quote +:+ ", {" +:+ quote +:+ "userId"
  +:+ quote +:+ ": 42}]".

Definition parsing : Runtime :=
  {| number := nat;
     Number_isInteger := fun _ => true;
     Number_toString := pretty;
     JSON_parse := fun text =>
       if String.eqb text scenarioBody
       then Some (JArray [JString actionId; JObject [("userId", JNumber 42)]])
       else None;
     regexTest := fun _ _ => false;
     matchAll := fun _ _ => [];
     clock := fun _ => "2025-01-01T00:00:00.000Z";
     memberText := nativeText;
     typeErrorMessage := typeErrorText;
     captures_hex := ltac:(intros ? ? ? ? Hin; by apply elem_of_nil in Hin) |}.

(** A body whose second element has a key that spells the words of the
    reuse note, [["x", {"id Action reused 0x": 1}]], and a runtime that
    parses it. *)
Definition echoBody : string :=
  "[" +:+ quote +:+ "x" +:+ quote +:+ ", {" +:+ quote +:+ "id Action reused 0x"
  +:+ quote +:+ ": 1}]".

Definition echoing : Runtime :=
  {| number := nat;
     Number_isInteger := fun _ => true;
     Number_toString := pretty;
     JSON_parse := fun text =>
       if String.eqb text echoBody
       then Some (JArray [JString "x"; JObject [("id Action reused 0x", JNumber 1)]])
       else None;
     regexTest := fun _ _ => false;
     matchAll := fun _ _ => [];
     clock := fun _ => "2025-01-01T00:00:00.000Z";
     memberText := nativeText;
     typeErrorMessage := typeErrorText;
     captures_hex := ltac:(intros ? ? ? ? Hin; by apply elem_of_nil in Hin) |}.

Definition echo : Request.t :=
  {| Request.getId := "22";
     Request.getMethod := "POST";
     Request.getUrl := "https://shop.test/cart";
     Request.getPath := "/cart";
     Request.getHost := "shop.test";
     Request.getHeaders := [("Host", ["shop.test"]); ("Next-Action", [actionId])];
     Request.getBody := Some echoBody;
     Request.rawLength := 210 |}.

Definition scenario : Request.t :=
  {| Request.getId := "21";
     Request.getMethod := "POST";
     Request.getUrl := "https://shop.test/cart";
     Request.getPath := "/cart";
     Request.getHost := "shop.test";
     Request.getHeaders := [("Host", ["shop.test"]); ("Next-Action", [actionId])];
     Request.getBody := Some scenarioBody;
     Request.rawLength := 200 |}.

End Sample.

(** ** The rest of the API and the action table *)

(** [[...new Set(list)]] for any element type. *)
Definition distinct {A : Type} `{EqDecision A} (l : list A) : list A :=
  foldl (fun acc x => if bool_decide (x ∈ acc) then acc else acc ++ [x]) [] l.

(** [exportTime.replace(/[:.]/g, "-")]. *)
Definition sanitizeTime (exportTime : string) : string :=
  Js.mapChars
    (fun c => if (Ascii.eqb c ":" || Ascii.eqb c ".")%bool then "-"%char else c)
    exportTime.

Record ExportOptions := {
  includeExecuted : bool;
  includeUnused : bool;
  includeSecurity : bool;
  includeFullDetails : bool;
}.

Module UnusedExport.
Record t := {
  functionName : string;
  chunkFile : string;
  discoveryTime : string;
  status : string;
}.
End UnusedExport.

Module RequestSample.
Record t := {
  timestamp : string;
  url : string;
  method : string;
  statusCode : nat;
  parameters : string;
  requestId : string;
}.
End RequestSample.

Module ActionSummary.
Record t := {
  functionName : string;
  count : nat;
  endpoints : list string;
  methods : list string;
  statusCodes : list nat;
  parameters : list string;
  securityNotes : list string;
  userNotes : string;
  requests : option (list RequestSample.t);
}.
End ActionSummary.

Record ExportInfo := {
  ei_description : string;
  totalRequests : nat;
  uniqueActions : nat;
  totalDiscovered : nat;
  ei_options : ExportOptions;
}.

(** The object handed to [JSON.stringify]. *)
Record ExportPayload := {
  exportTime : string;
  exportInfo : ExportInfo;
  actionSummary : gmap string ActionSummary.t;
  unusedActions : gmap string UnusedExport.t;
  notesByActionId : gmap string string;
}.

(** The computed property [filteredActions] of the action table, from
    the text of the filter box and the list of invocations shown. *)
Definition filteredActions (filterText : string) (shown : list ActionEntry.t)
  : list ActionEntry.t :=
  let q := Js.toLowerCase (Js.trim filterText) in
  if String.eqb q "" then shown
  else
    List.filter
      (fun a =>
         Js.includes (Js.toLowerCase (ActionEntry.url a)) q
         || Js.includes (Js.toLowerCase (ActionEntry.actionId a)) q
         || Js.includes (Js.toLowerCase (ActionEntry.parameters a)) q
         || Js.includes (Js.toLowerCase (ActionEntry.securityNotes a)) q
         || Js.includes (Js.toLowerCase (ActionEntry.actionNotes a)) q)
      shown.

(** The [functionName] of a lookup's answer: a string, or the inherited
    member that [actionNamesById[actionId]] found in its place. *)
Inductive NameFound :=
| NameText (name : string)
| NameMember (m : ProtoMember).

Section Api.
Context `{Runtime}.

Definition lookupActionForRequest (get : string -> Lookup) (requestId : string)
  (s : State) : Result (string * NameFound) :=
  match get requestId with
  | LookupFails e => Error (errorMessage e)
  | NotFound => Error "Request not found"
  | Found entry =>
      match getNextActionIdFromRequest (request entry) with
      | None => Error "No Next-Action header"
      | Some actionId =>
          Ok (actionId,
              match jsGet (actionNamesById s) actionId with
              | Own functionName => NameText functionName
              | Inherited m => NameMember m
              | Undefined => NameText "Unknown"
              end)
      end
  end.

(** The keys [Object.keys(parsed)] adds to [paramKeys] for one usage. *)
Definition paramKeysOf (usage : ActionUsage.t) : list string :=
  match safeJsonParse (ActionUsage.parameters usage) with
  | Some (JObject entries) => map fst entries
  | _ => []
  end.

Definition sampleOf (u : ActionUsage.t) : RequestSample.t :=
  {| RequestSample.timestamp := ActionUsage.timestamp u;
     RequestSample.url := ActionUsage.url u;
     RequestSample.method := ActionUsage.method u;
     RequestSample.statusCode := ActionUsage.statusCode u;
     RequestSample.parameters := ActionUsage.parameters u;
     RequestSample.requestId := ActionUsage.requestId u |}.

Definition summaryOf (options : ExportOptions) (s : State)
  (actionId : string) (usages : list ActionUsage.t) : ActionSummary.t :=
  {| ActionSummary.functionName := default "Unknown" (actionNamesById s !! actionId);
     ActionSummary.count := length usages;
     ActionSummary.endpoints := distinct (map ActionUsage.url usages);
     ActionSummary.methods := distinct (map ActionUsage.method usages);
     ActionSummary.statusCodes := distinct (map ActionUsage.statusCode usages);
     ActionSummary.parameters := distinct (flat_map paramKeysOf usages);
     ActionSummary.securityNotes :=
       distinct (List.filter (fun v => negb (String.eqb v ""))
                   (map ActionUsage.securityNotes usages));
     ActionSummary.userNotes := default "" (actionNotesById s !! actionId);
     ActionSummary.requests :=
       if includeFullDetails options then Some (map sampleOf (take 5 usages))
       else None |}.

Definition unusedOf (info : DiscoveredActionInternal.t) : UnusedExport.t :=
  {| UnusedExport.functionName := DiscoveredActionInternal.functionName info;
     UnusedExport.chunkFile := DiscoveredActionInternal.chunkFile info;
     UnusedExport.discoveryTime := DiscoveredActionInternal.firstSeen info;
     UnusedExport.status := "Never Executed" |}.

(** The [payload] of [exportAnalysis] for an export taken at [exportTime]. *)
Definition exportPayload (options : ExportOptions) (exportTime : string)
  (s : State) : ExportPayload :=
  let unusedActions :=
    if includeUnused options
    then unusedOf <$>
           filter (fun kv : string * DiscoveredActionInternal.t =>
                     DiscoveredActionInternal.functionName kv.2
                       ∉ executedFunctionNames s)
             (discoveredActionsById s)
    else ∅ in
  let actionSummary :=
    if includeExecuted options
    then map_imap (fun actionId usages => Some (summaryOf options s actionId usages))
           (actionUsagesById s)
    else ∅ in
  {| exportTime := exportTime;
     exportInfo :=
       {| ei_description := "Next.js Server Actions Security Analysis";
          totalRequests := length (actions s);
          uniqueActions := length (executedActionIds s);
          totalDiscovered := size (discoveredActionsById s);
          ei_options := options |};
     actionSummary := actionSummary;
     unusedActions := unusedActions;
     notesByActionId := actionNotesById s |}.

(** [exportAnalysis], with [JSON.stringify(payload, undefined, 2)] as
    [stringify]; the result is the pair of [json] and [filename]. *)
Definition exportAnalysis (stringify : ExportPayload -> string)
  (options : ExportOptions) (s : State) : Result (string * string) * State :=
  let '(exportTime, s) := nowIso s in
  let payload := exportPayload options exportTime s in
  let json := stringify payload in
  let filename := "nextjs_actions_" +:+ sanitizeTime exportTime +:+ ".json" in
  (Ok (json, filename), s).
End Api.

(** ** Vocabulary of the further statements *)

(** The item's request has an action identifier. *)
Definition carriesAction (item : Item) : bool :=
  match getNextActionIdFromRequest (request item) with
  | Some _ => true
  | None => false
  end.

(** The item's action identifier, if it has one, names no member that
    plain objects inherit. *)
Definition ordinary (item : Item) : Prop :=
  match getNextActionIdFromRequest (request item) with
  | Some actionId => objectPrototype actionId = None
  | None => True
  end.

(** Per-pair processing has nothing to do for the item: it has no
    response, or no action identifier, or its request was seen. *)
Definition inert (s : State) (item : Item) : Prop :=
  response item = None
  ∨ getNextActionIdFromRequest (request item) = None
  ∨ Request.getId (request item) ∈ seenRequestIds s.

(** The invocations are numbered 1, 2, 3, ... in list order. *)
Definition sequenced (s : State) : Prop :=
  map ActionEntry.id (actions s) = seq 1 (length (actions s)).

(** Every action identifier has as many usage records as invocations. *)
Definition usageMatchesInvocations (s : State) : Prop :=
  ∀ actionId,
    length (default [] (actionUsagesById s !! actionId))
    = length (filter (fun a => ActionEntry.actionId a = actionId) (actions s)).

(** No note is stored under the name of a member that plain objects
    inherit. *)
Definition noInheritedNoteKeys (s : State) : Prop :=
  ∀ key, objectPrototype key ≠ None → actionNotesById s !! key = None.

(** Every invocation shows the note stored for its action, if any. *)
Definition shownNotesCurrent (s : State) : Prop :=
  ∀ a note, a ∈ actions s →
    actionNotesById s !! ActionEntry.actionId a = Some note →
    ActionEntry.actionNotes a = note.

(** The value the first pair for [actionId] carries. *)
Fixpoint firstIn {A : Type} (actionId : string) (pairs : list (string * A))
  : option A :=
  match pairs with
  | [] => None
  | (id, value) :: rest =>
      if String.eqb id actionId then Some value else firstIn actionId rest
  end.

(** Function name, bundle file name and serving request of a declared
    action. *)
Definition originOf (d : DiscoveredActionInternal.t) : string * string * string :=
  (DiscoveredActionInternal.functionName d,
   DiscoveredActionInternal.chunkFile d,
   DiscoveredActionInternal.chunkRequestId d).

Section Origins.
Context `{Runtime}.

(** What a full discovery pass extracts from an item: each pair with the
    file name of the bundle and the identifier of the request that
    served it. *)
Definition declarationsOfItem (item : Item)
  : list (string * (string * string * string)) :=
  match chunkBody item with
  | None => []
  | Some body =>
      map (fun p : string * string =>
             (p.1, (p.2, Js.splitLast "/" (Request.getPath (request item)),
                    Request.getId (request item))))
        (omap capturedPair (matchesOf findPatterns body))
  end.

Definition declarationsOfPass (h : History)
  : list (string * (string * string * string)) :=
  flat_map declarationsOfItem (traversed h).
End Origins.

(** From [s0] to [s] invocations, usage history and the seen set stayed
    as they were, function names were only added, and the note of an
    identifier changed only by the maintenance that follows its first
    name. *)
Definition namesLearned (s0 s : State) : Prop :=
  actions s = actions s0
  ∧ actionUsagesById s = actionUsagesById s0
  ∧ seenRequestIds s = seenRequestIds s0
  ∧ actionNamesById s0 ⊆ actionNamesById s
  ∧ ∀ id, actionNotesById s !! id
          = match actionNamesById s0 !! id with
            | Some _ => actionNotesById s0 !! id
            | None => maintainedNote (actionNamesById s !! id) (actionNotesById s0 !! id)
            end.

(** The item is a bundle response that the bundle scans look into. *)
Definition servesBundle (item : Item) : bool :=
  match chunkBody item with
  | Some _ => true
  | None => false
  end.

(** The origin stored for a declared action, if it is declared. *)
Definition declaredOrigin (s : State) (actionId : string)
  : option (string * string * string) :=
  originOf <$> discoveredActionsById s !! actionId.

(** The point lookup finds a pair with a response whose request has an
    action identifier. *)
Definition analysable (get : string -> Lookup) (requestId : string) : bool :=
  match get requestId with
  | Found item =>
      match response item with
      | Some _ => carriesAction item
      | None => false
      end
  | _ => false
  end.

(** What the point lookup finds for the identifier, if anything, has
    no action identifier that names an inherited member. *)
Definition ordinaryAnswer (get : string -> Lookup) (requestId : string) : Prop :=
  match get requestId with
  | Found item => ordinary item
  | _ => True
  end.

(** The point lookup answers for the identifier: it does not throw. *)
Definition answers (get : string -> Lookup) (requestId : string) : Prop :=
  match get requestId with
  | LookupFails _ => False
  | _ => True
  end.

(** ** A sample session *)

Module Tour.

Definition bundleText : string :=
  "(0,r.createServerReference)(deadbeef, r.callServer, void 0, r.findSourceMapURL, checkout)".

Definition chunk : Request.t :=
  {| Request.getId := "3";
     Request.getMethod := "GET";
     Request.getUrl := "https://shop.test/_next/static/chunks/app.js?v=7";
     Request.getPath := "/_next/static/chunks/app.js?v=7";
     Request.getHost := "shop.test";
     Request.getHeaders := [("Host", ["shop.test"])];
     Request.getBody := None;
     Request.rawLength := 90 |}.

Definition script : Response.t :=
  {| Response.getCode := 200;
     Response.getBody := Some bundleText;
     Response.rawLength := 400;
     Response.getCreatedAt := "2025-01-01T00:00:01.000Z" |}.

(** A runtime whose first extraction pattern and first discovery pattern
    find one registration in [bundleText]. *)
#[local] Instance bundler : Runtime :=
  {| number := nat;
     Number_isInteger := fun _ => true;
     Number_toString := pretty;
     JSON_parse := fun _ => None;
     regexTest := fun _ _ => false;
     matchAll := fun pattern body =>
       match pattern with
       | ExtractP1 | FindP1 =>
           if String.eqb body bundleText
           then [{| group1 := Some Sample.actionId; group2 := Some "checkout" |}]
           else []
       | _ => []
       end;
     clock := fun _ => "2025-01-01T00:00:02.000Z";
     memberText := Sample.nativeText;
     typeErrorMessage := Sample.typeErrorText;
     captures_hex :=
       ltac:(intros pattern body m id Hin Hid;
             assert (m = {| group1 := Some Sample.actionId;
                            group2 := Some "checkout" |}) as ->
               by (destruct pattern; simpl in Hin;
                   try (by apply elem_of_nil in Hin);
                   destruct (String.eqb body bundleText);
                   try (by apply elem_of_nil in Hin);
                   by apply list_elem_of_singleton in Hin);
             injection Hid as <-; split; [vm_compute; lia | reflexivity]) |}.

(** Two pages: an action call and the bundle, then a request without an
    action header and a call still waiting for its response. *)
Definition traffic : History :=
  NextPage [{| request := Sample.post; response := Some Sample.ok |};
            {| request := chunk; response := Some script |}]
    (LastPage [{| request := Sample.plain; response := Some Sample.ok |};
               {| request := Sample.scenario; response := None |}]).

(** A point lookup that knows one pair and fails for one identifier. *)
Definition source (requestId : string) : Lookup :=
  if String.eqb requestId "17"
  then Found {| request := Sample.post; response := Some Sample.ok |}
  else if String.eqb requestId "99" then LookupFails (ThrownError "timeout")
  else NotFound.

Definition everything : ExportOptions :=
  {| includeExecuted := true; includeUnused := true; includeSecurity := true;
     includeFullDetails := true |}.

(** The store after scanning [traffic] and extracting names from it. *)
Definition scanned : State := (scanProxyHistory traffic initialState).2.

Definition named : State := (extractActionNames traffic scanned).2.

(** A script whose path has the bundle marker in its query string
    only. *)
Definition stray : Request.t :=
  {| Request.getId := "4";
     Request.getMethod := "GET";
     Request.getUrl := "https://shop.test/x.js?a=/_next/static/chunks/";
     Request.getPath := "/x.js?a=/_next/static/chunks/";
     Request.getHost := "shop.test";
     Request.getHeaders := [("Host", ["shop.test"])];
     Request.getBody := None;
     Request.rawLength := 70 |}.

(** A call sent from another origin. *)
Definition crossOrigin : Request.t :=
  {| Request.getId := "31";
     Request.getMethod := "POST";
     Request.getUrl := "https://shop.test/cart";
     Request.getPath := "/cart";
     Request.getHost := "shop.test";
     Request.getHeaders :=
       [("Host", ["shop.test"]); ("Origin", [" https://evil.test/landing "]);
        ("Cookie", ["sid=1"]); ("Next-Action", [Sample.actionId])];
     Request.getBody := None;
     Request.rawLength := 150 |}.

End Tour.

(** No two invocations stem from the same request. *)
Definition oneInvocationPerRequest (s : State) : Prop :=
  NoDup (map ActionEntry.requestId (actions s)).

(** * Properties *)

(** ** Strings *)

Lemma startsWith_app (p s : string) : Js.startsWith (p +:+ s) p = true.
Proof.
  induction p as [|c p IH]; simpl; [by destruct s|].
  by rewrite Ascii.eqb_refl.
Qed.

Lemma startsWith_refl (s : string) : Js.startsWith s s = true.
Proof. induction s as [|c s IH]; simpl; [done|]. by rewrite Ascii.eqb_refl. Qed.

Lemma startsWith_empty (s : string) : Js.startsWith s "" = true.
Proof. by destruct s. Qed.

Lemma includes_startsWith (s p : string) :
  Js.startsWith s p = true → Js.includes s p = true.
Proof. intros Hs. destruct s; simpl in *; by rewrite Hs. Qed.

Lemma includes_cons (c : ascii) (s p : string) :
  Js.includes s p = true → Js.includes (String c s) p = true.
Proof. intros Hs. cbn [Js.includes]. rewrite Hs. apply orb_true_r. Qed.

Lemma includes_app_l (a s p : string) :
  Js.includes s p = true → Js.includes (a +:+ s) p = true.
Proof. intros Hs. induction a as [|c a IH]; simpl; [done|]. by rewrite IH, orb_true_r. Qed.

Lemma startsWith_app_r (s b p : string) :
  Js.startsWith s p = true → Js.startsWith (s +:+ b) p = true.
Proof.
  revert s. induction p as [|a p IH]; intros s Hs; [apply startsWith_empty|].
  destruct s as [|c s]; simpl in *; [done|].
  destruct (Ascii.eqb a c); [by apply IH | done].
Qed.

Lemma includes_app_r (s b p : string) :
  Js.includes s p = true → Js.includes (s +:+ b) p = true.
Proof.
  induction s as [|c s IH]; intros Hs.
  - simpl in Hs. rewrite orb_false_r in Hs. destruct p; [|done].
    apply includes_startsWith, startsWith_empty.
  - cbn [Js.includes] in Hs. apply orb_true_iff in Hs as [Hs|Hs].
    + apply includes_startsWith. by apply (startsWith_app_r (String c s)).
    + change (String c s +:+ b) with (String c (s +:+ b)).
      apply includes_cons. by apply IH.
Qed.

Lemma includes_self_app (p s : string) : Js.includes (p +:+ s) p = true.
Proof. apply includes_startsWith, startsWith_app. Qed.

Lemma includes_join (sep x : string) (l : list string) :
  x ∈ l → Js.includes (Js.join sep l) x = true.
Proof.
  induction l as [|y l IH]; intros Hx; [by apply elem_of_nil in Hx|].
  apply elem_of_cons in Hx as [->|Hx].
  - destruct l as [|z l]; simpl.
    + apply includes_startsWith, startsWith_refl.
    + apply includes_self_app.
  - destruct l as [|z l]; [by apply elem_of_nil in Hx|].
    change (Js.join sep (y :: z :: l)) with (y +:+ sep +:+ Js.join sep (z :: l)).
    by apply includes_app_l, includes_app_l, IH.
Qed.

Lemma trimStart_white (s : string) :
  Js.allChars Js.isWhite s = true → Js.trimStart s = "".
Proof.
  induction s as [|c s IH]; simpl; [done|].
  intros [Hc Hs]%andb_true_iff. rewrite Hc. by apply IH.
Qed.

Lemma trim_white (s : string) :
  Js.allChars Js.isWhite s = true → Js.trim s = "".
Proof. intros Hs. unfold Js.trim. by rewrite trimStart_white. Qed.

Example splitLast_path : Js.splitLast "/" "/_next/static/chunks/app.js" = "app.js".
Proof. reflexivity. Qed.

Example splitLast_trailing : Js.splitLast "/" "a/b/" = "".
Proof. reflexivity. Qed.

Example splitHead_query : Js.splitHead "?" "/x/y.js?v=1" = "/x/y.js".
Proof. reflexivity. Qed.

Example trim_both : Js.trim "  ab c  " = "ab c".
Proof. reflexivity. Qed.

Example join_three : Js.join "; " ["a"; "b"; "c"] = "a; b; c".
Proof. reflexivity. Qed.

Example stripScheme_https : stripScheme "https://shop.test/x" = "shop.test/x".
Proof. reflexivity. Qed.

Example sample_action_id :
  getNextActionIdFromRequest Sample.post = Some Sample.actionId.
Proof. reflexivity. Qed.

(** ** The store under per-pair processing *)

Section Properties.
Context `{Runtime}.

Lemma sameStore_refl (s : State) : sameStore s s.
Proof. by repeat split. Qed.

Lemma sameStore_sym (s s' : State) : sameStore s s' → sameStore s' s.
Proof. intros (?&?&?&?&?&?). by repeat split. Qed.

Lemma sameStore_trans (s1 s2 s3 : State) :
  sameStore s1 s2 → sameStore s2 s3 → sameStore s1 s3.
Proof.
  intros (?&?&?&?&?&?) (?&?&?&?&?&?). repeat split; congruence.
Qed.

Lemma sameStore_send (e : Event) (s : State) : sameStore (send e s) s.
Proof. by repeat split. Qed.

Lemma sameStore_sendStatus (t : string) (s : State) : sameStore (sendStatus t s) s.
Proof. apply sameStore_send. Qed.

(** *** Identifiers that name an inherited member *)

Lemma objectPrototype_short (key : string) (m : ProtoMember) :
  objectPrototype key = Some m → String.length key ≤ 20.
Proof.
  unfold objectPrototype.
  repeat match goal with
         | |- context [String.eqb key ?k] =>
             destruct (String.eqb_spec key k) as [->|_]; [intros _; vm_compute; lia|]
         end.
  done.
Qed.

(** What a bundle scan captures is never the name of an inherited
    member. *)
Lemma captured_not_member (pattern : NamePattern) (body : string) (m : Match)
  (actionId : string) :
  m ∈ matchAll pattern body → group1 m = Some actionId →
  objectPrototype actionId = None.
Proof.
  intros Hin Hid. destruct (captures_hex pattern body m actionId Hin Hid) as [Hlen _].
  destruct (objectPrototype actionId) as [member|] eqn:Hm; [|done].
  apply objectPrototype_short in Hm. lia.
Qed.

Lemma jsGet_ordinary {V : Type} (record : gmap string V) (key : string) :
  objectPrototype key = None →
  jsGet record key = match record !! key with
                     | Some value => Own value
                     | None => Undefined
                     end.
Proof. intros Hkey. unfold jsGet. by rewrite Hkey. Qed.

Lemma reusedCountOf_ordinary (actionId : string) (s : State) :
  objectPrototype actionId = None →
  reusedCountOf actionId s = length (default [] (actionUsagesById s !! actionId)).
Proof.
  intros Hkey. unfold reusedCountOf. rewrite jsGet_ordinary by done.
  by destruct (actionUsagesById s !! actionId).
Qed.

(** *** A request identifier that has been seen *)

Lemma addActionEntry_seen request response actionId (s : State) :
  Request.getId request ∈ seenRequestIds s →
  addActionEntry request response actionId s = (s, None).
Proof. intros Hseen. unfold addActionEntry. by rewrite bool_decide_eq_true_2. Qed.

Lemma processRequestResponse_seen request response (s : State) :
  Request.getId request ∈ seenRequestIds s →
  processRequestResponse request response s = (s, None).
Proof.
  intros Hseen. unfold processRequestResponse.
  destruct response; [|done].
  destruct (getNextActionIdFromRequest request); [|done].
  by apply addActionEntry_seen.
Qed.

Lemma onInterceptResponse_seen request response (s : State) :
  Request.getId request ∈ seenRequestIds s →
  sameStore (onInterceptResponse request response s).1 s
  ∧ (onInterceptResponse request response s).2 = None.
Proof.
  intros Hseen. unfold onInterceptResponse.
  rewrite processRequestResponse_seen by done.
  destruct (getNextActionIdFromRequest request);
    [|split; [apply sameStore_refl | done]].
  destruct (negb _); (split; [|done]); [apply sameStore_refl | apply sameStore_send].
Qed.

(** *** Traversals *)

(** What [paginateAllRequests] throws under a page callback that cannot
    throw is what the source throws, and an invariant of such a callback
    over the traversed items is one of the traversal. *)
Lemma paginate_failure {A : Type} (onPage : list Item → A → A) (h : History) (a : A) :
  (paginateAllRequests (returning onPage) h a).2 = failure h.
Proof.
  revert a. induction h as [items|items rest IH|e]; intros a; simpl; [done| |done].
  apply IH.
Qed.

Lemma paginate_invariant {A : Type} (P : A → Prop) (Q : Item → Prop)
  (onPage : list Item → A → A) (h : History) (a : A) :
  (∀ items a, Forall Q items → P a → P (onPage items a)) →
  Forall Q (traversed h) → P a →
  P (paginateAllRequests (returning onPage) h a).1.
Proof.
  intros Hpage. revert a.
  induction h as [items|items rest IH|e]; intros a HQ Ha; simpl in *.
  - by apply Hpage.
  - apply Forall_app in HQ as [Hitems Hrest]. apply IH; [done|]. by apply Hpage.
  - done.
Qed.

Lemma forEach_app {A B : Type} (body : A → B → A * option Thrown) (a : A)
  (xs ys : list B) :
  forEach body a (xs ++ ys)
  = match forEach body a xs with
    | (a', None) => forEach body a' ys
    | thrown => thrown
    end.
Proof.
  revert a. induction xs as [|x xs IH]; intros a; simpl; [done|].
  destruct (body a x) as [a' [e|]]; [done|]. apply IH.
Qed.

Lemma processAll_app (xs ys : list Item) (s : State) :
  processAll (xs ++ ys) s
  = match processAll xs s with
    | (s', None) => processAll ys s'
    | thrown => thrown
    end.
Proof. unfold processAll. apply forEach_app. Qed.

Lemma processAll_cons (item : Item) (items : list Item) (s : State) :
  processAll (item :: items) s
  = match processRequestResponse (request item) (response item) s with
    | (s', None) => processAll items s'
    | thrown => thrown
    end.
Proof. done. Qed.

(** *** Note maintenance *)

Lemma ensureActionNotes_frame (actionId : string) (s : State) :
  ∃ notes, (ensureActionNotes actionId s).2 = setNotes notes s
           ∧ ∀ other, other ≠ actionId → notes !! other = actionNotesById s !! other.
Proof.
  unfold ensureActionNotes, jsGet.
  destruct (actionNamesById s !! actionId), (actionNotesById s !! actionId),
    (objectPrototype actionId); simpl;
    repeat match goal with
           | |- context [if Js.includes ?a ?b then _ else _] =>
               destruct (Js.includes a b)
           end;
    simpl;
    first [ by (exists (actionNotesById s); split; [by destruct s | done])
          | (eexists; split; [reflexivity|]; intros other Hne;
             by rewrite lookup_insert_ne) ].
Qed.

Lemma ensureActionNotes_other (actionId other : string) (s : State) :
  other ≠ actionId →
  actionNotesById (ensureActionNotes actionId s).2 !! other
  = actionNotesById s !! other.
Proof.
  intros Hne. destruct (ensureActionNotes_frame actionId s) as (notes & -> & Hother).
  by apply Hother.
Qed.

Lemma ensureActionNotes_names (actionId : string) (s : State) :
  actionNamesById (ensureActionNotes actionId s).2 = actionNamesById s.
Proof. by destruct (ensureActionNotes_frame actionId s) as (notes & -> & _). Qed.

(** How the call ends: it returns the note it leaves stored (or the
    empty text when it leaves none), or it throws, having changed
    nothing, for an identifier that names an inherited member and has no
    note of its own. *)
Lemma ensureActionNotes_completion (actionId : string) (s : State) :
  match (ensureActionNotes actionId s).1 with
  | Returns note =>
      note = default "" (actionNotesById (ensureActionNotes actionId s).2 !! actionId)
  | Throws e =>
      e = ThrownError (typeErrorMessage IncludesOfMember)
      ∧ (ensureActionNotes actionId s).2 = s
      ∧ actionNotesById s !! actionId = None
      ∧ objectPrototype actionId ≠ None
  end.
Proof.
  unfold ensureActionNotes, jsGet.
  destruct (actionNamesById s !! actionId), (actionNotesById s !! actionId) eqn:Hnote,
    (objectPrototype actionId); simpl;
    repeat match goal with
           | |- context [if Js.includes ?a ?b then _ else _] =>
               destruct (Js.includes a b)
           end;
    simpl; rewrite ?lookup_insert_eq, ?Hnote; done.
Qed.

(** For an identifier that names no inherited member the call returns,
    and the note it leaves is the one [maintainedNote] describes. *)
Lemma ensureActionNotes_ordinary (actionId : string) (s : State) :
  objectPrototype actionId = None →
  ∃ note,
    (ensureActionNotes actionId s).1 = Returns note
    ∧ note = default "" (actionNotesById (ensureActionNotes actionId s).2 !! actionId)
    ∧ actionNotesById (ensureActionNotes actionId s).2 !! actionId
      = maintainedNote (actionNamesById s !! actionId) (actionNotesById s !! actionId).
Proof.
  intros Hkey. unfold ensureActionNotes, jsGet, maintainedNote. rewrite Hkey.
  destruct (actionNamesById s !! actionId), (actionNotesById s !! actionId) eqn:Hnote;
    simpl;
    repeat match goal with
           | |- context [if Js.includes ?a ?b then _ else _] =>
               destruct (Js.includes a b)
           end;
    simpl; rewrite ?lookup_insert_eq, ?Hnote; eexists; done.
Qed.

Lemma ensureActionNotes_maintains (actionId : string) (s : State) :
  objectPrototype actionId = None →
  actionNotesById (ensureActionNotes actionId s).2 !! actionId
  = maintainedNote (actionNamesById s !! actionId) (actionNotesById s !! actionId).
Proof.
  intros Hkey. by destruct (ensureActionNotes_ordinary actionId s Hkey) as (? & _ & _ & ?).
Qed.

(** The set of seen request identifiers plays no part in it. *)
Lemma ensureActionNotes_setSeen (actionId : string) (seen : gset string) (s : State) :
  ensureActionNotes actionId (setSeen seen s)
  = ((ensureActionNotes actionId s).1, setSeen seen (ensureActionNotes actionId s).2).
Proof.
  unfold ensureActionNotes, jsGet. simpl.
  destruct (actionNamesById s !! actionId), (actionNotesById s !! actionId),
    (objectPrototype actionId); simpl;
    repeat match goal with
           | |- context [if Js.includes ?a ?b then _ else _] =>
               destruct (Js.includes a b)
           end;
    done.
Qed.

(** *** A request identifier that has not been seen *)

(** What [addActionEntry] does for a request identifier not yet seen,
    whatever the action identifier: the request is recorded as seen, the
    note is maintained, and then either the note maintenance has thrown
    and nothing else happened, or the invocation is appended and then
    either the spread of the usage history throws or the usage record is
    appended and the invocation announced. *)
Lemma addActionEntry_unseen request response actionId (s : State) :
  Request.getId request ∉ seenRequestIds s →
  let r := addActionEntry request response actionId s in
  seenRequestIds r.1 = {[Request.getId request]} ∪ seenRequestIds s
  ∧ actionNotesById r.1 = actionNotesById (ensureActionNotes actionId s).2
  ∧ actionNamesById r.1 = actionNamesById s
  ∧ discoveredActionsById r.1 = discoveredActionsById s
  ∧ ((∃ e, (ensureActionNotes actionId s).1 = Throws e
           ∧ r.2 = Some e
           ∧ actions r.1 = actions s
           ∧ actionUsagesById r.1 = actionUsagesById s
           ∧ sent r.1 = sent s)
     ∨ ∃ entry,
         (ensureActionNotes actionId s).1 = Returns (ActionEntry.actionNotes entry)
         ∧ actions r.1 = actions s ++ [entry]
         ∧ ActionEntry.id entry = length (actions s) + 1
         ∧ ActionEntry.requestId entry = Request.getId request
         ∧ ActionEntry.actionId entry = actionId
         ∧ ActionEntry.securityNotes entry
           = Js.join "; "
               (securityNoteList request response actionId
                  (getTextBody (Request.getBody request)) s)
         ∧ ((∃ m, jsGet (actionUsagesById s) actionId = Inherited m
                  ∧ r.2 = Some (ThrownError (typeErrorMessage SpreadOfMember))
                  ∧ actionUsagesById r.1 = actionUsagesById s
                  ∧ sent r.1 = sent s)
            ∨ ∃ usage,
                r.2 = None
                ∧ actionUsagesById r.1
                  = <[actionId := default [] (actionUsagesById s !! actionId) ++ [usage]]>
                      (actionUsagesById s)
                ∧ sent r.1 = sent s ++ [ActionAdded entry]
                ∧ ActionUsage.requestId usage = Request.getId request
                ∧ ActionUsage.securityNotes usage = ActionEntry.securityNotes entry)).
Proof.
  intros Hfresh. unfold addActionEntry.
  rewrite bool_decide_eq_false_2 by done.
  rewrite ensureActionNotes_setSeen.
  destruct (ensureActionNotes_frame actionId s) as (notes & Hs2 & _).
  rewrite Hs2.
  destruct ((ensureActionNotes actionId s).1) as [note|e]; simpl.
  2:{ refine (conj eq_refl (conj eq_refl (conj eq_refl (conj eq_refl _)))).
      left. by exists e. }
  refine (conj _ (conj _ (conj _ (conj _ _)))).
  1-4: by destruct (jsGet (actionUsagesById s) actionId).
  right. eexists. refine (conj _ (conj _ (conj _ (conj _ (conj _ (conj _ _)))))).
  7:{ destruct (jsGet (actionUsagesById s) actionId) as [usages|m|] eqn:Hget; simpl.
      - right. eexists. refine (conj eq_refl (conj eq_refl (conj eq_refl _))).
        split; reflexivity.
      - left. by exists m.
      - right. eexists. refine (conj eq_refl (conj eq_refl (conj eq_refl _))).
        split; reflexivity. }
  all: by destruct (jsGet (actionUsagesById s) actionId).
Qed.

(** The state [addActionEntry] builds for a request identifier not yet
    seen and an action identifier that names no inherited member, field
    by field; the call returns. *)
Lemma addActionEntry_fresh request response actionId (s : State) :
  Request.getId request ∉ seenRequestIds s →
  objectPrototype actionId = None →
  ∃ entry usage,
    let s' := (addActionEntry request response actionId s).1 in
    actions s' = actions s ++ [entry]
    ∧ actionUsagesById s'
      = <[actionId := default [] (actionUsagesById s !! actionId) ++ [usage]]>
          (actionUsagesById s)
    ∧ seenRequestIds s' = {[Request.getId request]} ∪ seenRequestIds s
    ∧ actionNotesById s' = actionNotesById (ensureActionNotes actionId s).2
    ∧ actionNamesById s' = actionNamesById s
    ∧ discoveredActionsById s' = discoveredActionsById s
    ∧ sent s' = sent s ++ [ActionAdded entry]
    ∧ ActionEntry.id entry = length (actions s) + 1
    ∧ ActionEntry.requestId entry = Request.getId request
    ∧ ActionEntry.actionId entry = actionId
    ∧ ActionEntry.securityNotes entry
      = Js.join "; "
          (securityNoteList request response actionId
             (getTextBody (Request.getBody request)) s)
    ∧ (ensureActionNotes actionId s).1 = Returns (ActionEntry.actionNotes entry)
    ∧ ActionUsage.requestId usage = Request.getId request
    ∧ ActionUsage.securityNotes usage = ActionEntry.securityNotes entry
    ∧ (addActionEntry request response actionId s).2 = None.
Proof.
  intros Hfresh Hkey.
  destruct (addActionEntry_unseen request response actionId s Hfresh)
    as (Hs & Hn & Hnames & Hd & Hrest).
  simpl in *.
  destruct (ensureActionNotes_ordinary actionId s Hkey) as (note & Hret & _).
  destruct Hrest as [(e & Hthrows & _)|(entry & Hnote & Ha & Hid & Hreq & Haid & Hsec & Hrest)];
    [congruence|].
  destruct Hrest as [(m & Hget & _)|(usage & Hnone & Hu & Hsent & Hur & Hus)].
  { rewrite jsGet_ordinary in Hget by done.
    by destruct (actionUsagesById s !! actionId). }
  exists entry, usage. simpl. repeat split; done.
Qed.

Lemma addActionEntry_ordinary request response actionId (s : State) :
  objectPrototype actionId = None →
  (addActionEntry request response actionId s).2 = None.
Proof.
  intros Hkey.
  destruct (decide (Request.getId request ∈ seenRequestIds s)) as [Hseen|Hfresh].
  - by rewrite addActionEntry_seen.
  - by destruct (addActionEntry_fresh request response actionId s Hfresh Hkey)
      as (entry & usage & _ & _ & _ & _ & _ & _ & _ & _ & _ & _ & _ & _ & _ & _ & ?).
Qed.

Lemma filter_none {A : Type} (P : A → Prop) `{∀ x, Decision (P x)} (l : list A) :
  (∀ x, x ∈ l → ¬ P x) → filter P l = [].
Proof.
  induction l as [|x l IH]; intros Hl; [done|].
  rewrite filter_cons_False by (apply Hl; left).
  apply IH. intros y Hy. apply Hl. by right.
Qed.

(** One submission of an unseen pair whose action identifier names no
    inherited member, in a store whose entries all stem from seen
    requests, leaves exactly one invocation and exactly one usage record
    for the request identifier. *)
Lemma addActionEntry_exactly_one request response actionId (s : State) :
  seenCoversStore s →
  Request.getId request ∉ seenRequestIds s →
  objectPrototype actionId = None →
  let s' := (addActionEntry request response actionId s).1 in
  length (invocationsOf (Request.getId request) s') = 1
  ∧ ∀ other,
      length (usagesOf (Request.getId request) other s')
      = if decide (other = actionId) then 1 else 0.
Proof.
  intros [Hact Huse] Hfresh Hkey.
  destruct (addActionEntry_fresh request response actionId s Hfresh Hkey)
    as (entry & usage & Ha & Hu & _ & _ & _ & _ & _ & _ & He & _ & _ & _ & Hur & _).
  simpl in *. unfold invocationsOf, usagesOf. rewrite Ha, Hu. split.
  - rewrite filter_app, filter_none.
    + by rewrite filter_cons_True.
    + intros a Ha' Heq. apply Hfresh. rewrite <- Heq. by apply Hact.
  - intros other. destruct (decide (other = actionId)) as [->|Hne].
    + rewrite lookup_insert_eq. simpl. rewrite filter_app, filter_none.
      * by rewrite filter_cons_True.
      * intros u Hu' Heq. apply Hfresh. rewrite <- Heq.
        destruct (actionUsagesById s !! actionId) as [l|] eqn:Hl; simpl in Hu'.
        -- by eapply Huse.
        -- by apply elem_of_nil in Hu'.
    + rewrite lookup_insert_ne by done. rewrite filter_none; [done|].
      intros u Hu' Heq. apply Hfresh. rewrite <- Heq.
      destruct (actionUsagesById s !! other) as [l|] eqn:Hl; simpl in Hu'.
      * by eapply Huse.
      * by apply elem_of_nil in Hu'.
Qed.

Lemma addActionEntry_marks_seen request response actionId (s : State) :
  Request.getId request
    ∈ seenRequestIds (addActionEntry request response actionId s).1.
Proof.
  destruct (decide (Request.getId request ∈ seenRequestIds s)) as [Hseen|Hfresh].
  - by rewrite addActionEntry_seen.
  - destruct (addActionEntry_unseen request response actionId s Hfresh) as (Hs & _).
    simpl in Hs. rewrite Hs. apply elem_of_union_l. by apply elem_of_singleton.
Qed.

(** Processing a pair again, after it was processed once, does nothing
    and throws nothing, whatever the first processing did. *)
Lemma processRequestResponse_idempotent request response (s : State) :
  processRequestResponse request response
    (processRequestResponse request response s).1
  = ((processRequestResponse request response s).1, None).
Proof.
  destruct response as [resp|]; [|done].
  destruct (getNextActionIdFromRequest request) as [actionId|] eqn:Hid.
  - assert (processRequestResponse request (Some resp) s
            = addActionEntry request resp actionId s) as ->
      by (unfold processRequestResponse; by rewrite Hid).
    apply processRequestResponse_seen, addActionEntry_marks_seen.
  - unfold processRequestResponse. by rewrite Hid.
Qed.

Lemma processRequestResponse_ordinary request response actionId (s : State) :
  getNextActionIdFromRequest request = Some actionId →
  objectPrototype actionId = None →
  (processRequestResponse request response s).2 = None.
Proof.
  intros Hid Hkey. unfold processRequestResponse. rewrite Hid.
  destruct response; [|done]. by apply addActionEntry_ordinary.
Qed.

Lemma initialState_covered : seenCoversStore initialState.
Proof.
  split.
  - intros a Ha. by apply elem_of_nil in Ha.
  - intros actionId usages u Hl. simpl in Hl. by rewrite lookup_empty in Hl.
Qed.

Lemma addActionEntry_covered request response actionId (s : State) :
  seenCoversStore s →
  seenCoversStore (addActionEntry request response actionId s).1.
Proof.
  intros Hs.
  destruct (decide (Request.getId request ∈ seenRequestIds s)) as [Hseen|Hfresh].
  { by rewrite addActionEntry_seen. }
  destruct Hs as [Hact Huse].
  destruct (addActionEntry_unseen request response actionId s Hfresh)
    as (Hs & _ & _ & _ & Hrest).
  simpl in *.
  assert (∀ a, a ∈ actions s →
               ActionEntry.requestId a
                 ∈ seenRequestIds (addActionEntry request response actionId s).1)
    as Hold.
  { intros a Ha. rewrite Hs. apply elem_of_union_r. by apply Hact. }
  assert (∀ other usages u,
             actionUsagesById s !! other = Some usages → u ∈ usages →
             ActionUsage.requestId u
               ∈ seenRequestIds (addActionEntry request response actionId s).1)
    as Hkept.
  { intros other usages u Hl Hu. rewrite Hs. apply elem_of_union_r. by eapply Huse. }
  assert (Request.getId request
            ∈ seenRequestIds (addActionEntry request response actionId s).1)
    as Hnew by apply addActionEntry_marks_seen.
  destruct Hrest as [(e & _ & _ & Ha & Hu & _)
                    |(entry & _ & Ha & _ & He & _ & _ & Hrest)].
  { split; [by rewrite Ha | by rewrite Hu]. }
  assert (∀ a, a ∈ actions (addActionEntry request response actionId s).1 →
               ActionEntry.requestId a
                 ∈ seenRequestIds (addActionEntry request response actionId s).1)
    as Hentries.
  { intros a. rewrite Ha. intros [Hin|Hin%list_elem_of_singleton]%elem_of_app.
    - by apply Hold.
    - subst a. by rewrite He. }
  destruct Hrest as [(m & _ & _ & Hu & _)|(usage & _ & Hu & _ & Hur & _)].
  { split; [done | by rewrite Hu]. }
  split; [done|].
  intros other usages u. rewrite Hu.
  destruct (decide (other = actionId)) as [->|Hne].
  - rewrite lookup_insert_eq. intros [= <-].
    intros [Hin|Hin%list_elem_of_singleton]%elem_of_app.
    + destruct (actionUsagesById s !! actionId) as [l|] eqn:Hl; simpl in Hin.
      * by eapply Hkept.
      * by apply elem_of_nil in Hin.
    + subst u. by rewrite Hur.
  - rewrite lookup_insert_ne by done. apply Hkept.
Qed.

Lemma processRequestResponse_covered request response (s : State) :
  seenCoversStore s →
  seenCoversStore (processRequestResponse request response s).1.
Proof.
  intros Hs. unfold processRequestResponse.
  destruct response; [|done].
  destruct (getNextActionIdFromRequest request); [|done].
  by apply addActionEntry_covered.
Qed.

Lemma clearAll_covered (s : State) : seenCoversStore (clearAll s).
Proof.
  split.
  - intros a Ha. by apply elem_of_nil in Ha.
  - intros actionId usages u Hl. simpl in Hl. by rewrite lookup_empty in Hl.
Qed.

Lemma setActionNote_covered (actionId note : string) (s : State) :
  seenCoversStore s → seenCoversStore (setActionNote actionId note s).
Proof.
  intros [Hact Huse]. split; [|done].
  intros a. simpl. intros (a0 & -> & Ha0)%list_elem_of_fmap.
  specialize (Hact a0 Ha0). by destruct (negb _).
Qed.

(** *** Per-pair processing reads and writes the store only *)

Lemma addActionEntry_sameStore request response actionId (s s' : State) :
  sameStore s s' →
  sameStore (addActionEntry request response actionId s).1
    (addActionEntry request response actionId s').1
  ∧ (addActionEntry request response actionId s).2
    = (addActionEntry request response actionId s').2.
Proof.
  destruct s, s'. unfold sameStore. simpl. intros (-> & -> & -> & -> & -> & ->).
  unfold addActionEntry. simpl.
  case_bool_decide; [by repeat split|]. simpl.
  unfold analyzeSecurity, securityNoteList, reuseNotes, reusedCountOf,
    ensureActionNotes, jsGet. simpl.
  destruct (actionNamesById1 !! actionId), (actionNotesById1 !! actionId),
    (objectPrototype actionId), (actionUsagesById1 !! actionId) eqn:Hu; simpl;
    repeat match goal with
           | |- context [if Js.includes ?a ?b then _ else _] =>
               destruct (Js.includes a b)
           end;
    simpl; rewrite ?Hu; simpl; repeat split; done.
Qed.

Lemma processRequestResponse_sameStore request response (s s' : State) :
  sameStore s s' →
  sameStore (processRequestResponse request response s).1
    (processRequestResponse request response s').1
  ∧ (processRequestResponse request response s).2
    = (processRequestResponse request response s').2.
Proof.
  intros Hs. unfold processRequestResponse.
  destruct response; [|done].
  destruct (getNextActionIdFromRequest request); [|done].
  by apply addActionEntry_sameStore.
Qed.

Lemma processAll_sameStore (items : list Item) (s s' : State) :
  sameStore s s' →
  sameStore (processAll items s).1 (processAll items s').1
  ∧ (processAll items s).2 = (processAll items s').2.
Proof.
  revert s s'. induction items as [|it items IH]; intros s s' Hs; [done|].
  rewrite !processAll_cons.
  destruct (processRequestResponse_sameStore (request it) (response it) s s' Hs)
    as [Hst Hth].
  destruct (processRequestResponse (request it) (response it) s) as [s1 [e|]];
    destruct (processRequestResponse (request it) (response it) s') as [s1' [e'|]];
    simpl in *; try done.
  by apply IH.
Qed.

(** *** Scans and per-pair processing *)

Lemma scanItem_eq (s : State) (scanned found : nat) (item : Item) :
  scanItem (s, scanned, found) item
  = match processRequestResponse (request item) (response item) s with
    | (s1, Some e) => ((s1, scanned + 1, found), Some e)
    | (s1, None) =>
        ((s1, scanned + 1, if carriesAction item then found + 1 else found), None)
    end.
Proof.
  unfold scanItem, carriesAction.
  destruct (processRequestResponse _ _ _) as [s1 [e|]]; [done|].
  by destruct (getNextActionIdFromRequest (request item)).
Qed.

Lemma scanItems_store (items : list Item) (acc : State * nat * nat) (s0 : State) :
  sameStore acc.1.1 s0 →
  sameStore (forEach scanItem acc items).1.1.1 (processAll items s0).1
  ∧ (forEach scanItem acc items).2 = (processAll items s0).2.
Proof.
  revert acc s0.
  induction items as [|it items IH]; intros [[s scanned] found] s0 Hs; [done|].
  rewrite processAll_cons. cbn [forEach]. rewrite scanItem_eq.
  destruct (processRequestResponse_sameStore (request it) (response it) s s0 Hs)
    as [Hst Hth].
  destruct (processRequestResponse (request it) (response it) s) as [s1 [e|]];
    destruct (processRequestResponse (request it) (response it) s0) as [s1' [e'|]];
    simpl in *; try done.
  by apply IH.
Qed.

Lemma scanPage_store (items : list Item) (acc : State * nat * nat) (s0 : State) :
  sameStore acc.1.1 s0 →
  sameStore (scanPage items acc).1.1.1 (processAll items s0).1
  ∧ (scanPage items acc).2 = (processAll items s0).2.
Proof.
  intros [Hst Hth]%(scanItems_store items). unfold scanPage.
  destruct (forEach scanItem acc items) as [[[s scanned] found] [e|]]; simpl in *;
    [done|].
  split; [|done]. eapply sameStore_trans; [apply sameStore_sendStatus | done].
Qed.

(** The traversal of a scan reaches the store that per-pair processing
    of the traversed items reaches, and throws what [scanThrown]
    names. *)
Lemma scan_traversal_store (h : History) (acc : State * nat * nat) (s0 : State) :
  sameStore acc.1.1 s0 →
  sameStore (paginateAllRequests scanPage h acc).1.1.1 (processAll (traversed h) s0).1
  ∧ (paginateAllRequests scanPage h acc).2 = scanThrown h s0.
Proof.
  unfold scanThrown. revert acc s0.
  induction h as [items|items rest IH|e]; intros acc s0 Hs; simpl.
  - destruct (scanPage_store items acc s0 Hs) as [Hst Hth]. split; [done|].
    rewrite Hth. by destruct (processAll items s0).2.
  - rewrite processAll_app.
    destruct (scanPage_store items acc s0 Hs) as [Hst Hth].
    destruct (scanPage items acc) as [acc' [e|]];
      destruct (processAll items s0) as [s1 [e'|]]; simpl in *; try done.
    by apply IH.
  - done.
Qed.

Lemma scan_store (h : History) (s : State) :
  sameStore (scanProxyHistory h s).2 (processAll (traversed h) s).1.
Proof.
  unfold scanProxyHistory.
  destruct (scan_traversal_store h
              (sendStatus "Scanning requests..." s, 0, 0) s
              (sameStore_sendStatus _ s)) as [Hstore _].
  destruct (paginateAllRequests scanPage h _) as [[[st scanned] found] [e|]];
    simpl in *.
  - eapply sameStore_trans; [apply sameStore_sendStatus | done].
  - eapply sameStore_trans; [apply sameStore_send|].
    eapply sameStore_trans; [apply sameStore_sendStatus | done].
Qed.

(** *** Items for which processing has nothing to do *)

Lemma processRequestResponse_inert (s : State) (item : Item) :
  inert s item →
  processRequestResponse (request item) (response item) s = (s, None).
Proof.
  intros [Hresp|[Hid|Hseen]]; unfold processRequestResponse.
  - by rewrite Hresp.
  - rewrite Hid. by destruct (response item).
  - destruct (response item); [|done].
    destruct (getNextActionIdFromRequest (request item)); [|done].
    by apply addActionEntry_seen.
Qed.

Lemma processAll_of_inert (items : list Item) (s : State) :
  Forall (inert s) items → processAll items s = (s, None).
Proof.
  induction 1 as [|it items Hit _ IH]; [done|].
  rewrite processAll_cons. by rewrite processRequestResponse_inert.
Qed.

Lemma scanProxyHistory_seen (h : History) (s : State) :
  Forall (fun it => Request.getId (request it) ∈ seenRequestIds s) (traversed h) →
  sameStore (scanProxyHistory h s).2 s.
Proof.
  intros Hseen. eapply sameStore_trans; [apply scan_store|].
  rewrite processAll_of_inert; [apply sameStore_refl|].
  eapply Forall_impl; [done|]. intros it Hit. by right; right.
Qed.

Lemma analyzeRequests_seen (get : string → Lookup) (s0 : State)
  (requestIds : list string) (acc : State * nat * nat) :
  Forall (fun id => ∀ it, get id = Found it →
                           Request.getId (request it) ∈ seenRequestIds s0) requestIds →
  sameStore acc.1.1 s0 →
  sameStore (analyzeRequests get requestIds acc).1.1.1 s0.
Proof.
  intros Hids. revert acc.
  induction Hids as [|id ids Hid _ IH]; intros [[s analyzed] found] Hs; [done|].
  cbn [analyzeRequests].
  destruct (get id) as [it| |e] eqn:Hget; [| by apply IH | done].
  destruct (response it) as [resp|]; [|by apply IH].
  destruct (getNextActionIdFromRequest (request it)); [|by apply IH].
  rewrite addActionEntry_seen; [by apply IH|].
  simpl in Hs. destruct Hs as (_&_&_&_&_&->). by apply Hid.
Qed.

Lemma analyzeRequestsById_seen (get : string → Lookup) (requestIds : list string)
  (s : State) :
  Forall (fun id => ∀ it, get id = Found it →
                           Request.getId (request it) ∈ seenRequestIds s) requestIds →
  sameStore (analyzeRequestsById get requestIds s).2 s.
Proof.
  intros Hids. unfold analyzeRequestsById.
  pose proof (analyzeRequests_seen get s requestIds (s, 0, 0) Hids
                (sameStore_refl s)) as Hp.
  destruct (analyzeRequests get requestIds _) as [[[s' analyzed] found] [e|]];
    simpl in *; [done|].
  eapply sameStore_trans; [apply sameStore_send | done].
Qed.

(** One submission or two: a pair that carries an action identifier
    which names no inherited member, and whose request identifier is
    new, leaves after being processed twice exactly one invocation and
    exactly one usage record for that request identifier. *)
Lemma processed_twice_exactly_one request response actionId (s : State) :
  seenCoversStore s →
  Request.getId request ∉ seenRequestIds s →
  getNextActionIdFromRequest request = Some actionId →
  objectPrototype actionId = None →
  let once := processRequestResponse request (Some response) s in
  let twice := processRequestResponse request (Some response) once.1 in
  twice = (once.1, None)
  ∧ once.2 = None
  ∧ length (invocationsOf (Request.getId request) twice.1) = 1
  ∧ ∀ other,
      length (usagesOf (Request.getId request) other twice.1)
      = if decide (other = actionId) then 1 else 0.
Proof.
  intros Hcovered Hfresh Hid Hkey once twice.
  assert (twice = (once.1, None)) as -> by apply processRequestResponse_idempotent.
  split; [done|]. split; [by eapply processRequestResponse_ordinary|].
  subst once. unfold processRequestResponse. rewrite Hid.
  by apply addActionEntry_exactly_one.
Qed.

(** A pair whose request identifier is already in the seen set changes
    nothing when it is submitted again: [addActionEntry] and
    [processRequestResponse] return the state as it was (so nothing is
    announced and nothing thrown), and the live observer, a batch scan
    that only meets seen requests, and [analyzeRequestsById] over seen
    requests leave the invocation list, every usage-history list and the
    rest of the store as they were. *)
Lemma duplicate_submission_changes_nothing
  (s : State) (req : Request.t) (resp : Response.t) :
  Request.getId req ∈ seenRequestIds s →
  (∀ actionId, addActionEntry req resp actionId s = (s, None))
  ∧ processRequestResponse req (Some resp) s = (s, None)
  ∧ sameStore (onInterceptResponse req resp s).1 s
  ∧ (∀ h : History,
        Forall (fun item => Request.getId (request item) ∈ seenRequestIds s)
          (traversed h) →
        sameStore (scanProxyHistory h s).2 s)
  ∧ (∀ (get : string → Lookup) (requestIds : list string),
        Forall (fun id => ∀ item, get id = Found item →
                    Request.getId (request item) ∈ seenRequestIds s)
          requestIds →
        sameStore (analyzeRequestsById get requestIds s).2 s).
Proof.
  intros Hseen. refine (conj _ (conj _ (conj _ (conj _ _)))).
  - intros actionId. by apply addActionEntry_seen.
  - by apply processRequestResponse_seen.
  - by apply onInterceptResponse_seen.
  - intros h. apply scanProxyHistory_seen.
  - intros get requestIds. apply analyzeRequestsById_seen.
Qed.

(** C1.  The claim fails for a pair whose [Next-Action] value names a
    member that plain objects inherit, such as [constructor]: when the
    request identifier is new and the identifier has no note of its own,
    per-pair processing records the request as seen and then throws the
    type error of [existing.includes], before any invocation or usage
    record is built.  Processing the pair again does nothing, so the
    store holds no invocation and no usage record for the request, not
    one of each. *)
Theorem inherited_identifier_yields_no_invocation
  (s : State) (req : Request.t) (resp : Response.t) (actionId : string) :
  seenCoversStore s →
  Request.getId req ∉ seenRequestIds s →
  getNextActionIdFromRequest req = Some actionId →
  objectPrototype actionId ≠ None →
  actionNotesById s !! actionId = None →
  let once := processRequestResponse req (Some resp) s in
  let twice := processRequestResponse req (Some resp) once.1 in
  once.2 = Some (ThrownError (typeErrorMessage IncludesOfMember))
  ∧ twice = (once.1, None)
  ∧ Request.getId req ∈ seenRequestIds twice.1
  ∧ invocationsOf (Request.getId req) twice.1 = []
  ∧ (∀ other, usagesOf (Request.getId req) other twice.1 = [])
  ∧ actions twice.1 = actions s
  ∧ actionUsagesById twice.1 = actionUsagesById s
  ∧ sent twice.1 = sent s.
Proof.
  intros [Hact Huse] Hfresh Hid Hkey Hnote once twice.
  assert (twice = (once.1, None)) as -> by apply processRequestResponse_idempotent.
  assert (once = addActionEntry req resp actionId s) as ->.
  { subst once. unfold processRequestResponse. by rewrite Hid. }
  destruct (addActionEntry_unseen req resp actionId s Hfresh)
    as (Hs & _ & _ & _ & Hrest).
  simpl in *.
  assert ((ensureActionNotes actionId s).1
          = Throws (ThrownError (typeErrorMessage IncludesOfMember))) as Hthrows.
  { unfold ensureActionNotes, jsGet. rewrite Hnote.
    destruct (objectPrototype actionId); [|done].
    by destruct (actionNamesById s !! actionId). }
  destruct Hrest as [(e & He & Hth & Ha & Hu & Hsent)|(entry & Hret & _)];
    [|congruence].
  rewrite Hthrows in He. injection He as <-.
  refine (conj Hth (conj eq_refl (conj _ (conj _ (conj _ (conj Ha (conj Hu Hsent))))))).
  - rewrite Hs. apply elem_of_union_l. by apply elem_of_singleton.
  - unfold invocationsOf. rewrite Ha. apply filter_none.
    intros a Ha' Heq. apply Hfresh. rewrite <- Heq. by apply Hact.
  - intros other. unfold usagesOf. rewrite Hu. apply filter_none.
    intros u Hu' Heq. apply Hfresh. rewrite <- Heq.
    destruct (actionUsagesById s !! other) as [l|] eqn:Hl; simpl in Hu'.
    + by eapply Huse.
    + by apply elem_of_nil in Hu'.
Qed.

(** *** Requests without an action identifier *)

Lemma blank_header_no_action (request : Request.t) :
  blankActionHeader request → getNextActionIdFromRequest request = None.
Proof.
  unfold blankActionHeader, getNextActionIdFromRequest.
  destruct (Request.getHeader request "Next-Action") as [[|value values]|];
    simpl; [done| |done].
  intros Hwhite. by rewrite trim_white.
Qed.

(** C10.  A request whose [Next-Action] header is missing, empty or
    white space only carries no action identifier; per-pair processing
    and the live observer return the state as it was for it: no
    invocation, no usage record, nothing sent, nothing thrown.  The same
    holds for any pair without a response. *)
Theorem blank_action_header_is_noop (s : State) (request : Request.t) :
  blankActionHeader request →
  getNextActionIdFromRequest request = None
  ∧ (∀ response, processRequestResponse request response s = (s, None))
  ∧ (∀ response, onInterceptResponse request response s = (s, None))
  ∧ (∀ other, processRequestResponse other None s = (s, None)).
Proof.
  intros Hblank%blank_header_no_action. repeat split.
  - done.
  - intros response. unfold processRequestResponse.
    destruct response; [|done]. by rewrite Hblank.
  - intros response. unfold onInterceptResponse, processRequestResponse.
    by rewrite Hblank.
Qed.

(** *** Full reset *)

(** C2, as the code has it.  [clearAll] empties the invocation list,
    the usage history and the set of seen request identifiers, and
    announces it; the declared actions, the function names and the
    notes stay as they were. *)
Theorem clearAll_resets_invocations_only (s : State) :
  let s' := clearAll s in
  actions s' = []
  ∧ actionUsagesById s' = ∅
  ∧ seenRequestIds s' = ∅
  ∧ discoveredActionsById s' = discoveredActionsById s
  ∧ actionNamesById s' = actionNamesById s
  ∧ actionNotesById s' = actionNotesById s
  ∧ sent s' = sent s ++ [StatusEvent "Cleared"; DataChanged].
Proof. simpl. repeat split. by rewrite <- app_assoc. Qed.

(** *** Security notes *)

Lemma In_singleton_if (b : bool) (x y : string) :
  In x (if b then [y] else []) → x = y.
Proof. destruct b; simpl; [intros [?|[]]; congruence | intros []]. Qed.

(** Only the reuse rule writes a note that starts with [A]. *)
Lemma authNotes_head request x :
  In x (authNotes request) → Js.startsWith x "A" = false.
Proof. unfold authNotes. by intros ->%In_singleton_if. Qed.

Lemma dangerNotes_head parameters x :
  In x (dangerNotes parameters) → Js.startsWith x "A" = false.
Proof.
  unfold dangerNotes. intros (d & _ & Hx)%in_flat_map.
  by apply In_singleton_if in Hx as ->.
Qed.

Lemma directIdOfEntry_head entry x :
  In x (directIdOfEntry entry) → Js.startsWith x "A" = false.
Proof.
  unfold directIdOfEntry. destruct entry as [key value].
  destruct (negb _); [done|].
  destruct value; try done; by intros ->%In_singleton_if.
Qed.

Lemma directIdNotes_head parameters x :
  In x (directIdNotes parameters) → Js.startsWith x "A" = false.
Proof.
  unfold directIdNotes.
  destruct (safeJsonParse parameters) as [[| | | |elements|]|]; try done.
  destruct (1 <? length elements)%nat; [|done].
  intros (element & _ & Hx)%in_flat_map.
  destruct element; try done. simpl in Hx.
  apply in_flat_map in Hx as (entry & _ & Hx).
  by eapply directIdOfEntry_head.
Qed.

Lemma responseNotes_head response x :
  In x (responseNotes response) → Js.startsWith x "A" = false.
Proof.
  unfold responseNotes.
  intros [Hx|[Hx|Hx]%in_app_or]%in_app_or;
    by apply In_singleton_if in Hx as ->.
Qed.

Lemma originNotes_head request x :
  In x (originNotes request) → Js.startsWith x "A" = false.
Proof.
  unfold originNotes.
  destruct (Js.trim <$> _) as [origin|]; [|done].
  destruct (Js.trim <$> _) as [host|]; [|done].
  destruct (_ && _); [|done].
  by intros ->%In_singleton_if.
Qed.

Lemma bindNotes_head parameters x :
  In x (bindNotes parameters) → Js.startsWith x "A" = false.
Proof. unfold bindNotes. by intros ->%In_singleton_if. Qed.

Lemma methodNotes_head request x :
  In x (methodNotes request) → Js.startsWith x "A" = false.
Proof. unfold methodNotes. by intros ->%In_singleton_if. Qed.

Lemma reuse_note_In request response actionId parameters (s : State) (x : string) :
  Js.startsWith x "A" = true →
  In x (securityNoteList request response actionId parameters s)
  ↔ In x (reuseNotes actionId s).
Proof.
  intros HA. unfold securityNoteList. rewrite !in_app_iff. split.
  - intros [Hx|[Hx|[Hx|[Hx|[Hx|[Hx|[Hx|Hx]]]]]]]; [| | | | |done| |].
    + apply authNotes_head in Hx. congruence.
    + apply dangerNotes_head in Hx. congruence.
    + apply directIdNotes_head in Hx. congruence.
    + apply responseNotes_head in Hx. congruence.
    + apply originNotes_head in Hx. congruence.
    + apply bindNotes_head in Hx. congruence.
    + apply methodNotes_head in Hx. congruence.
  - tauto.
Qed.

(** C4, as the code has it.  When an unseen pair is processed for an
    action identifier that names no inherited member and has [n] prior
    usage records, the security notes of the new invocation are the
    notes of the analysis joined with ["; "]; among the notes is
    [Action reused <n>x] if and only if [n > 10], and then the stored
    text contains it.  The record of this invocation is appended after
    the analysis: the identifier has [n + 1] records afterwards. *)
Theorem reuse_note_iff_more_than_ten
  (s : State) (request : Request.t) (response : Response.t)
  (actionId : string) (n : nat) :
  Request.getId request ∉ seenRequestIds s →
  objectPrototype actionId = None →
  length (default [] (actionUsagesById s !! actionId)) = n →
  let s' := (addActionEntry request response actionId s).1 in
  let notes :=
    securityNoteList request response actionId
      (getTextBody (Request.getBody request)) s in
  let reused := "Action reused " +:+ pretty n +:+ "x" in
  ∃ entry,
    actions s' = actions s ++ [entry]
    ∧ ActionEntry.securityNotes entry = Js.join "; " notes
    ∧ (reused ∈ notes ↔ 10 < n)
    ∧ (10 < n → Js.includes (ActionEntry.securityNotes entry) reused = true)
    ∧ length (default [] (actionUsagesById s' !! actionId)) = n + 1.
Proof.
  intros Hfresh Hkey Hn. simpl.
  destruct (addActionEntry_fresh request response actionId s Hfresh Hkey)
    as (entry & usage & Ha & Hu & _ & _ & _ & _ & _ & _ & _ & _ & Hnotes & _).
  simpl in *. exists entry.
  assert ("Action reused " +:+ pretty n +:+ "x"
            ∈ securityNoteList request response actionId
                (getTextBody (Request.getBody request)) s ↔ 10 < n) as Hiff.
  { rewrite list_elem_of_In, reuse_note_In by done.
    unfold reuseNotes. rewrite reusedCountOf_ordinary, Hn by done.
    destruct (Nat.ltb_spec 10 n) as [Hlt|Hge]; simpl.
    - split; [done | by left].
    - split; [done | lia]. }
  refine (conj Ha (conj Hnotes (conj Hiff (conj _ _)))).
  - intros Hlt. rewrite Hnotes. apply includes_join. by apply Hiff.
  - rewrite Hu, lookup_insert_eq. simpl. rewrite length_app, Hn. done.
Qed.

(** *** The live observer *)

Lemma no_auth_header_noted request response actionId parameters (s : State) :
  authNotes request = ["No auth headers"] →
  Js.includes (analyzeSecurity request response actionId parameters s)
    "No auth headers" = true.
Proof.
  intros Hauth. unfold analyzeSecurity. apply includes_join.
  unfold securityNoteList. rewrite Hauth. by left.
Qed.

(** What per-pair processing throws ends the observer: it creates no
    finding. *)
Lemma onInterceptResponse_throws request response (s : State) (e : Thrown) :
  (processRequestResponse request (Some response) s).2 = Some e →
  onInterceptResponse request response s
  = ((processRequestResponse request (Some response) s).1, Some e).
Proof.
  intros He. unfold onInterceptResponse.
  destruct (processRequestResponse request (Some response) s) as [s1 [e'|]];
    simpl in *; congruence.
Qed.

(** C3, as the code has it.  For an intercepted pair that carries an
    action identifier and whose per-pair processing returns, the
    observer analyses the pair again on the store that processing left.
    It creates a finding exactly when the text of that analysis contains
    [No auth headers] (which is the case whenever the request has
    neither an [Authorization] nor a [Cookie] header); otherwise it does
    nothing more.  The finding's deduplication key is host, path and the
    whole action identifier joined by [-]; only the title carries the
    identifier cut to eight characters.  Processing returns whenever the
    identifier names no inherited member. *)
Theorem finding_iff_no_auth_note
  (s : State) (request : Request.t) (response : Response.t) (actionId : string) :
  getNextActionIdFromRequest request = Some actionId →
  (processRequestResponse request (Some response) s).2 = None →
  let s1 := (processRequestResponse request (Some response) s).1 in
  let notes :=
    analyzeSecurity request response actionId
      (getTextBody (Request.getBody request)) s1 in
  let s' := (onInterceptResponse request response s).1 in
  (onInterceptResponse request response s).2 = None
  ∧ (Js.includes notes "No auth headers" = true →
     sent s' =
     sent s1 ++
       [FindingCreated
          {| title := "Next.js Server Action without auth: " +:+ Js.sliceTo 8 actionId;
             description := notes;
             reporter := "Next.js Actions Analyzer";
             dedupeKey := Request.getHost request +:+ "-"
                          +:+ Request.getPath request +:+ "-" +:+ actionId;
             findingRequest := request |}]
     ∧ sameStore s' s1)
  ∧ (Js.includes notes "No auth headers" = false → s' = s1)
  ∧ (authNotes request = ["No auth headers"] →
     Js.includes notes "No auth headers" = true)
  ∧ (objectPrototype actionId = None →
     ∀ s0, (processRequestResponse request (Some response) s0).2 = None).
Proof.
  intros Hid Hreturns s1 notes s'.
  assert (onInterceptResponse request response s
          = (if negb (Js.includes notes "No auth headers") then s1
             else send (FindingCreated
                          {| title := "Next.js Server Action without auth: "
                                      +:+ Js.sliceTo 8 actionId;
                             description := notes;
                             reporter := "Next.js Actions Analyzer";
                             dedupeKey := Request.getHost request +:+ "-"
                                          +:+ Request.getPath request +:+ "-"
                                          +:+ actionId;
                             findingRequest := request |}) s1, None)) as Hs'.
  { subst notes s1. unfold onInterceptResponse.
    destruct (processRequestResponse request (Some response) s) as [st [e|]];
      simpl in *; [done|].
    rewrite Hid. by destruct (negb _). }
  subst s'. rewrite Hs'. clearbody s1. simpl.
  refine (conj eq_refl (conj _ (conj _ (conj _ _)))).
  - intros Hinc. rewrite Hinc. split; [done | apply sameStore_send].
  - intros Hinc. by rewrite Hinc.
  - apply no_auth_header_noted.
  - intros Hkey s0.
    exact (processRequestResponse_ordinary request (Some response) actionId s0 Hid Hkey).
Qed.

(** *** Notes *)

Lemma maintainedNote_includes (name : string) (existing : option string) :
  ∃ note, maintainedNote (Some name) existing = Some note
          ∧ Js.includes note ("Function: " +:+ name) = true.
Proof.
  unfold maintainedNote. destruct existing as [text|].
  - destruct (Js.includes text _) eqn:Hinc; eexists; split; try done.
    apply includes_self_app.
  - eexists; split; [done|]. apply includes_startsWith, startsWith_refl.
Qed.

Lemma maintainedNote_idempotent (name existing : option string) :
  maintainedNote name (maintainedNote name existing) = maintainedNote name existing.
Proof.
  destruct name as [name|]; [|done].
  destruct (maintainedNote_includes name existing) as (note & -> & Hinc).
  unfold maintainedNote. by rewrite Hinc.
Qed.

Lemma ensureNotes_fold (keys : list string) (s : State) :
  let s' := foldl (fun s actionId => (ensureActionNotes actionId s).2) s keys in
  actionNamesById s' = actionNamesById s
  ∧ ∀ id, objectPrototype id = None →
          actionNotesById s' !! id
          = if decide (id ∈ keys)
            then maintainedNote (actionNamesById s !! id) (actionNotesById s !! id)
            else actionNotesById s !! id.
Proof.
  revert s. induction keys as [|k keys IH]; intros s; simpl.
  { split; [done|]. intros id _.
    destruct (decide (id ∈ [])) as [Hin|]; [by apply elem_of_nil in Hin | done]. }
  destruct (IH (ensureActionNotes k s).2) as [Hnames Hnotes]. simpl in *.
  rewrite Hnames, ensureActionNotes_names. split; [done|].
  intros id Hkey. rewrite Hnotes, ensureActionNotes_names by done.
  destruct (decide (id = k)) as [->|Hne].
  - rewrite ensureActionNotes_maintains by done.
    destruct (decide (k ∈ k :: keys)) as [_|Hnin]; [|by destruct Hnin; left].
    destruct (decide (k ∈ keys)); [apply maintainedNote_idempotent | done].
  - rewrite ensureActionNotes_other by done.
    destruct (decide (id ∈ keys)) as [Hin|Hnin];
      destruct (decide (id ∈ k :: keys)) as [Hin'|Hnin']; try done.
    + destruct Hnin'. by right.
    + by apply elem_of_cons in Hin' as [?|?].
Qed.

Lemma ensureAllNotes_maintains (s : State) :
  actionNamesById (ensureAllNotes s) = actionNamesById s
  ∧ ∀ id, objectPrototype id = None →
          actionNotesById (ensureAllNotes s) !! id
          = maintainedNote (actionNamesById s !! id) (actionNotesById s !! id).
Proof.
  unfold ensureAllNotes.
  destruct (ensureNotes_fold (map fst (map_to_list (actionNamesById s))) s)
    as [Hnames Hnotes].
  simpl in *. split; [done|]. intros id Hkey. rewrite Hnotes by done.
  destruct (decide _) as [Hin|Hnin]; [done|].
  destruct (actionNamesById s !! id) as [name|] eqn:Hname; [|done].
  exfalso. apply Hnin. apply list_elem_of_fmap. exists (id, name).
  split; [done|]. by apply elem_of_map_to_list.
Qed.

(** *** The incremental name-extraction pass *)

Lemma onlyNamesAdded_refl (s : State) : onlyNamesAdded s s.
Proof. by repeat split. Qed.

Lemma onlyNamesAdded_trans (s1 s2 s3 : State) :
  onlyNamesAdded s1 s2 → onlyNamesAdded s2 s3 → onlyNamesAdded s1 s3.
Proof.
  intros (?&?&?&?&?&?) (?&?&?&?&?&?).
  repeat split; try congruence. by etrans.
Qed.

Lemma onlyNamesAdded_send (e : Event) (s : State) : onlyNamesAdded s (send e s).
Proof. by repeat split. Qed.

Lemma extractMatch_adds (acc : State * nat) (m : Match) :
  onlyNamesAdded acc.1 (extractMatch acc m).1.
Proof.
  destruct acc as [s n]. unfold extractMatch.
  destruct (capturedPair m) as [[actionId functionName]|];
    [|apply onlyNamesAdded_refl].
  destruct (actionNamesById s !! actionId) eqn:Hname; [apply onlyNamesAdded_refl|].
  repeat split. simpl. by apply insert_subseteq.
Qed.

Lemma extractMatches_add (ms : list Match) (acc : State * nat) :
  onlyNamesAdded acc.1 (foldl extractMatch acc ms).1.
Proof.
  revert acc. induction ms as [|m ms IH]; intros acc; [apply onlyNamesAdded_refl|].
  simpl. eapply onlyNamesAdded_trans; [apply extractMatch_adds | apply IH].
Qed.

Lemma extractItem_adds (acc : State * nat * nat) (item : Item) :
  onlyNamesAdded acc.1.1 (extractItem acc item).1.1.
Proof.
  destruct acc as [[s chunks] names]. unfold extractItem.
  destruct (chunkBody item) as [body|]; [|apply onlyNamesAdded_refl].
  pose proof (extractMatches_add (matchesOf extractPatterns body) (s, names)) as Hm.
  by destruct (foldl extractMatch _ _).
Qed.

Lemma extractPage_adds (items : list Item) (acc : State * nat * nat) :
  onlyNamesAdded acc.1.1 (extractPage items acc).1.1.
Proof.
  unfold extractPage.
  assert (onlyNamesAdded acc.1.1 (foldl extractItem acc items).1.1) as Hfold.
  { revert acc. induction items as [|it items IH]; intros acc;
      [apply onlyNamesAdded_refl|].
    simpl. eapply onlyNamesAdded_trans; [apply extractItem_adds | apply IH]. }
  destruct (foldl extractItem acc items) as [[s chunks] names]. simpl in *.
  eapply onlyNamesAdded_trans; [done | apply onlyNamesAdded_send].
Qed.

Lemma extract_traversal_adds (h : History) (s : State) :
  onlyNamesAdded s
    (paginateAllRequests (returning extractPage) h
       (sendStatus "Scanning chunk files..." s, 0, 0)).1.1.1.
Proof.
  apply (paginate_invariant
           (fun acc : State * nat * nat => onlyNamesAdded s acc.1.1)
           (fun _ => True)).
  - intros items acc _ Hacc.
    eapply onlyNamesAdded_trans; [done | apply extractPage_adds].
  - by apply Forall_forall.
  - apply onlyNamesAdded_send.
Qed.

Lemma ensureAllNotes_frame (s : State) :
  actions (ensureAllNotes s) = actions s
  ∧ discoveredActionsById (ensureAllNotes s) = discoveredActionsById s
  ∧ actionUsagesById (ensureAllNotes s) = actionUsagesById s
  ∧ seenRequestIds (ensureAllNotes s) = seenRequestIds s.
Proof.
  unfold ensureAllNotes.
  generalize (map fst (map_to_list (actionNamesById s))). intros keys.
  revert s. induction keys as [|k keys IH]; intros s; simpl; [done|].
  destruct (IH (ensureActionNotes k s).2) as (-> & -> & -> & ->).
  by destruct (ensureActionNotes_frame k s) as (notes & -> & _).
Qed.

(** C6.  Whatever the traffic holds and whether or not the pass
    completes, [extractActionNames] leaves the declared-action mapping
    as it was and keeps every stored function name: a name captured for
    an identifier that already has one is dropped.  Invocation
    identities, usage history and the seen set are untouched as well. *)
Theorem extractActionNames_only_adds_names (h : History) (s : State) :
  let s' := (extractActionNames h s).2 in
  discoveredActionsById s' = discoveredActionsById s
  ∧ (∀ actionId name,
        actionNamesById s !! actionId = Some name →
        actionNamesById s' !! actionId = Some name)
  ∧ actionUsagesById s' = actionUsagesById s
  ∧ seenRequestIds s' = seenRequestIds s
  ∧ map ActionEntry.requestId (actions s') = map ActionEntry.requestId (actions s).
Proof.
  unfold extractActionNames.
  pose proof (extract_traversal_adds h s) as Ht.
  destruct (paginateAllRequests (returning extractPage) h _) as [[[st chunks] names] [e|]];
    simpl in *; destruct Ht as (Ha & Hn & Hd & Hu & Hs & Hsub).
  - repeat split; try done.
    + intros actionId name Hname. by eapply lookup_weaken.
    + by rewrite Ha.
  - destruct (ensureAllNotes_maintains st) as [Hnames _].
    destruct (ensureAllNotes_frame st) as (Ha' & Hd' & Hu' & Hs').
    repeat split.
    + by rewrite Hd'.
    + intros actionId name Hname. rewrite Hnames. by eapply lookup_weaken.
    + by rewrite Hu'.
    + by rewrite Hs'.
    + rewrite Ha', <- Ha, map_map. apply map_ext. intros a.
      by destruct (_ !! _).
Qed.

(** C8, as the code has it.  Creating an invocation for an identifier
    leaves the notes of all other identifiers as they were.  For an
    identifier that names no inherited member, creating an invocation
    for it, and a name-extraction pass that completes, leave the note
    [maintainedNote] describes.  When the function name is known that
    note contains the text [Function: <name>]: it is that text alone
    when there was no note, the earlier note unchanged when the text
    already occurred anywhere in it, and otherwise the text, a line
    break and the earlier note verbatim. *)
Theorem note_prefix_maintained (s : State) :
  (∀ request response actionId,
      Request.getId request ∉ seenRequestIds s →
      let s' := (addActionEntry request response actionId s).1 in
      (∀ other, other ≠ actionId →
                actionNotesById s' !! other = actionNotesById s !! other)
      ∧ (objectPrototype actionId = None →
         actionNotesById s' !! actionId
         = maintainedNote (actionNamesById s !! actionId)
             (actionNotesById s !! actionId)))
  ∧ (∀ h, failure h = None →
      let s' := (extractActionNames h s).2 in
      ∀ actionId,
        objectPrototype actionId = None →
        actionNotesById s' !! actionId
        = maintainedNote (actionNamesById s' !! actionId)
            (actionNotesById s !! actionId))
  ∧ (∀ name existing,
      ∃ note,
        maintainedNote (Some name) existing = Some note
        ∧ Js.includes note ("Function: " +:+ name) = true
        ∧ match existing with
          | None => note = "Function: " +:+ name
          | Some text =>
              if Js.includes text ("Function: " +:+ name) then note = text
              else note = ("Function: " +:+ name) +:+ newline +:+ text
          end).
Proof.
  refine (conj _ (conj _ _)).
  - intros request response actionId Hfresh.
    destruct (addActionEntry_unseen request response actionId s Hfresh)
      as (_ & Hnotes & _).
    simpl in *. rewrite Hnotes. split.
    + intros other Hne. by apply ensureActionNotes_other.
    + apply ensureActionNotes_maintains.
  - intros h Hok. unfold extractActionNames.
    pose proof (extract_traversal_adds h s) as Ht.
    pose proof (paginate_failure extractPage h
                  (sendStatus "Scanning chunk files..." s, 0, 0)) as Hf.
    destruct (paginateAllRequests (returning extractPage) h _)
      as [[[st chunks] names] [e|]];
      simpl in *; [congruence|].
    destruct Ht as (_ & Hn & _). intros actionId Hkey.
    destruct (ensureAllNotes_maintains st) as [Hnames Hnotes].
    by rewrite Hnames, Hnotes, Hn.
  - intros name existing.
    destruct (maintainedNote_includes name existing) as (note & Hnote & Hinc).
    exists note. refine (conj Hnote (conj Hinc _)).
    unfold maintainedNote in Hnote. destruct existing as [text|].
    + destruct (Js.includes text _); congruence.
    + congruence.
Qed.

(** *** The full discovery pass *)

Lemma firstNameIn_app (actionId : string) (ps qs : list (string * string)) :
  firstNameIn actionId (ps ++ qs)
  = match firstNameIn actionId ps with
    | Some n => Some n
    | None => firstNameIn actionId qs
    end.
Proof.
  induction ps as [|[id f] ps IH]; simpl; [done|].
  by destruct (String.eqb id actionId).
Qed.

(** What one match does to the declared-action mapping. *)
Lemma findMatch_discovered request chunkFile (s : State) (m : Match) :
  discoveredActionsById (findMatch request chunkFile s m)
  = match capturedPair m with
    | None => discoveredActionsById s
    | Some (actionId, functionName) =>
        match discoveredActionsById s !! actionId with
        | Some _ => discoveredActionsById s
        | None =>
            <[actionId :=
                {| DiscoveredActionInternal.actionId := actionId;
                   DiscoveredActionInternal.functionName := functionName;
                   DiscoveredActionInternal.chunkFile := chunkFile;
                   DiscoveredActionInternal.firstSeen := clock (clockReads s);
                   DiscoveredActionInternal.chunkRequestId := Request.getId request |}]>
              (discoveredActionsById s)
        end
    end.
Proof.
  unfold findMatch.
  destruct (capturedPair m) as [[actionId functionName]|]; [|done].
  destruct (discoveredActionsById s !! actionId); [done|]. simpl.
  destruct (actionNamesById s !! actionId); [done|].
  match goal with
  | |- context [ensureActionNotes ?a ?s0] =>
      by destruct (ensureActionNotes_frame a s0) as (notes & -> & _)
  end.
Qed.

Lemma findMatch_declared request chunkFile (s : State) (m : Match) (id : string) :
  declaredName (findMatch request chunkFile s m) id
  = match declaredName s id with
    | Some n => Some n
    | None => firstNameIn id (omap capturedPair [m])
    end.
Proof.
  unfold declaredName. rewrite findMatch_discovered. simpl.
  destruct (capturedPair m) as [[actionId functionName]|]; simpl.
  2:{ by destruct (_ <$> _). }
  destruct (String.eqb_spec actionId id) as [->|Hne].
  - destruct (discoveredActionsById s !! id) as [d0|] eqn:Hd.
    + by rewrite Hd.
    + by rewrite lookup_insert_eq.
  - destruct (discoveredActionsById s !! actionId) as [d0|] eqn:Hd.
    + by destruct (_ <$> _).
    + rewrite lookup_insert_ne by done. by destruct (_ <$> _).
Qed.

Lemma findMatch_keyed request chunkFile (s : State) (m : Match) :
  keyedById s → keyedById (findMatch request chunkFile s m).
Proof.
  intros Hs key d. rewrite findMatch_discovered.
  destruct (capturedPair m) as [[actionId functionName]|]; [|apply Hs].
  destruct (discoveredActionsById s !! actionId) eqn:Hd; [apply Hs|].
  destruct (decide (actionId = key)) as [->|Hne].
  - rewrite lookup_insert_eq. by intros [= <-].
  - rewrite lookup_insert_ne by done. apply Hs.
Qed.

Lemma findMatches_declared request chunkFile (ms : list Match) (s : State) (id : string) :
  declaredName (foldl (findMatch request chunkFile) s ms) id
  = match declaredName s id with
    | Some n => Some n
    | None => firstNameIn id (omap capturedPair ms)
    end.
Proof.
  revert s. induction ms as [|m ms IH]; intros s.
  { simpl. by destruct (declaredName s id). }
  cbn [foldl]. rewrite IH, findMatch_declared.
  change (m :: ms) with ([m] ++ ms). rewrite omap_app, firstNameIn_app.
  destruct (declaredName s id); [done|].
  by destruct (firstNameIn id (omap capturedPair [m])).
Qed.

Lemma findMatches_keyed request chunkFile (ms : list Match) (s : State) :
  keyedById s → keyedById (foldl (findMatch request chunkFile) s ms).
Proof.
  revert s. induction ms as [|m ms IH]; intros s Hs; [done|].
  cbn [foldl]. by apply IH, findMatch_keyed.
Qed.

Lemma findItem_declared (acc : State * nat) (item : Item) (id : string) :
  declaredName (findItem acc item).1 id
  = match declaredName acc.1 id with
    | Some n => Some n
    | None => firstNameIn id (pairsOfItem item)
    end.
Proof.
  destruct acc as [s chunks]. unfold findItem, pairsOfItem.
  destruct (chunkBody item) as [body|]; simpl.
  - apply findMatches_declared.
  - by destruct (declaredName s id).
Qed.

Lemma findItem_keyed (acc : State * nat) (item : Item) :
  keyedById acc.1 → keyedById (findItem acc item).1.
Proof.
  destruct acc as [s chunks]. unfold findItem.
  destruct (chunkBody item) as [body|]; simpl; [|done].
  apply findMatches_keyed.
Qed.

Lemma findItems_declared (items : list Item) (acc : State * nat) (id : string) :
  declaredName (foldl findItem acc items).1 id
  = match declaredName acc.1 id with
    | Some n => Some n
    | None => firstNameIn id (flat_map pairsOfItem items)
    end.
Proof.
  revert acc. induction items as [|it items IH]; intros acc.
  { simpl. by destruct (declaredName acc.1 id). }
  cbn [foldl flat_map]. rewrite IH, findItem_declared, firstNameIn_app.
  destruct (declaredName acc.1 id); [done|].
  by destruct (firstNameIn id (pairsOfItem it)).
Qed.

Lemma findItems_keyed (items : list Item) (acc : State * nat) :
  keyedById acc.1 → keyedById (foldl findItem acc items).1.
Proof.
  revert acc. induction items as [|it items IH]; intros acc Hacc; [done|].
  cbn [foldl]. by apply IH, findItem_keyed.
Qed.

Lemma findPage_declared (items : list Item) (acc : State * nat) (id : string) :
  declaredName (findPage items acc).1 id
  = match declaredName acc.1 id with
    | Some n => Some n
    | None => firstNameIn id (flat_map pairsOfItem items)
    end.
Proof.
  unfold findPage. rewrite <- findItems_declared.
  by destruct (foldl findItem acc items).
Qed.

Lemma findPage_keyed (items : list Item) (acc : State * nat) :
  keyedById acc.1 → keyedById (findPage items acc).1.
Proof.
  intros Hacc%(findItems_keyed items). unfold findPage.
  by destruct (foldl findItem acc items).
Qed.

Lemma find_traversal_declared (h : History) (acc : State * nat) (id : string) :
  declaredName (paginateAllRequests (returning findPage) h acc).1.1 id
  = match declaredName acc.1 id with
    | Some n => Some n
    | None => firstNameIn id (pairsOfPass h)
    end.
Proof.
  unfold pairsOfPass. revert acc.
  induction h as [items|items rest IH|e]; intros acc; simpl.
  - apply findPage_declared.
  - rewrite IH, findPage_declared, flat_map_app, firstNameIn_app.
    destruct (declaredName acc.1 id); [done|].
    by destruct (firstNameIn id (flat_map pairsOfItem items)).
  - by destruct (declaredName acc.1 id).
Qed.

(** C5.  After [findAllActions], whatever the declared-action mapping
    held before and whether or not the pass completes, the function
    name stored for an identifier is the name of the first pair the
    pass itself extracted for that identifier, and identifiers the pass
    did not extract are not declared; every declared action is stored
    under its own identifier. *)
Theorem findAllActions_rebuilds_declared (h : History) (s : State) :
  let s' := (findAllActions h s).2 in
  (∀ actionId, declaredName s' actionId = firstNameIn actionId (pairsOfPass h))
  ∧ keyedById s'.
Proof.
  unfold findAllActions.
  set (s0 := sendStatus "Scanning chunks for server actions..." (setDiscovered ∅ s)).
  assert (keyedById (s0, 0).1) as Hkeyed.
  { intros key d Hd. simpl in Hd. by rewrite lookup_empty in Hd. }
  assert (∀ id, declaredName (paginateAllRequests (returning findPage) h (s0, 0)).1.1 id
                = firstNameIn id (pairsOfPass h)) as Hnames.
  { intros id. rewrite find_traversal_declared. unfold declaredName. simpl.
    by rewrite lookup_empty. }
  apply (paginate_invariant (fun acc : State * nat => keyedById acc.1)
           (fun _ => True) findPage h (s0, 0)) in Hkeyed;
    [|intros items a _; apply findPage_keyed | by apply Forall_forall].
  destruct (paginateAllRequests (returning findPage) h (s0, 0)) as [[st chunks] [e|]];
    simpl in *; (split; [|done]); intros actionId; by rewrite <- Hnames.
Qed.

(** *** The classification view *)

Lemma elem_of_setOfList (x : string) (l : list string) : x ∈ setOfList l ↔ x ∈ l.
Proof.
  unfold setOfList.
  assert (∀ acc, x ∈ foldl (fun acc y => if bool_decide (y ∈ acc) then acc
                                         else acc ++ [y]) acc l
                 ↔ x ∈ acc ∨ x ∈ l) as Hfold.
  { induction l as [|y l IH]; intros acc; simpl.
    - split; [by left | by intros [?|?%elem_of_nil]].
    - rewrite IH, elem_of_cons. case_bool_decide as Hy.
      + split; [tauto|]. intros [?|[->|?]]; tauto.
      + rewrite elem_of_app, list_elem_of_singleton. tauto. }
  rewrite Hfold. split; [by intros [?%elem_of_nil|?] | by right].
Qed.

Lemma executedActionIds_spec (s : State) (actionId : string) :
  actionId ∈ executedActionIds s ↔ hasInvocation s actionId.
Proof.
  unfold executedActionIds, hasInvocation.
  rewrite elem_of_setOfList, list_elem_of_fmap. split.
  - intros (a & -> & Ha). by exists a.
  - intros (a & Ha & <-). by exists a.
Qed.

Lemma executedFunctionNames_spec (s : State) (functionName : string) :
  functionName ∈ executedFunctionNames s ↔ nameExecuted s functionName.
Proof.
  unfold executedFunctionNames, nameExecuted.
  rewrite elem_of_setOfList, list_elem_of_omap. split.
  - intros (id & Hid%executedActionIds_spec & Hname).
    exists id. split; [done|].
    destruct (actionNamesById s !! id) as [v|]; [|done].
    destruct (String.eqb_spec v ""); [done|]. by injection Hname as ->.
  - intros (id & Hid%executedActionIds_spec & Hname & Hne).
    exists id. split; [done|]. rewrite Hname.
    by destruct (String.eqb_spec functionName "").
Qed.

Lemma statusOf_spec (s : State) (d : DiscoveredActionInternal.t) :
  (hasInvocation s (DiscoveredActionInternal.actionId d) →
     statusOf s d = "Executed")
  ∧ (¬ hasInvocation s (DiscoveredActionInternal.actionId d) →
     nameExecuted s (DiscoveredActionInternal.functionName d) →
     statusOf s d = "Unused (Function executed with different ID)")
  ∧ (¬ hasInvocation s (DiscoveredActionInternal.actionId d) →
     ¬ nameExecuted s (DiscoveredActionInternal.functionName d) →
     statusOf s d = "Never Executed").
Proof.
  unfold statusOf. rewrite <- executedActionIds_spec, <- executedFunctionNames_spec.
  repeat split; intros; repeat case_bool_decide; done.
Qed.

(** C7.  In the view [getDiscovery] builds, every declared action has
    its row in [all], with status [Executed] when its identifier has an
    invocation; otherwise [Unused (Function executed with different ID)]
    when its function name is the stored name of an identifier that has
    one; otherwise [Never Executed], and then the row is in [unused] as
    well.  Every identifier that has an invocation and is not declared
    has a row in [unknown] with status [Executed (No source found)]. *)
Theorem getDiscovery_classifies (s : State) :
  let view := getDiscovery s in
  (∀ key d,
      discoveredActionsById s !! key = Some d →
      let id := DiscoveredActionInternal.actionId d in
      let name := DiscoveredActionInternal.functionName d in
      ∃ row,
        row ∈ dr_all view
        ∧ DiscoveredAction.actionId row = id
        ∧ DiscoveredAction.functionName row = name
        ∧ (hasInvocation s id → DiscoveredAction.status row = "Executed")
        ∧ (¬ hasInvocation s id → nameExecuted s name →
           DiscoveredAction.status row = "Unused (Function executed with different ID)"
           ∧ row ∉ dr_unused view)
        ∧ (¬ hasInvocation s id → ¬ nameExecuted s name →
           DiscoveredAction.status row = "Never Executed"
           ∧ row ∈ dr_unused view))
  ∧ (∀ actionId,
        hasInvocation s actionId →
        discoveredActionsById s !! actionId = None →
        ∃ row,
          row ∈ dr_unknown view
          ∧ DiscoveredAction.actionId row = actionId
          ∧ DiscoveredAction.status row = "Executed (No source found)").
Proof.
  simpl. split.
  - intros key d Hd. exists (rowOf s d).
    assert (rowOf s d ∈ allRows s) as Hrow.
    { unfold allRows. apply list_elem_of_fmap. exists (key, d).
      split; [done|]. by apply elem_of_map_to_list. }
    destruct (statusOf_spec s d) as (Hexec & Hother & Hnever).
    refine (conj Hrow (conj eq_refl (conj eq_refl (conj Hexec (conj _ _))))).
    + intros Hno Hname. split; [by apply Hother|].
      unfold unusedRows. rewrite list_elem_of_filter. simpl.
      rewrite (Hother Hno Hname). by intros [? _].
    + intros Hno Hname. split; [by apply Hnever|].
      unfold unusedRows. apply list_elem_of_filter. split; [|done].
      simpl. by apply Hnever.
  - intros actionId Hexec Hnone. exists (unknownRowOf s actionId).
    split; [|done]. unfold unknownRows.
    apply list_elem_of_fmap. exists actionId. split; [done|].
    apply list_elem_of_filter. split; [done|].
    by apply executedActionIds_spec.
Qed.

(** The name-collision case: two declared actions share a function
    name, the name table holds that name for the one that was invoked,
    and the other was never invoked. *)
Lemma renamed_action_is_unused (s : State) (x y : string)
  (dx dy : DiscoveredActionInternal.t) (name : string) :
  discoveredActionsById s !! x = Some dx →
  discoveredActionsById s !! y = Some dy →
  DiscoveredActionInternal.functionName dy = name →
  actionNamesById s !! DiscoveredActionInternal.actionId dx = Some name →
  name ≠ "" →
  hasInvocation s (DiscoveredActionInternal.actionId dx) →
  ¬ hasInvocation s (DiscoveredActionInternal.actionId dy) →
  DiscoveredAction.status (rowOf s dy) = "Unused (Function executed with different ID)"
  ∧ rowOf s dy ∈ dr_all (getDiscovery s).
Proof.
  intros Hx Hy Hname Htable Hne Hexec Hno. split.
  - apply statusOf_spec; [done|]. rewrite Hname.
    by exists (DiscoveredActionInternal.actionId dx).
  - simpl. unfold allRows. apply list_elem_of_fmap. exists (y, dy).
    split; [done|]. by apply elem_of_map_to_list.
Qed.

(** *** A scan that fails *)

Lemma lastStatus_sendStatus (t : string) (s : State) :
  lastStatus (sendStatus t s) = Some t.
Proof.
  unfold lastStatus, sendStatus, send. simpl.
  rewrite omap_app. apply last_snoc.
Qed.

(** C9.  Whatever is thrown first while a scan computes its pages,
    by per-pair processing of a served item or by a page fetch, ends
    the scan: [scanProxyHistory] returns the error result with the
    thrown error's message (or [Unknown error]), the last status sent
    is [Scan failed], and the store is the one per-pair processing had
    reached when it was thrown: nothing is rolled back. *)
Theorem failed_scan_keeps_mutations (h : History) (s : State) (e : Thrown) :
  scanThrown h s = Some e →
  (scanProxyHistory h s).1 = Error (errorMessage e)
  ∧ lastStatus (scanProxyHistory h s).2 = Some "Scan failed"
  ∧ sameStore (scanProxyHistory h s).2 (processAll (traversed h) s).1.
Proof.
  intros Hfail. unfold scanProxyHistory.
  destruct (scan_traversal_store h
              (sendStatus "Scanning requests..." s, 0, 0) s
              (sameStore_sendStatus _ s)) as [Hstore Hthrown].
  rewrite Hfail in Hthrown.
  destruct (paginateAllRequests scanPage h _) as [[[st scanned] found] [e'|]];
    simpl in *; [|congruence].
  assert (e' = e) as -> by congruence.
  refine (conj eq_refl (conj (lastStatus_sendStatus _ _) _)).
  eapply sameStore_trans; [apply sameStore_sendStatus | done].
Qed.

(** The two ways a scan is ended early: a fetch throws after every
    served item was processed, or the processing of an item throws. *)
Lemma scanThrown_fetch (h : History) (s : State) (e : Thrown) :
  failure h = Some e → (processAll (traversed h) s).2 = None →
  scanThrown h s = Some e.
Proof. intros Hf Hp. unfold scanThrown. by rewrite Hp. Qed.

Lemma scanThrown_processing (h : History) (s : State) (e : Thrown) :
  (processAll (traversed h) s).2 = Some e → scanThrown h s = Some e.
Proof. intros Hp. unfold scanThrown. by rewrite Hp. Qed.

Lemma processAll_ordinary (items : list Item) (s : State) :
  Forall ordinary items → (processAll items s).2 = None.
Proof.
  intros Hitems. revert s.
  induction Hitems as [|it items Hit _ IH]; intros s; [done|].
  rewrite processAll_cons.
  assert ((processRequestResponse (request it) (response it) s).2 = None) as Hnone.
  { unfold ordinary in Hit.
    destruct (getNextActionIdFromRequest (request it)) as [actionId|] eqn:Hid.
    - by eapply processRequestResponse_ordinary.
    - unfold processRequestResponse. rewrite Hid. by destruct (response it). }
  destruct (processRequestResponse (request it) (response it) s) as [s1 [e|]];
    simpl in *; [done|]. apply IH.
Qed.

End Properties.

(** ** Scans, counters and invariants of the store *)

Section Further.
Context `{Runtime}.

(** *** What a scan reports and leaves *)

(** What per-pair processing can do to the store, whether it returns or
    throws. *)
Lemma addActionEntry_step request response actionId (s : State) :
  let r := addActionEntry request response actionId s in
  actionNamesById r.1 = actionNamesById s
  ∧ discoveredActionsById r.1 = discoveredActionsById s
  ∧ seenRequestIds s ⊆ seenRequestIds r.1
  ∧ (actions r.1 = actions s
     ∨ ∃ entry, actions r.1 = actions s ++ [entry]
                ∧ ActionEntry.id entry = length (actions s) + 1
                ∧ ActionEntry.requestId entry = Request.getId request
                ∧ Request.getId request ∉ seenRequestIds s)
  ∧ (actionUsagesById r.1 = actionUsagesById s
     ∨ ∃ usage,
         actionUsagesById r.1
         = <[actionId := default [] (actionUsagesById s !! actionId) ++ [usage]]>
             (actionUsagesById s)).
Proof.
  destruct (decide (Request.getId request ∈ seenRequestIds s)) as [Hseen|Hfresh].
  { rewrite addActionEntry_seen by done. simpl.
    refine (conj eq_refl (conj eq_refl (conj _ (conj _ _)))); [done|by left..]. }
  destruct (addActionEntry_unseen request response actionId s Hfresh)
    as (Hs & _ & Hn & Hd & Hrest).
  simpl in *. refine (conj Hn (conj Hd (conj _ _))).
  { rewrite Hs. apply union_subseteq_r. }
  destruct Hrest as [(e & _ & _ & Ha & Hu & _)
                    |(entry & _ & Ha & Hid & Hreq & _ & _ & Hrest)].
  { split; by left. }
  split; [right; by exists entry|].
  destruct Hrest as [(m & _ & _ & Hu & _)|(usage & _ & Hu & _)];
    [by left | right; by exists usage].
Qed.

Lemma processRequestResponse_step request response (s : State) :
  let r := processRequestResponse request response s in
  actionNamesById r.1 = actionNamesById s
  ∧ discoveredActionsById r.1 = discoveredActionsById s
  ∧ seenRequestIds s ⊆ seenRequestIds r.1
  ∧ (actions r.1 = actions s
     ∨ carriesAction {| request := request; response := response |} = true
       ∧ ∃ entry, actions r.1 = actions s ++ [entry]
                  ∧ ActionEntry.id entry = length (actions s) + 1
                  ∧ ActionEntry.requestId entry = Request.getId request
                  ∧ Request.getId request ∉ seenRequestIds s)
  ∧ (actionUsagesById r.1 = actionUsagesById s
     ∨ ∃ actionId usage,
         actionUsagesById r.1
         = <[actionId := default [] (actionUsagesById s !! actionId) ++ [usage]]>
             (actionUsagesById s)).
Proof.
  unfold processRequestResponse, carriesAction. simpl.
  destruct response as [resp|];
    [|refine (conj eq_refl (conj eq_refl (conj _ (conj _ _)))); [done|by left..]].
  destruct (getNextActionIdFromRequest request) as [actionId|];
    [|refine (conj eq_refl (conj eq_refl (conj _ (conj _ _)))); [done|by left..]].
  destruct (addActionEntry_step request resp actionId s)
    as (Hn & Hd & Hs & Ha & Hu).
  simpl in *. refine (conj Hn (conj Hd (conj Hs (conj _ _)))).
  - destruct Ha as [Ha|Ha]; [by left | by right].
  - destruct Hu as [Hu|(usage & Hu)]; [by left | right; by exists actionId, usage].
Qed.

Lemma scanItems_counts (items : list Item) (acc : State * nat * nat) :
  (forEach scanItem acc items).2 = None →
  (forEach scanItem acc items).1.1.2 = acc.1.2 + length items
  ∧ (forEach scanItem acc items).1.2 = acc.2 + length (List.filter carriesAction items).
Proof.
  revert acc. induction items as [|it items IH]; intros [[s scanned] found].
  { simpl. lia. }
  cbn [forEach List.filter]. rewrite scanItem_eq.
  destruct (processRequestResponse (request it) (response it) s) as [s1 [e|]];
    [done|].
  intros Hnone. destruct (IH _ Hnone) as [-> ->].
  destruct (carriesAction it); simpl; lia.
Qed.

Lemma scanPage_counts (items : list Item) (acc : State * nat * nat) :
  (scanPage items acc).2 = None →
  (scanPage items acc).1.1.2 = acc.1.2 + length items
  ∧ (scanPage items acc).1.2 = acc.2 + length (List.filter carriesAction items).
Proof.
  unfold scanPage. pose proof (scanItems_counts items acc) as Hc.
  destruct (forEach scanItem acc items) as [[[s scanned] found] [e|]]; [done|].
  intros _. by apply Hc.
Qed.

Lemma scan_traversal_counts (h : History) (acc : State * nat * nat) :
  (paginateAllRequests scanPage h acc).2 = None →
  (paginateAllRequests scanPage h acc).1.1.2 = acc.1.2 + length (traversed h)
  ∧ (paginateAllRequests scanPage h acc).1.2
    = acc.2 + length (List.filter carriesAction (traversed h)).
Proof.
  revert acc. induction h as [items|items rest IH|e]; intros acc; simpl.
  - apply scanPage_counts.
  - pose proof (scanPage_counts items acc) as Hc.
    destruct (scanPage items acc) as [acc' [e|]]; [done|].
    intros Hnone. destruct (IH acc' Hnone) as [-> ->].
    destruct (Hc eq_refl) as [Hc1 Hc2]. simpl in Hc1, Hc2. rewrite Hc1, Hc2.
    rewrite List.filter_app, !length_app. lia.
  - done.
Qed.

Lemma processRequestResponse_grows request response (s : State) :
  length (actions (processRequestResponse request response s).1)
  ≤ length (actions s)
    + (if carriesAction {| request := request; response := response |} then 1 else 0).
Proof.
  destruct (processRequestResponse_step request response s)
    as (_ & _ & _ & [Ha|(Hc & entry & Ha & _)] & _); simpl in *.
  - rewrite Ha. lia.
  - rewrite Ha, Hc, length_app. simpl. lia.
Qed.

Lemma processAll_grows (items : list Item) (s : State) :
  length (actions (processAll items s).1)
  ≤ length (actions s) + length (List.filter carriesAction items).
Proof.
  revert s. induction items as [|it items IH]; intros s.
  { simpl. lia. }
  rewrite processAll_cons. cbn [List.filter].
  pose proof (processRequestResponse_grows (request it) (response it) s) as Hg.
  specialize (IH (processRequestResponse (request it) (response it) s).1).
  destruct it as [req resp]. simpl in *.
  destruct (processRequestResponse req resp s) as [s1 [e|]]; simpl in *;
    destruct (carriesAction _); simpl; lia.
Qed.

(** X1.  A scan during which nothing is thrown reports the number of
    traffic records it traversed and the number of those whose request
    has an action identifier (counted from the header alone, whatever
    became of the pair); its last status says so; the store is the one
    obtained by processing the traversed items in order; and the
    invocation list has grown by at most the number reported as found.
    Nothing is thrown when no fetch fails and no action identifier
    names an inherited member. *)
Theorem completed_scan_report (h : History) (s : State) :
  scanThrown h s = None →
  let scanned := length (traversed h) in
  let found := length (List.filter carriesAction (traversed h)) in
  let s' := (scanProxyHistory h s).2 in
  (scanProxyHistory h s).1 = Ok (scanned, found)
  ∧ lastStatus s'
    = Some ("Scanned " +:+ pretty scanned +:+ " requests (" +:+ pretty found
            +:+ " actions)")
  ∧ sameStore s' (processAll (traversed h) s).1
  ∧ length (actions s') ≤ length (actions s) + found
  ∧ (∀ h0 s0, failure h0 = None → Forall ordinary (traversed h0) →
              scanThrown h0 s0 = None).
Proof.
  intros Hok. simpl.
  assert (length (actions (scanProxyHistory h s).2)
          ≤ length (actions s) + length (List.filter carriesAction (traversed h)))
    as Hgrow.
  { destruct (scan_store h s) as (-> & _). apply processAll_grows. }
  assert (∀ h0 s0, failure h0 = None → Forall ordinary (traversed h0) →
                   scanThrown h0 s0 = None) as Hsuff.
  { intros h0 s0 Hf Hord. unfold scanThrown.
    by rewrite processAll_ordinary. }
  refine ((fun Hres => conj (proj1 Hres) (conj (proj2 Hres)
                         (conj (scan_store h s) (conj Hgrow Hsuff)))) _).
  unfold scanProxyHistory.
  destruct (scan_traversal_store h
              (sendStatus "Scanning requests..." s, 0, 0) s
              (sameStore_sendStatus _ s)) as [_ Hf].
  rewrite Hok in Hf.
  destruct (scan_traversal_counts h
              (sendStatus "Scanning requests..." s, 0, 0) Hf) as [Hsc Hfo].
  destruct (paginateAllRequests scanPage h _) as [[[st scanned] found] [e|]];
    simpl in *; [congruence|]. subst scanned found. split; [done|].
  unfold lastStatus. simpl. rewrite !omap_app. simpl.
  rewrite app_nil_r. apply last_snoc.
Qed.

(** *** Scanning again *)

Lemma processRequestResponse_seen_mono request response (s : State) :
  seenRequestIds s ⊆ seenRequestIds (processRequestResponse request response s).1.
Proof. by destruct (processRequestResponse_step request response s) as (_ & _ & ? & _). Qed.

Lemma processAll_seen_mono (items : list Item) (s : State) :
  seenRequestIds s ⊆ seenRequestIds (processAll items s).1.
Proof.
  revert s. induction items as [|it items IH]; intros s; [done|].
  rewrite processAll_cons.
  pose proof (processRequestResponse_seen_mono (request it) (response it) s) as Hm.
  specialize (IH (processRequestResponse (request it) (response it) s).1).
  destruct (processRequestResponse (request it) (response it) s) as [s1 [e|]];
    simpl in *; [done|]. by etrans.
Qed.

Lemma inert_mono (s s' : State) (item : Item) :
  seenRequestIds s ⊆ seenRequestIds s' → inert s item → inert s' item.
Proof. intros Hsub [?|[?|?]]; [by left | by right; left | right; right; auto]. Qed.

Lemma inert_after_processing (s : State) (item : Item) :
  inert (processRequestResponse (request item) (response item) s).1 item.
Proof.
  unfold inert, processRequestResponse.
  destruct (response item) as [resp|]; [|by left].
  destruct (getNextActionIdFromRequest (request item)) as [actionId|];
    [|by right; left].
  right; right. apply addActionEntry_marks_seen.
Qed.

(** After a processing of the items during which nothing was thrown,
    none of them is left to process. *)
Lemma processAll_inert (items : list Item) (s : State) :
  (processAll items s).2 = None →
  Forall (inert (processAll items s).1) items.
Proof.
  revert s. induction items as [|it items IH]; intros s; [constructor|].
  rewrite processAll_cons.
  pose proof (inert_after_processing s it) as Hit.
  destruct (processRequestResponse (request it) (response it) s) as [s1 [e|]];
    simpl in *; [done|].
  intros Hnone. constructor; [|by apply IH].
  eapply inert_mono; [apply processAll_seen_mono | done].
Qed.

(** X2.  Scanning the same traffic a second time, after a scan during
    which per-pair processing threw nothing, adds nothing: the store
    after the second scan is the store after the first, whether the
    scans complete or end at the same failing fetch. *)
Theorem rescan_changes_nothing (h : History) (s : State) :
  (processAll (traversed h) s).2 = None →
  let once := (scanProxyHistory h s).2 in
  sameStore (scanProxyHistory h once).2 once.
Proof.
  intros Hnone. simpl. set (once := (scanProxyHistory h s).2).
  pose proof (scan_store h s) as Hfirst. fold once in Hfirst.
  eapply sameStore_trans; [apply scan_store|].
  eapply sameStore_trans; [apply processAll_sameStore, Hfirst|].
  rewrite processAll_of_inert; [by apply sameStore_sym|].
  by apply processAll_inert.
Qed.

(** *** Invariants of the invocation list *)

Lemma processRequestResponse_sequenced request response (s : State) :
  sequenced s → sequenced (processRequestResponse request response s).1.
Proof.
  intros Hs.
  destruct (processRequestResponse_step request response s)
    as (_ & _ & _ & [Ha|(_ & entry & Ha & Hid & _)] & _); simpl in *;
    unfold sequenced in *.
  - by rewrite Ha.
  - rewrite Ha, map_app, length_app, Hs. simpl. rewrite Hid.
    rewrite Nat.add_1_r, seq_S. by f_equal.
Qed.

Lemma processAll_sequenced (items : list Item) (s : State) :
  sequenced s → sequenced (processAll items s).1.
Proof.
  revert s. induction items as [|it items IH]; intros s Hs; [done|].
  rewrite processAll_cons.
  pose proof (processRequestResponse_sequenced (request it) (response it) s Hs) as Hp.
  destruct (processRequestResponse (request it) (response it) s) as [s1 [e|]];
    simpl in *; [done|]. by apply IH.
Qed.

Lemma sequenced_sameStore (s s' : State) :
  sameStore s s' → sequenced s' → sequenced s.
Proof. intros (Ha & _). unfold sequenced. by rewrite Ha. Qed.

Lemma map_id_withNotes (f : ActionEntry.t → option string) (l : list ActionEntry.t) :
  map ActionEntry.id
    (map (fun a => match f a with
                   | None => a
                   | Some notes => ActionEntry.withNotes a notes
                   end) l)
  = map ActionEntry.id l.
Proof. rewrite map_map. apply map_ext. intros a. by destruct (f a). Qed.

(** What the observer leaves is the store per-pair processing leaves. *)
Lemma onInterceptResponse_store request response (s : State) :
  sameStore (onInterceptResponse request response s).1
    (processRequestResponse request (Some response) s).1.
Proof.
  unfold onInterceptResponse.
  destruct (processRequestResponse request (Some response) s) as [s1 [e|]];
    simpl; [apply sameStore_refl|].
  destruct (getNextActionIdFromRequest request); [|apply sameStore_refl].
  destruct (negb _); [apply sameStore_refl | apply sameStore_send].
Qed.

(** X3.  The sequence numbers of the invocation list are 1, 2, 3, ... in
    list order, and every operation keeps them so, whether it returns
    or throws: per-pair processing, the live observer, a scan, an
    analyst's note, and the reset (after which numbering starts again at
    1). *)
Theorem sequence_numbers_kept (s : State) :
  sequenced s →
  (∀ request response, sequenced (processRequestResponse request response s).1)
  ∧ (∀ request response, sequenced (onInterceptResponse request response s).1)
  ∧ (∀ h, sequenced (scanProxyHistory h s).2)
  ∧ (∀ actionId note, sequenced (setActionNote actionId note s))
  ∧ sequenced (clearAll s)
  ∧ sequenced initialState.
Proof.
  intros Hs. refine (conj _ (conj _ (conj _ (conj _ (conj _ _))))); try done.
  - intros request response. by apply processRequestResponse_sequenced.
  - intros request response.
    eapply sequenced_sameStore; [apply onInterceptResponse_store|].
    by apply processRequestResponse_sequenced.
  - intros h. eapply sequenced_sameStore; [apply scan_store|].
    by apply processAll_sequenced.
  - intros actionId note. unfold sequenced, setActionNote in *. simpl.
    rewrite length_map, <- Hs, map_map. apply map_ext. intros a.
    by destruct (negb _).
Qed.

(** *** What a discovery pass leaves alone *)

Lemma namesLearned_refl (s : State) : namesLearned s s.
Proof.
  repeat split; try done. intros id.
  by destruct (actionNamesById s !! id).
Qed.

Lemma namesLearned_send (e : Event) (s0 s : State) :
  namesLearned s0 s → namesLearned s0 (send e s).
Proof. by intros (?&?&?&?&?). Qed.

Lemma matchesOf_not_member (patterns : list NamePattern) (body : string)
  (m : Match) (actionId : string) :
  m ∈ matchesOf patterns body → group1 m = Some actionId →
  objectPrototype actionId = None.
Proof.
  unfold matchesOf. rewrite list_elem_of_In, in_flat_map.
  intros (pattern & _ & Hin%list_elem_of_In) Hid.
  exact (captured_not_member pattern body m actionId Hin Hid).
Qed.

(** In a discovery pass the note maintenance is called for captured
    identifiers only, and returns. *)
Lemma captured_maintenance_returns (patterns : list NamePattern) (body : string)
  (m : Match) (actionId : string) (s : State) :
  m ∈ matchesOf patterns body → group1 m = Some actionId →
  ∃ note, (ensureActionNotes actionId s).1 = Returns note.
Proof.
  intros Hin Hid.
  destruct (ensureActionNotes_ordinary actionId s
              (matchesOf_not_member patterns body m actionId Hin Hid))
    as (note & Hnote & _).
  by exists note.
Qed.

Lemma capturedPair_group1 (m : Match) (actionId functionName : string) :
  capturedPair m = Some (actionId, functionName) → group1 m = Some actionId.
Proof.
  unfold capturedPair. destruct (group1 m) as [id|]; [|done].
  destruct (group2 m) as [name|]; [|done].
  destruct (String.eqb id ""); [done|]. destruct (String.eqb name ""); [done|].
  destruct (_ || _); [done|]. by intros [= -> _].
Qed.

Lemma findMatch_learns request chunkFile (s0 s : State) (m : Match) :
  (∀ actionId, group1 m = Some actionId → objectPrototype actionId = None) →
  namesLearned s0 s → namesLearned s0 (findMatch request chunkFile s m).
Proof.
  intros Hhex (Ha & Hu & Hs & Hsub & Hnotes). unfold findMatch.
  destruct (capturedPair m) as [[actionId functionName]|] eqn:Hpair; [|done].
  apply capturedPair_group1, Hhex in Hpair.
  destruct (discoveredActionsById s !! actionId); [done|]. simpl.
  destruct (actionNamesById s !! actionId) as [known|] eqn:Hknown; [done|].
  match goal with
  | |- context [ensureActionNotes ?a ?st] =>
      pose proof (ensureActionNotes_maintains a st Hpair) as Hm;
      pose proof (fun other => ensureActionNotes_other a other st) as Ho;
      destruct (ensureActionNotes_frame a st) as (notes & Heq & _)
  end.
  rewrite Heq in *. simpl in *. rewrite lookup_insert_eq in Hm.
  assert (actionNamesById s0 !! actionId = None) as Hnew.
  { destruct (actionNamesById s0 !! actionId) as [n|] eqn:Hn; [|done].
    eapply lookup_weaken in Hn; [|done]. congruence. }
  repeat split; try done.
  - simpl. etrans; [done|]. by apply insert_subseteq.
  - intros id. simpl. destruct (decide (id = actionId)) as [->|Hne].
    + rewrite Hm, Hnew, lookup_insert_eq.
      specialize (Hnotes actionId). rewrite Hnew, Hknown in Hnotes.
      simpl in Hnotes. by rewrite Hnotes.
    + rewrite Ho by done. rewrite lookup_insert_ne by done. apply Hnotes.
Qed.

Lemma findPage_learns (s0 : State) (items : list Item) (acc : State * nat) :
  namesLearned s0 acc.1 → namesLearned s0 (findPage items acc).1.
Proof.
  intros Hacc. unfold findPage.
  assert (namesLearned s0 (foldl findItem acc items).1) as Hfold.
  { revert acc Hacc. induction items as [|it items IH]; intros acc Hacc;
      [exact Hacc|].
    cbn [foldl]. apply IH. destruct acc as [s chunks]. unfold findItem.
    destruct (chunkBody it) as [body|]; [|exact Hacc].
    pose proof (matchesOf_not_member findPatterns body) as Hhex.
    revert Hhex. generalize (matchesOf findPatterns body). intros ms Hhex.
    simpl in *. revert s Hacc.
    induction ms as [|m ms IHm]; intros s Hacc; [exact Hacc|].
    cbn [foldl]. apply IHm.
    - intros m' actionId Hin. apply Hhex. by right.
    - apply findMatch_learns; [|done]. intros actionId. apply Hhex. by left. }
  destruct (foldl findItem acc items) as [s chunks]. simpl in *.
  by apply namesLearned_send.
Qed.

(** X4.  A discovery pass, completed or not, leaves the invocation list,
    the usage history and the seen set exactly as they were: in
    particular the notes shown in the invocation list are not refreshed.
    It keeps every stored function name, and changes the note of an
    identifier only when the pass gives that identifier its first name,
    to the note [maintainedNote] describes. *)
Theorem findAllActions_frame (h : History) (s : State) :
  let s' := (findAllActions h s).2 in
  actions s' = actions s
  ∧ actionUsagesById s' = actionUsagesById s
  ∧ seenRequestIds s' = seenRequestIds s
  ∧ (∀ actionId name,
        actionNamesById s !! actionId = Some name →
        actionNamesById s' !! actionId = Some name
        ∧ actionNotesById s' !! actionId = actionNotesById s !! actionId)
  ∧ (∀ actionId,
        actionNamesById s !! actionId = None →
        actionNotesById s' !! actionId
        = maintainedNote (actionNamesById s' !! actionId)
            (actionNotesById s !! actionId)).
Proof.
  assert (namesLearned s (findAllActions h s).2) as (Ha & Hu & Hs & Hsub & Hnotes).
  { unfold findAllActions.
    set (s0 := sendStatus "Scanning chunks for server actions..." (setDiscovered ∅ s)).
    assert (namesLearned s (s0, 0).1) as Hstart.
    { repeat split; try done. intros id. simpl.
      by destruct (actionNamesById s !! id). }
    apply (paginate_invariant (fun acc : State * nat => namesLearned s acc.1)
             (fun _ => True) findPage h (s0, 0)) in Hstart;
      [|intros items a _; apply findPage_learns | by apply Forall_forall].
    destruct (paginateAllRequests (returning findPage) h (s0, 0)) as [[st chunks] [e|]];
      simpl in *; by repeat apply namesLearned_send. }
  simpl. refine (conj Ha (conj Hu (conj Hs (conj _ _)))).
  - intros actionId name Hname. split; [by eapply lookup_weaken|].
    specialize (Hnotes actionId). by rewrite Hname in Hnotes.
  - intros actionId Hname. specialize (Hnotes actionId). by rewrite Hname in Hnotes.
Qed.

(** *** The note shown with an invocation *)

(** X5.  After a name-extraction pass that completes, every invocation
    shows the note now stored for its action (entries of actions without
    a note are left as they were), and the pass has changed nothing else
    in an entry: identifiers, sequence numbers and security notes are
    those from before. *)
Theorem extraction_refreshes_shown_notes (h : History) (s : State) :
  failure h = None →
  let s' := (extractActionNames h s).2 in
  shownNotesCurrent s'
  ∧ map (fun a => ActionEntry.withNotes a "") (actions s')
    = map (fun a => ActionEntry.withNotes a "") (actions s).
Proof.
  intros Hok. unfold extractActionNames.
  pose proof (extract_traversal_adds h s) as (Ha & _).
  pose proof (paginate_failure extractPage h
                (sendStatus "Scanning chunk files..." s, 0, 0)) as Hf.
  destruct (paginateAllRequests (returning extractPage) h _) as [[[st chunks] names] [e|]];
    simpl in *; [congruence|].
  destruct (ensureAllNotes_frame st) as (Ha' & _).
  split.
  - intros a note. simpl. intros (a0 & -> & Ha0)%list_elem_of_fmap.
    destruct (actionNotesById (ensureAllNotes st) !! ActionEntry.actionId a0)
      as [n|] eqn:Hn; simpl.
    + rewrite Hn. by intros [= ->].
    + by rewrite Hn.
  - rewrite Ha', Ha, map_map. apply map_ext. intros a.
    by destruct (_ !! _).
Qed.

(** X6.  An analyst's note replaces the stored note of that action as
    it is given, is shown by every invocation of that action, and
    touches nothing else: other notes, other invocations, function
    names, declared actions, usage history and the seen set stay as they
    were.  Saving a second note for the same action leaves the store the
    second note alone would have left. *)
Theorem setActionNote_overwrites (actionId note : string) (s : State) :
  let s' := setActionNote actionId note s in
  actionNotesById s' !! actionId = Some note
  ∧ (∀ other, other ≠ actionId →
       actionNotesById s' !! other = actionNotesById s !! other)
  ∧ actions s'
    = map (fun a => if decide (ActionEntry.actionId a = actionId)
                    then ActionEntry.withNotes a note else a) (actions s)
  ∧ actionNamesById s' = actionNamesById s
  ∧ discoveredActionsById s' = discoveredActionsById s
  ∧ actionUsagesById s' = actionUsagesById s
  ∧ seenRequestIds s' = seenRequestIds s
  ∧ (∀ earlier, sameStore (setActionNote actionId note
                             (setActionNote actionId earlier s)) s').
Proof.
  simpl. refine (conj _ (conj _ (conj _ (conj eq_refl (conj eq_refl
                   (conj eq_refl (conj eq_refl _))))))).
  - apply lookup_insert_eq.
  - intros other Hne. by apply lookup_insert_ne.
  - apply map_ext. intros a.
    destruct (String.eqb_spec (ActionEntry.actionId a) actionId);
      by destruct (decide _).
  - intros earlier. repeat split; simpl.
    + rewrite map_map. apply map_ext. intros a.
      destruct (String.eqb_spec (ActionEntry.actionId a) actionId) as [Heq|Hne];
        simpl; [|by destruct (String.eqb_spec (ActionEntry.actionId a) actionId)].
      by destruct (String.eqb_spec (ActionEntry.actionId a) actionId).
    + apply insert_insert_eq.
Qed.

(** *** Usage records and invocations *)

Lemma addActionEntry_usage_matches request response actionId (s : State) :
  usageMatchesInvocations s → noInheritedNoteKeys s →
  usageMatchesInvocations (addActionEntry request response actionId s).1
  ∧ noInheritedNoteKeys (addActionEntry request response actionId s).1.
Proof.
  intros Hs Hplain.
  destruct (decide (Request.getId request ∈ seenRequestIds s)) as [Hseen|Hfresh].
  { by rewrite addActionEntry_seen. }
  destruct (objectPrototype actionId) as [m|] eqn:Hkey.
  - (* the note maintenance throws before anything is appended *)
    destruct (addActionEntry_unseen request response actionId s Hfresh)
      as (_ & Hn & _ & _ & Hrest).
    simpl in *.
    pose proof (ensureActionNotes_completion actionId s) as Hend.
    assert (actionNotesById s !! actionId = None) as Hnone
      by (apply Hplain; by rewrite Hkey).
    assert (∃ e, (ensureActionNotes actionId s).1 = Throws e) as [e He].
    { unfold ensureActionNotes, jsGet. rewrite Hnone, Hkey.
      destruct (actionNamesById s !! actionId); by eexists. }
    rewrite He in Hend. destruct Hend as (_ & Hstate & _).
    rewrite Hstate in Hn.
    destruct Hrest as [(e' & _ & _ & Ha & Hu & _)|(entry & Hret & _)];
      [|congruence].
    split.
    + intros other. by rewrite Ha, Hu.
    + intros key Hk. rewrite Hn. by apply Hplain.
  - destruct (addActionEntry_fresh request response actionId s Hfresh Hkey)
      as (entry & usage & Ha & Hu & _ & Hn & _ & _ & _ & _ & _ & Hk & _).
    simpl in *. split.
    + intros other. rewrite Ha, Hu, filter_app, length_app.
      destruct (decide (other = actionId)) as [->|Hne].
      * rewrite lookup_insert_eq. simpl. rewrite length_app, Hs.
        by rewrite filter_cons_True.
      * rewrite lookup_insert_ne by done. rewrite Hs.
        rewrite filter_cons_False by congruence. simpl. lia.
    + intros key Hkey'. rewrite Hn, ensureActionNotes_other; [by apply Hplain|].
      intros ->. by rewrite Hkey in Hkey'.
Qed.

Lemma processAll_usage_matches (items : list Item) (s : State) :
  usageMatchesInvocations s → noInheritedNoteKeys s →
  usageMatchesInvocations (processAll items s).1.
Proof.
  revert s. induction items as [|it items IH]; intros s Hs Hplain; [done|].
  rewrite processAll_cons.
  assert (usageMatchesInvocations
            (processRequestResponse (request it) (response it) s).1
          ∧ noInheritedNoteKeys
              (processRequestResponse (request it) (response it) s).1)
    as [Hstep Hplain'].
  { unfold processRequestResponse.
    destruct (response it); [|done].
    destruct (getNextActionIdFromRequest (request it)); [|done].
    by apply addActionEntry_usage_matches. }
  destruct (processRequestResponse (request it) (response it) s) as [s1 [e|]];
    simpl in *; [done|]. by apply IH.
Qed.

Lemma filter_length_pos {A : Type} (P : A → Prop) `{∀ x, Decision (P x)} (l : list A) :
  0 < length (filter P l) ↔ ∃ x, x ∈ l ∧ P x.
Proof.
  split.
  - destruct (filter P l) as [|x r] eqn:Hf; simpl; [lia|]. intros _.
    assert (x ∈ filter P l) as Hx by (rewrite Hf; left).
    apply list_elem_of_filter in Hx as [HP Hx]. eauto.
  - intros (x & Hx & HP).
    assert (x ∈ filter P l) as Hin by (by apply list_elem_of_filter).
    destruct (filter P l); [by apply elem_of_nil in Hin | simpl; lia].
Qed.

(** X7.  In a store where every action identifier has as many usage
    records as invocations and no note is stored under the name of an
    inherited member, per-pair processing, a scan (each whether it
    returns or throws), an analyst's note and the reset keep the counts
    equal; and then the classification view is consistent with itself:
    the executed count of a declared action is the number of its
    invocations, and its status is [Executed] exactly when that count is
    positive. *)
Theorem usage_counts_match_invocations (s : State) :
  usageMatchesInvocations s →
  noInheritedNoteKeys s →
  (∀ request response,
      usageMatchesInvocations (processRequestResponse request response s).1)
  ∧ (∀ h, usageMatchesInvocations (scanProxyHistory h s).2)
  ∧ (∀ actionId note, usageMatchesInvocations (setActionNote actionId note s))
  ∧ usageMatchesInvocations (clearAll s)
  ∧ (∀ d : DiscoveredActionInternal.t,
        DiscoveredAction.executedCount (rowOf s d)
        = length (filter (fun a => ActionEntry.actionId a
                                   = DiscoveredActionInternal.actionId d) (actions s))
        ∧ (DiscoveredAction.status (rowOf s d) = "Executed"
           ↔ 0 < DiscoveredAction.executedCount (rowOf s d))).
Proof.
  intros Hs Hplain. refine (conj _ (conj _ (conj _ (conj _ _)))).
  - intros request response.
    pose proof (processAll_usage_matches
                  [{| request := request; response := response |}] s Hs Hplain) as Hp.
    rewrite processAll_cons in Hp. simpl in Hp.
    by destruct (processRequestResponse request response s) as [s1 [e|]].
  - intros h other. destruct (scan_store h s) as (-> & _ & _ & _ & -> & _).
    by apply processAll_usage_matches.
  - intros actionId note other. simpl. rewrite Hs.
    induction (actions s) as [|a l IH]; [done|]. simpl.
    assert (ActionEntry.actionId
              (if negb (ActionEntry.actionId a =? actionId)%string then a
               else ActionEntry.withNotes a note) = ActionEntry.actionId a) as Hid
      by (by destruct (negb _)).
    destruct (decide (ActionEntry.actionId a = other)) as [Heq|Hne].
    + rewrite !filter_cons_True by congruence. simpl. by rewrite IH.
    + rewrite !filter_cons_False by congruence. done.
  - intros other. simpl. by rewrite lookup_empty.
  - intros d. simpl. split; [apply Hs|]. rewrite Hs, filter_length_pos.
    change (∃ x, x ∈ actions s
                 ∧ ActionEntry.actionId x = DiscoveredActionInternal.actionId d)
      with (hasInvocation s (DiscoveredActionInternal.actionId d)).
    rewrite <- executedActionIds_spec. unfold statusOf.
    repeat case_bool_decide; split; done.
Qed.

(** *** Where a declared action was found *)

Lemma firstIn_app {A : Type} (actionId : string) (ps qs : list (string * A)) :
  firstIn actionId (ps ++ qs)
  = match firstIn actionId ps with
    | Some v => Some v
    | None => firstIn actionId qs
    end.
Proof.
  induction ps as [|[id v] ps IH]; simpl; [done|].
  by destruct (String.eqb id actionId).
Qed.

Lemma findMatch_origin request chunkFile (s : State) (m : Match) (id : string) :
  declaredOrigin (findMatch request chunkFile s m) id
  = match declaredOrigin s id with
    | Some o => Some o
    | None =>
        firstIn id
          (map (fun p : string * string =>
                  (p.1, (p.2, chunkFile, Request.getId request)))
             (omap capturedPair [m]))
    end.
Proof.
  unfold declaredOrigin. rewrite findMatch_discovered. simpl.
  destruct (capturedPair m) as [[actionId functionName]|]; simpl.
  2:{ by destruct (_ <$> _). }
  destruct (String.eqb_spec actionId id) as [->|Hne].
  - destruct (discoveredActionsById s !! id) as [d0|] eqn:Hd.
    + by rewrite Hd.
    + by rewrite lookup_insert_eq.
  - destruct (discoveredActionsById s !! actionId) as [d0|] eqn:Hd.
    + by destruct (_ <$> _).
    + rewrite lookup_insert_ne by done. by destruct (_ <$> _).
Qed.

Lemma findMatches_origin request chunkFile (ms : list Match) (s : State) (id : string) :
  declaredOrigin (foldl (findMatch request chunkFile) s ms) id
  = match declaredOrigin s id with
    | Some o => Some o
    | None =>
        firstIn id
          (map (fun p : string * string =>
                  (p.1, (p.2, chunkFile, Request.getId request)))
             (omap capturedPair ms))
    end.
Proof.
  revert s. induction ms as [|m ms IH]; intros s.
  { simpl. by destruct (declaredOrigin s id). }
  cbn [foldl]. rewrite IH, findMatch_origin.
  change (m :: ms) with ([m] ++ ms). rewrite omap_app, map_app, firstIn_app.
  destruct (declaredOrigin s id); [done|].
  by destruct (firstIn id _).
Qed.

Lemma findItems_origin (items : list Item) (acc : State * nat) (id : string) :
  declaredOrigin (foldl findItem acc items).1 id
  = match declaredOrigin acc.1 id with
    | Some o => Some o
    | None => firstIn id (flat_map declarationsOfItem items)
    end.
Proof.
  revert acc. induction items as [|it items IH]; intros acc.
  { simpl. by destruct (declaredOrigin acc.1 id). }
  cbn [foldl flat_map]. rewrite IH, firstIn_app.
  assert (declaredOrigin (findItem acc it).1 id
          = match declaredOrigin acc.1 id with
            | Some o => Some o
            | None => firstIn id (declarationsOfItem it)
            end) as ->.
  { destruct acc as [s chunks]. unfold findItem, declarationsOfItem.
    destruct (chunkBody it) as [body|]; simpl.
    - apply findMatches_origin.
    - by destruct (declaredOrigin s id). }
  destruct (declaredOrigin acc.1 id); [done|].
  by destruct (firstIn id (declarationsOfItem it)).
Qed.

Lemma find_traversal_origin (h : History) (acc : State * nat) (id : string) :
  declaredOrigin (paginateAllRequests (returning findPage) h acc).1.1 id
  = match declaredOrigin acc.1 id with
    | Some o => Some o
    | None => firstIn id (declarationsOfPass h)
    end.
Proof.
  assert (∀ items acc,
             declaredOrigin (findPage items acc).1 id
             = match declaredOrigin acc.1 id with
               | Some o => Some o
               | None => firstIn id (flat_map declarationsOfItem items)
               end) as Hpage.
  { intros items a. unfold findPage. rewrite <- findItems_origin.
    by destruct (foldl findItem a items). }
  unfold declarationsOfPass. revert acc.
  induction h as [items|items rest IH|e]; intros acc; simpl.
  - apply Hpage.
  - rewrite IH, Hpage, flat_map_app, firstIn_app.
    destruct (declaredOrigin acc.1 id); [done|].
    by destruct (firstIn id (flat_map declarationsOfItem items)).
  - by destruct (declaredOrigin acc.1 id).
Qed.

Lemma splitLast_no_separator (sep : ascii) (s : string) :
  Js.includes (Js.splitLast sep s) (String sep EmptyString) = false.
Proof.
  induction s as [|c r IH]; [done|]. cbn [Js.splitLast].
  destruct (Js.includes r (String sep EmptyString)) eqn:Hr; [done|].
  destruct (Ascii.eqb_spec c sep) as [->|Hne]; [done|].
  cbn [Js.includes]. rewrite Hr, orb_false_r. simpl.
  destruct (Ascii.eqb_spec sep c); [congruence|done].
Qed.

Lemma firstIn_elem {A : Type} (id : string) (v : A) (pairs : list (string * A)) :
  firstIn id pairs = Some v → (id, v) ∈ pairs.
Proof.
  induction pairs as [|[k w] pairs IH]; simpl; [done|].
  destruct (String.eqb_spec k id) as [->|Hne].
  - intros [= ->]. by left.
  - intros Hv. right. by apply IH.
Qed.

(** X8.  After a discovery pass the function name, bundle file name and
    serving request stored for an identifier are those of the first
    place the pass extracted it from; [getChunkRequestIdForAction]
    answers with that request for an extracted identifier and with the
    error [No chunk request found for action] for any other; the bundle
    file name holds no [/]; and a later reset does not change the
    answer. *)
Theorem chunk_lookup_after_discovery (h : History) (s : State) (actionId : string) :
  let s' := (findAllActions h s).2 in
  declaredOrigin s' actionId = firstIn actionId (declarationsOfPass h)
  ∧ getChunkRequestIdForAction actionId s'
    = match firstIn actionId (declarationsOfPass h) with
      | Some (_, _, requestId) => Ok requestId
      | None => Error "No chunk request found for action"
      end
  ∧ (∀ name chunkFile requestId,
        declaredOrigin s' actionId = Some (name, chunkFile, requestId) →
        Js.includes chunkFile "/" = false)
  ∧ getChunkRequestIdForAction actionId (clearAll s')
    = getChunkRequestIdForAction actionId s'.
Proof.
  assert (declaredOrigin (findAllActions h s).2 actionId
          = firstIn actionId (declarationsOfPass h)) as Horigin.
  { unfold findAllActions.
    set (s0 := sendStatus "Scanning chunks for server actions..." (setDiscovered ∅ s)).
    pose proof (find_traversal_origin h (s0, 0) actionId) as Ht.
    assert (declaredOrigin (s0, 0).1 actionId = None) as Hnone.
    { unfold declaredOrigin. simpl. by rewrite lookup_empty. }
    rewrite Hnone in Ht.
    by destruct (paginateAllRequests (returning findPage) h (s0, 0)) as [[st chunks] [e|]]. }
  simpl. refine (conj Horigin (conj _ (conj _ eq_refl))).
  - rewrite <- Horigin. unfold getChunkRequestIdForAction, declaredOrigin.
    by destruct (discoveredActionsById _ !! actionId).
  - intros name chunkFile requestId. rewrite Horigin.
    intros Hin%firstIn_elem. unfold declarationsOfPass in Hin.
    apply list_elem_of_In, in_flat_map in Hin as (item & _ & Hin).
    unfold declarationsOfItem in Hin. destruct (chunkBody item); [|done].
    apply in_map_iff in Hin as (p & [= _ _ <- _] & _).
    apply splitLast_no_separator.
Qed.

(** *** What a name-extraction pass reports *)

Lemma extractMatches_count (ms : list Match) (acc : State * nat) :
  size (actionNamesById (foldl extractMatch acc ms).1) + acc.2
  = size (actionNamesById acc.1) + (foldl extractMatch acc ms).2.
Proof.
  revert acc. induction ms as [|m ms IH]; intros [s n]; [done|].
  cbn [foldl].
  assert (size (actionNamesById (extractMatch (s, n) m).1) + n
          = size (actionNamesById s) + (extractMatch (s, n) m).2) as Hstep.
  { unfold extractMatch.
    destruct (capturedPair m) as [[actionId functionName]|]; [|done].
    destruct (actionNamesById s !! actionId) eqn:Hname; [done|]. simpl.
    rewrite map_size_insert_None by done. lia. }
  specialize (IH (extractMatch (s, n) m)).
  destruct (extractMatch (s, n) m) as [s1 n1]. simpl in *. lia.
Qed.

Lemma extractItems_count (items : list Item) (acc : State * nat * nat) :
  (foldl extractItem acc items).1.2
  = acc.1.2 + length (List.filter servesBundle items)
  ∧ size (actionNamesById (foldl extractItem acc items).1.1) + acc.2
    = size (actionNamesById acc.1.1) + (foldl extractItem acc items).2.
Proof.
  revert acc. induction items as [|it items IH]; intros [[s chunks] n].
  { simpl. lia. }
  cbn [foldl List.filter].
  destruct (IH (extractItem (s, chunks, n) it)) as [Hc Hn].
  rewrite Hc. unfold extractItem, servesBundle in *.
  destruct (chunkBody it) as [body|]; simpl in *; [|split; [lia|done]].
  pose proof (extractMatches_count (matchesOf extractPatterns body) (s, n)) as Hm.
  destruct (foldl extractMatch (s, n) _) as [s1 n1]. simpl in *. lia.
Qed.

Lemma extract_traversal_count (h : History) (acc : State * nat * nat) :
  (paginateAllRequests (returning extractPage) h acc).1.1.2
  = acc.1.2 + length (List.filter servesBundle (traversed h))
  ∧ size (actionNamesById (paginateAllRequests (returning extractPage) h acc).1.1.1) + acc.2
    = size (actionNamesById acc.1.1) + (paginateAllRequests (returning extractPage) h acc).1.2.
Proof.
  assert (∀ items acc,
             (extractPage items acc).1.2
             = acc.1.2 + length (List.filter servesBundle items)
             ∧ size (actionNamesById (extractPage items acc).1.1) + acc.2
               = size (actionNamesById acc.1.1) + (extractPage items acc).2) as Hpage.
  { intros items a. unfold extractPage.
    pose proof (extractItems_count items a) as Hc.
    by destruct (foldl extractItem a items) as [[s1 c1] n1]. }
  revert acc. induction h as [items|items rest IH|e]; intros acc; simpl.
  - apply Hpage.
  - destruct (IH (extractPage items acc)) as [Hc Hn].
    destruct (Hpage items acc) as [Hc' Hn'].
    rewrite Hc, Hc', List.filter_app, length_app. split; lia.
  - split; lia.
Qed.

(** X9.  A name-extraction pass that completes reports the number of
    bundle responses it looked into and the number of identifiers that
    gained a function name: the name table has grown by exactly the
    number reported. *)
Theorem extraction_report (h : History) (s : State) :
  failure h = None →
  let s' := (extractActionNames h s).2 in
  (extractActionNames h s).1
  = Ok (length (List.filter servesBundle (traversed h)),
        size (actionNamesById s') - size (actionNamesById s)).
Proof.
  intros Hok. unfold extractActionNames.
  pose proof (paginate_failure extractPage h
                (sendStatus "Scanning chunk files..." s, 0, 0)) as Hf.
  pose proof (extract_traversal_count h
                (sendStatus "Scanning chunk files..." s, 0, 0)) as [Hc Hn].
  destruct (paginateAllRequests (returning extractPage) h _) as [[[st chunks] names] [e|]];
    simpl in *; [congruence|].
  destruct (ensureAllNotes_maintains st) as [-> _].
  f_equal. f_equal; lia.
Qed.

(** *** The observer's second analysis *)

(** X10.  When the live observer meets a new pair whose action
    identifier names no inherited member, the notes stored with the
    invocation are computed before the usage record is appended and the
    notes of the finding after it: for an action with [n] prior usage
    records the second analysis counts [n + 1].  Below ten prior records
    the two texts are equal; at exactly ten the stored notes have no
    reuse note while the finding's notes have [Action reused 11x]. *)
Theorem observer_counts_the_new_invocation
  (s : State) (req : Request.t) (resp : Response.t) (actionId : string) (n : nat) :
  Request.getId req ∉ seenRequestIds s →
  getNextActionIdFromRequest req = Some actionId →
  objectPrototype actionId = None →
  length (default [] (actionUsagesById s !! actionId)) = n →
  let body := getTextBody (Request.getBody req) in
  let s1 := (processRequestResponse req (Some resp) s).1 in
  let stored := analyzeSecurity req resp actionId body s in
  let recomputed := analyzeSecurity req resp actionId body s1 in
  (∃ entry, actions s1 = actions s ++ [entry]
            ∧ ActionEntry.securityNotes entry = stored)
  ∧ reuseNotes actionId s1
    = (if (10 <? n + 1)%nat then ["Action reused " +:+ pretty (n + 1) +:+ "x"] else [])
  ∧ (n < 10 → recomputed = stored)
  ∧ (n = 10 → reuseNotes actionId s = []
              ∧ reuseNotes actionId s1 = ["Action reused 11x"]).
Proof.
  intros Hfresh Hid Hkey Hn body s1 stored recomputed.
  assert (s1 = (addActionEntry req resp actionId s).1) as Hs1.
  { subst s1. unfold processRequestResponse. by rewrite Hid. }
  destruct (addActionEntry_fresh req resp actionId s Hfresh Hkey)
    as (entry & usage & Ha & Hu & _ & _ & _ & _ & _ & _ & _ & _ & Hnotes & _).
  simpl in Ha, Hu, Hnotes. rewrite <- Hs1 in Ha, Hu.
  assert (reuseNotes actionId s1
          = (if (10 <? n + 1)%nat
             then ["Action reused " +:+ pretty (n + 1) +:+ "x"] else [])) as Hre.
  { unfold reuseNotes. rewrite reusedCountOf_ordinary by done.
    rewrite Hu, lookup_insert_eq. simpl.
    by rewrite length_app, Hn. }
  refine (conj _ (conj Hre (conj _ _))).
  - exists entry. split; [done|]. by rewrite Hnotes.
  - intros Hlt. subst recomputed stored. unfold analyzeSecurity, securityNoteList.
    rewrite Hre. unfold reuseNotes. rewrite reusedCountOf_ordinary, Hn by done.
    destruct (Nat.ltb_spec 10 (n + 1)); [lia|].
    by destruct (Nat.ltb_spec 10 n); [lia|].
  - intros ->. split; [|by rewrite Hre].
    unfold reuseNotes. by rewrite reusedCountOf_ordinary, Hn.
Qed.

(** *** Shape of the classification view *)

Lemma NoDup_setOfList (l : list string) : NoDup (setOfList l).
Proof.
  unfold setOfList.
  assert (∀ acc, NoDup acc →
                 NoDup (foldl (fun acc x => if bool_decide (x ∈ acc) then acc
                                            else acc ++ [x]) acc l)) as Hfold.
  { induction l as [|x l IH]; intros acc Hacc; [done|]. simpl. apply IH.
    case_bool_decide as Hx; [done|].
    apply NoDup_app. split; [done|]. split; [|apply NoDup_singleton].
    intros y Hy ->%list_elem_of_singleton. done. }
  apply Hfold, NoDup_nil_2.
Qed.

(** X11.  The classification view has one row in [all] for every
    declared action, each with one of the three statuses; [unused] holds
    exactly the rows of [all] whose status is [Never Executed]; and
    [unknown] has one row, and only one, for every identifier that has
    an invocation and is not stored as declared. *)
Theorem getDiscovery_shape (s : State) :
  let view := getDiscovery s in
  length (dr_all view) = size (discoveredActionsById s)
  ∧ (∀ row, row ∈ dr_all view →
       DiscoveredAction.status row = "Executed"
       ∨ DiscoveredAction.status row = "Unused (Function executed with different ID)"
       ∨ DiscoveredAction.status row = "Never Executed")
  ∧ (∀ row, row ∈ dr_unused view
            ↔ row ∈ dr_all view ∧ DiscoveredAction.status row = "Never Executed")
  ∧ NoDup (map DiscoveredAction.actionId (dr_unknown view))
  ∧ (∀ actionId,
        actionId ∈ map DiscoveredAction.actionId (dr_unknown view)
        ↔ hasInvocation s actionId ∧ discoveredActionsById s !! actionId = None)
  ∧ (∀ row, row ∈ dr_unknown view →
            DiscoveredAction.status row = "Executed (No source found)"
            ∧ DiscoveredAction.chunkFile row = "Not found").
Proof.
  simpl.
  assert (map DiscoveredAction.actionId (unknownRows s)
          = filter (fun executedId => discoveredActionsById s !! executedId = None)
              (executedActionIds s)) as Hids.
  { unfold unknownRows. rewrite map_map. simpl. apply map_id. }
  refine (conj _ (conj _ (conj _ (conj _ (conj _ _))))).
  - unfold allRows. by rewrite length_map, length_map_to_list.
  - intros row (kv & -> & _)%list_elem_of_fmap. simpl. unfold statusOf.
    repeat case_bool_decide; auto.
  - intros row. unfold unusedRows. rewrite list_elem_of_filter. tauto.
  - rewrite Hids. apply NoDup_filter, NoDup_setOfList.
  - intros actionId. rewrite Hids, list_elem_of_filter, executedActionIds_spec. tauto.
  - by intros row (id & -> & _)%list_elem_of_fmap.
Qed.

(** *** Looking an action up by request *)

(** X12.  For a stored pair, [lookupActionForRequest] fails with
    [No Next-Action header] exactly when the request carries no action
    identifier, whether or not the pair has a response.  When it
    succeeds it reports the request's action identifier, with the name
    that [actionNamesById[actionId]] finds: the stored function name,
    else the member a plain object inherits under that name, else
    [Unknown]; processing the pair does not change its answer.  When the
    identifier names no inherited member, it is the identifier under
    which per-pair processing records a new pair. *)
Theorem lookup_agrees_with_processing
  (get : string → Lookup) (requestId : string) (item : Item) (s : State) :
  get requestId = Found item →
  (lookupActionForRequest get requestId s = Error "No Next-Action header"
   ↔ carriesAction item = false)
  ∧ ∀ actionId name,
      lookupActionForRequest get requestId s = Ok (actionId, name) →
      getNextActionIdFromRequest (request item) = Some actionId
      ∧ name = match actionNamesById s !! actionId, objectPrototype actionId with
               | Some functionName, _ => NameText functionName
               | None, Some m => NameMember m
               | None, None => NameText "Unknown"
               end
      ∧ (∀ resp, response item = Some resp →
           Request.getId (request item) ∉ seenRequestIds s →
           objectPrototype actionId = None →
           ∃ entry,
             actions (processRequestResponse (request item) (response item) s).1
             = actions s ++ [entry]
             ∧ ActionEntry.actionId entry = actionId
             ∧ ActionEntry.requestId entry = Request.getId (request item))
      ∧ lookupActionForRequest get requestId
          (processRequestResponse (request item) (response item) s).1
        = Ok (actionId, name).
Proof.
  intros Hget. unfold lookupActionForRequest, carriesAction. rewrite Hget.
  destruct (getNextActionIdFromRequest (request item)) as [found|] eqn:Hid.
  2:{ split; [done|]. intros actionId name Hok. discriminate. }
  split; [done|]. intros actionId name [= -> <-].
  assert (actionNamesById (processRequestResponse (request item) (response item) s).1
          = actionNamesById s) as Hnames
    by (by destruct (processRequestResponse_step (request item) (response item) s)
          as (? & _)).
  refine (conj eq_refl (conj _ (conj _ _))).
  - unfold jsGet. destruct (actionNamesById s !! actionId); [done|].
    by destruct (objectPrototype actionId).
  - intros resp Hresp Hfresh Hkey. unfold processRequestResponse. rewrite Hresp, Hid.
    destruct (addActionEntry_fresh (request item) resp actionId s Hfresh Hkey)
      as (entry & usage & Ha & _ & _ & _ & _ & _ & _ & _ & Hr & Hk & _).
    by exists entry.
  - by rewrite Hnames.
Qed.

(** *** Analysing requests by identifier *)

(** The point lookup answers for the identifier with nothing whose
    processing throws. *)
Lemma analyzeRequests_answered (get : string → Lookup) (requestIds : list string)
  (acc : State * nat * nat) :
  Forall (answers get) requestIds →
  Forall (ordinaryAnswer get) requestIds →
  (analyzeRequests get requestIds acc).2 = None
  ∧ (analyzeRequests get requestIds acc).1.1.2 = acc.1.2 + length requestIds
  ∧ (analyzeRequests get requestIds acc).1.2
    = acc.2 + length (List.filter (analysable get) requestIds).
Proof.
  intros Hids. revert acc.
  induction Hids as [|id ids Hid _ IH]; intros [[s analyzed] found] Hord.
  { simpl. repeat split; lia. }
  apply Forall_cons in Hord as [Hord1 Hord].
  cbn [analyzeRequests List.filter].
  unfold answers, analysable, carriesAction, ordinaryAnswer, ordinary in *.
  destruct (get id) as [it| |e]; [| |done].
  - destruct (response it) as [resp|].
    + destruct (getNextActionIdFromRequest (request it)) as [actionId|].
      * pose proof (addActionEntry_ordinary (request it) resp actionId s Hord1)
          as Hnone.
        destruct (addActionEntry (request it) resp actionId s) as [s1 [e|]];
          simpl in Hnone; [done|].
        destruct (IH (s1, analyzed + 1, found + 1) Hord) as (-> & -> & ->).
        simpl. repeat split; lia.
      * destruct (IH (s, analyzed + 1, found) Hord) as (-> & -> & ->).
        simpl. repeat split; lia.
    + destruct (IH (s, analyzed + 1, found) Hord) as (-> & -> & ->).
      simpl. repeat split; lia.
  - destruct (IH (s, analyzed + 1, found) Hord) as (-> & -> & ->).
    simpl. repeat split; lia.
Qed.

(** X13.  When the point lookup answers for every requested identifier,
    and no pair it finds has an action identifier that names an
    inherited member, [analyzeRequestsById] reports how many identifiers
    it was given and how many of them have a stored pair with a response
    and an action identifier (a pair without a response is not counted
    here, unlike in a scan), and announces the change last. *)
Theorem analyzeRequestsById_report
  (get : string → Lookup) (requestIds : list string) (s : State) :
  Forall (answers get) requestIds →
  Forall (ordinaryAnswer get) requestIds →
  (analyzeRequestsById get requestIds s).1
  = Ok (length requestIds, length (List.filter (analysable get) requestIds))
  ∧ last (sent (analyzeRequestsById get requestIds s).2) = Some DataChanged.
Proof.
  intros Hids Hord. unfold analyzeRequestsById.
  destruct (analyzeRequests_answered get requestIds (s, 0, 0) Hids Hord)
    as (Hf & Ha & Hn).
  destruct (analyzeRequests get requestIds (s, 0, 0)) as [[[s' analyzed] found] [e|]];
    simpl in *; [done|]. subst. split; [done|]. apply last_snoc.
Qed.

Lemma analyzeRequests_app (get : string → Lookup) (before after : list string)
  (acc : State * nat * nat) :
  analyzeRequests get (before ++ after) acc
  = match analyzeRequests get before acc with
    | (acc', None) => analyzeRequests get after acc'
    | (acc', Some e) => (acc', Some e)
    end.
Proof.
  revert acc. induction before as [|id ids IH]; intros [[s analyzed] found]; [done|].
  cbn [app analyzeRequests].
  destruct (get id) as [it| |e]; [| |done]; [|apply IH].
  destruct (response it) as [resp|]; [|apply IH].
  destruct (getNextActionIdFromRequest (request it)) as [actionId|]; [|apply IH].
  destruct (addActionEntry (request it) resp actionId s) as [s1 [e|]]; [done|].
  apply IH.
Qed.

(** X14.  When the point lookup throws at some identifier, after
    identifiers for which it answered with nothing whose processing
    throws, [analyzeRequestsById] returns the error with the thrown
    message and stops there: the store is the one the identifiers before
    it left, the identifiers after it are not looked at, and no change
    is announced.  It stops in the same way, with the message of the
    type error, at a new pair whose action identifier names an inherited
    member and has no note: the request is then recorded as seen and
    nothing else has changed. *)
Theorem analyzeRequestsById_failure
  (get : string → Lookup) (before after : list string) (failing : string)
  (s : State) :
  Forall (answers get) before →
  Forall (ordinaryAnswer get) before →
  let done := (analyzeRequestsById get before s).2 in
  let result := analyzeRequestsById get (before ++ failing :: after) s in
  (∀ e, get failing = LookupFails e →
        result.1 = Error (errorMessage e)
        ∧ sameStore result.2 done
        ∧ sent result.2 ++ [DataChanged] = sent done)
  ∧ (∀ item resp actionId,
        get failing = Found item →
        response item = Some resp →
        getNextActionIdFromRequest (request item) = Some actionId →
        objectPrototype actionId ≠ None →
        actionNotesById done !! actionId = None →
        Request.getId (request item) ∉ seenRequestIds done →
        result.1 = Error (typeErrorMessage IncludesOfMember)
        ∧ seenRequestIds result.2
          = {[Request.getId (request item)]} ∪ seenRequestIds done
        ∧ actions result.2 = actions done
        ∧ actionUsagesById result.2 = actionUsagesById done
        ∧ actionNotesById result.2 = actionNotesById done
        ∧ sent result.2 ++ [DataChanged] = sent done).
Proof.
  intros Hbefore Hord. simpl. unfold analyzeRequestsById.
  rewrite analyzeRequests_app.
  destruct (analyzeRequests_answered get before (s, 0, 0) Hbefore Hord) as (Hf & _).
  destruct (analyzeRequests get before (s, 0, 0)) as [[[s' analyzed] found] [e'|]];
    simpl in *; [done|].
  split.
  - intros e Hfail. rewrite Hfail. simpl. repeat split; done.
  - intros item resp actionId Hget Hresp Hid Hkey Hnote Hfresh.
    rewrite Hget, Hresp, Hid.
    destruct (addActionEntry_unseen (request item) resp actionId s' Hfresh)
      as (Hs & Hn & _ & _ & Hrest).
    simpl in *.
    assert (ensureActionNotes actionId s'
            = (Throws (ThrownError (typeErrorMessage IncludesOfMember)), s'))
      as Hthrows.
    { unfold ensureActionNotes, jsGet. rewrite Hnote.
      destruct (objectPrototype actionId); [|done].
      by destruct (actionNamesById s' !! actionId). }
    rewrite Hthrows in Hn, Hrest. simpl in *.
    destruct Hrest as [(e & He & Hth & Ha & Hu & Hsent)|(entry & Hret & _)];
      [|done].
    injection He as <-.
    destruct (addActionEntry (request item) resp actionId s') as [s1 [e|]];
      simpl in *; [|done].
    injection Hth as ->. simpl.
    by rewrite Hsent.
Qed.

(** *** Maintaining a note twice *)

(** X15.  [ensureActionNotes] is idempotent: called again for the same
    identifier it ends as the first call did, with the same note or the
    same error, and leaves the state as the first call left it, so a
    note never collects a second prefix line by repeated maintenance. *)
Theorem ensureActionNotes_idempotent (actionId : string) (s : State) :
  let once := ensureActionNotes actionId s in
  ensureActionNotes actionId once.2 = once.
Proof.
  assert (∀ p : string, Js.includes p p = true) as Hrefl
    by (intros p; apply includes_startsWith, startsWith_refl).
  unfold ensureActionNotes, jsGet.
  destruct (actionNamesById s !! actionId) as [name|] eqn:Hname,
    (actionNotesById s !! actionId) as [existing|] eqn:Hnote,
    (objectPrototype actionId) as [m|] eqn:Hkey;
    cbn -[Js.includes String.append];
    repeat match goal with
           | |- context [if Js.includes ?a ?b then _ else _] =>
               destruct (Js.includes a b) eqn:?
           end;
    cbn -[Js.includes String.append];
    rewrite ?Hname, ?Hnote, ?Hkey, ?lookup_insert_eq;
    cbn -[Js.includes String.append];
    rewrite ?includes_self_app, ?Hrefl;
    try done;
    repeat match goal with
           | Hinc : Js.includes _ _ = true |- _ => rewrite Hinc
           end;
    try done; by destruct s.
Qed.

(** *** Recognising a bundle request *)

Lemma includes_cons_false (c : ascii) (r p : string) :
  Js.includes (String c r) p = false → Js.includes r p = false.
Proof. cbn [Js.includes]. by intros [_ ?]%orb_false_iff. Qed.

Lemma splitHead_before_separator (sep : ascii) (p q : string) :
  Js.includes p (String sep EmptyString) = false →
  Js.splitHead sep (p +:+ String sep q) = p.
Proof.
  induction p as [|c r IH]; intros Hp.
  - simpl. by rewrite Ascii.eqb_refl.
  - change (String c r +:+ String sep q) with (String c (r +:+ String sep q)).
    cbn [Js.splitHead]. rewrite IH by by eapply includes_cons_false.
    cbn [Js.includes Js.startsWith] in Hp.
    destruct (Ascii.eqb_spec c sep) as [->|Hne]; [|done].
    rewrite Ascii.eqb_refl in Hp. by destruct r.
Qed.

Lemma splitHead_no_separator (sep : ascii) (p : string) :
  Js.includes p (String sep EmptyString) = false → Js.splitHead sep p = p.
Proof.
  induction p as [|c r IH]; intros Hp; [done|].
  cbn [Js.splitHead]. rewrite IH by by eapply includes_cons_false.
  cbn [Js.includes Js.startsWith] in Hp.
  destruct (Ascii.eqb_spec c sep) as [->|Hne]; [|done].
  rewrite Ascii.eqb_refl in Hp. by destruct r.
Qed.

(** X16.  Of a request's path, the test for [.js] looks only at the
    part before the first [?], while the marker [/_next/static/chunks/]
    is looked for in the whole path, query string included.  For a path
    [p] without [?] the request is a bundle request exactly when [p]
    contains the marker and ends in [.js]; for the path [p?query]
    exactly when [p] ends in [.js] and the marker occurs somewhere in
    [p?query].  So a bundle path stays recognised with any query string
    appended, a path whose marker stands only in its query string is
    recognised too, and a path without the marker never is. *)
Theorem chunk_request_path_and_query (r : Request.t) (p query : string) :
  Js.includes p "?" = false →
  (Request.getPath r = p →
   isNextChunkRequest r
   = Js.includes p "/_next/static/chunks/" && Js.endsWith p ".js")
  ∧ (Request.getPath r = p +:+ "?" +:+ query →
     isNextChunkRequest r
     = Js.includes (p +:+ "?" +:+ query) "/_next/static/chunks/"
       && Js.endsWith p ".js")
  ∧ (Js.includes p "/_next/static/chunks/" = true →
     Js.includes (p +:+ "?" +:+ query) "/_next/static/chunks/" = true)
  ∧ (∀ other : Request.t,
        Js.includes (Request.getPath other) "/_next/static/chunks/" = false →
        isNextChunkRequest other = false).
Proof.
  intros Hquery. refine (conj _ (conj _ (conj _ _))).
  - intros Hpath. unfold isNextChunkRequest. rewrite Hpath.
    rewrite (splitHead_no_separator "?" p) by done.
    by destruct (Js.includes p "/_next/static/chunks/").
  - intros Hpath. unfold isNextChunkRequest. rewrite Hpath.
    change ("?" +:+ query) with (String "?" query).
    rewrite (splitHead_before_separator "?" p query) by done.
    by destruct (Js.includes (p +:+ String "?" query) "/_next/static/chunks/").
  - intros Hmarker. by apply includes_app_r.
  - intros other Hno. unfold isNextChunkRequest. by rewrite Hno.
Qed.

(** *** The filter of the action table *)

Lemma includes_refl (s : string) : Js.includes s s = true.
Proof. apply includes_startsWith, startsWith_refl. Qed.

Lemma filter_twice {A : Type} (f : A → bool) (l : list A) :
  List.filter f (List.filter f l) = List.filter f l.
Proof.
  induction l as [|x l IH]; [done|]. simpl.
  destruct (f x) eqn:Hx; [|done]. simpl. by rewrite Hx, IH.
Qed.

Lemma filter_is_sublist {A : Type} (f : A → bool) (l : list A) :
  sublist (List.filter f l) l.
Proof.
  induction l as [|x l IH]; [done|]. simpl.
  destruct (f x); by constructor.
Qed.

(** X17.  The filter of the action table shows a sub-list of the
    invocations in their order; a filter text of white space only shows
    them all; filtering what is shown with the same text changes
    nothing; and an invocation is shown whenever the filter text,
    trimmed, equals its action identifier up to letter case. *)
Theorem table_filter (filterText : string) (shown : list ActionEntry.t) :
  sublist (filteredActions filterText shown) shown
  ∧ (Js.allChars Js.isWhite filterText = true →
     filteredActions filterText shown = shown)
  ∧ filteredActions filterText (filteredActions filterText shown)
    = filteredActions filterText shown
  ∧ (∀ a, a ∈ shown →
       Js.toLowerCase (Js.trim filterText) = Js.toLowerCase (ActionEntry.actionId a) →
       a ∈ filteredActions filterText shown).
Proof.
  unfold filteredActions. refine (conj _ (conj _ (conj _ _))).
  - destruct (String.eqb _ ""); [done | apply filter_is_sublist].
  - intros Hwhite. by rewrite trim_white.
  - destruct (String.eqb _ ""); [done | apply filter_twice].
  - intros a Ha Hq. destruct (String.eqb _ ""); [done|].
    apply list_elem_of_In, filter_In. split; [by apply list_elem_of_In|].
    rewrite Hq, includes_refl. by rewrite orb_true_r.
Qed.

(** *** The export *)

Lemma distinct_spec {A : Type} `{EqDecision A} (l : list A) :
  NoDup (distinct l) ∧ ∀ x, x ∈ distinct l ↔ x ∈ l.
Proof.
  unfold distinct.
  assert (∀ acc : list A, NoDup acc →
             NoDup (foldl (fun acc x => if bool_decide (x ∈ acc) then acc
                                        else acc ++ [x]) acc l)
             ∧ ∀ x, x ∈ foldl (fun acc x => if bool_decide (x ∈ acc) then acc
                                            else acc ++ [x]) acc l
                    ↔ x ∈ acc ∨ x ∈ l) as Hfold.
  { induction l as [|y l IH]; intros acc Hacc; simpl.
    - split; [done|]. intros x. split; [by left | by intros [?|?%elem_of_nil]].
    - case_bool_decide as Hy.
      + destruct (IH acc Hacc) as [Hnd Hin]. split; [done|].
        intros x. rewrite Hin, elem_of_cons. split; [tauto|].
        intros [?|[->|?]]; tauto.
      + assert (NoDup (acc ++ [y])) as Hacc'.
        { apply NoDup_app. split; [done|]. split; [|apply NoDup_singleton].
          by intros z Hz ->%list_elem_of_singleton. }
        destruct (IH (acc ++ [y]) Hacc') as [Hnd Hin]. split; [done|].
        intros x. rewrite Hin, elem_of_app, list_elem_of_singleton, elem_of_cons.
        tauto. }
  destruct (Hfold [] (NoDup_nil_2 (A:=A))) as [Hnd Hin]. split; [done|].
  intros x. rewrite Hin. split; [by intros [?%elem_of_nil|?] | by right].
Qed.

(** X18.  With executed actions included, the export has a summary for
    every action identifier that has usage records: its count is the
    number of records; endpoints, methods and status codes list every
    value that occurs, each once; the security notes are the non-empty
    note texts that occur, each once; and sample requests are present
    only with full details, the first five records at most. *)
Theorem export_summary (options : ExportOptions) (time actionId : string)
  (usages : list ActionUsage.t) (s : State) :
  includeExecuted options = true →
  actionUsagesById s !! actionId = Some usages →
  ∃ summary,
    actionSummary (exportPayload options time s) !! actionId = Some summary
    ∧ ActionSummary.count summary = length usages
    ∧ ActionSummary.functionName summary
      = default "Unknown" (actionNamesById s !! actionId)
    ∧ NoDup (ActionSummary.endpoints summary)
    ∧ NoDup (ActionSummary.methods summary)
    ∧ NoDup (ActionSummary.statusCodes summary)
    ∧ NoDup (ActionSummary.securityNotes summary)
    ∧ (∀ u, u ∈ usages →
         ActionUsage.url u ∈ ActionSummary.endpoints summary
         ∧ ActionUsage.method u ∈ ActionSummary.methods summary
         ∧ ActionUsage.statusCode u ∈ ActionSummary.statusCodes summary)
    ∧ (∀ note, note ∈ ActionSummary.securityNotes summary
               ↔ note ≠ "" ∧ ∃ u, u ∈ usages ∧ ActionUsage.securityNotes u = note)
    ∧ ActionSummary.requests summary
      = (if includeFullDetails options then Some (map sampleOf (take 5 usages))
         else None)
    ∧ length (take 5 usages) = min 5 (length usages).
Proof.
  intros Hinc Husages. exists (summaryOf options s actionId usages).
  unfold exportPayload. simpl. rewrite Hinc, map_lookup_imap, Husages. simpl.
  refine (conj eq_refl (conj eq_refl (conj eq_refl (conj _ (conj _ (conj _
            (conj _ (conj _ (conj _ (conj eq_refl _)))))))))).
  - apply distinct_spec.
  - apply distinct_spec.
  - apply distinct_spec.
  - apply distinct_spec.
  - intros u Hu. repeat split; apply distinct_spec, list_elem_of_fmap; eauto.
  - intros note. rewrite (proj2 (distinct_spec _)), list_elem_of_In, filter_In.
    rewrite <- list_elem_of_In, list_elem_of_fmap, negb_true_iff, String.eqb_neq.
    split.
    + intros [(u & -> & Hu) Hne]. eauto.
    + intros [Hne (u & Hu & <-)]. eauto.
  - exact (length_take usages 5).
Qed.

(** X20.  With unused actions included, every row that the
    classification view lists as [Never Executed] appears in the
    export's unused-action table under its identifier, with its function
    name and bundle file name; an exported entry is always a declared
    action whose function name is not the stored name of any executed
    identifier, and always carries the status [Never Executed]; without
    the option the table is empty. *)
Theorem export_unused_table (options : ExportOptions) (time : string) (s : State) :
  keyedById s →
  let table := unusedActions (exportPayload options time s) in
  (includeUnused options = true →
     (∀ row, row ∈ dr_unused (getDiscovery s) →
        ∃ u, table !! DiscoveredAction.actionId row = Some u
             ∧ UnusedExport.functionName u = DiscoveredAction.functionName row
             ∧ UnusedExport.chunkFile u = DiscoveredAction.chunkFile row)
     ∧ (∀ actionId u,
          table !! actionId = Some u →
          UnusedExport.status u = "Never Executed"
          ∧ ∃ d, discoveredActionsById s !! actionId = Some d
                 ∧ UnusedExport.functionName u = DiscoveredActionInternal.functionName d
                 ∧ ¬ nameExecuted s (DiscoveredActionInternal.functionName d)))
  ∧ (includeUnused options = false → table = ∅).
Proof.
  intros Hkeyed. simpl. split; intros Hopt; rewrite Hopt; [|done]. split.
  - intros row [Hstatus (kv & -> & Hkv)%list_elem_of_fmap]%list_elem_of_filter.
    destruct kv as [key d]. apply elem_of_map_to_list in Hkv.
    simpl in *. rewrite (Hkeyed key d Hkv).
    exists (unusedOf d). split; [|done].
    rewrite lookup_fmap.
    assert (filter (fun kv : string * DiscoveredActionInternal.t =>
                      DiscoveredActionInternal.functionName kv.2
                        ∉ executedFunctionNames s)
              (discoveredActionsById s) !! key = Some d) as ->; [|done].
    apply map_lookup_filter_Some. split; [done|]. simpl.
    unfold statusOf in Hstatus. by repeat case_bool_decide.
  - intros actionId u. rewrite lookup_fmap.
    destruct (filter _ (discoveredActionsById s) !! actionId) as [d|] eqn:Hd;
      [|done].
    apply map_lookup_filter_Some in Hd as [Hd Hname]. simpl in *.
    intros [= <-]. split; [done|]. exists d. split; [done|]. split; [done|].
    by rewrite <- executedFunctionNames_spec.
Qed.

Lemma sanitizeTime_clean (t : string) :
  String.length (sanitizeTime t) = String.length t
  ∧ Js.includes (sanitizeTime t) ":" = false
  ∧ Js.includes (sanitizeTime t) "." = false.
Proof.
  unfold sanitizeTime. induction t as [|c t (IHl & IHc & IHd)]; [done|].
  cbn [Js.mapChars String.length Js.includes Js.startsWith].
  rewrite IHl, IHc, IHd. split; [done|].
  set (c' := if (Ascii.eqb c ":" || Ascii.eqb c ".")%bool then "-"%char else c).
  assert (c' ≠ ":"%char ∧ c' ≠ "."%char) as [Hcolon Hdot].
  { subst c'. destruct (Ascii.eqb_spec c ":") as [->|Hc]; [done|].
    by destruct (Ascii.eqb_spec c ".") as [->|Hd]. }
  destruct (Ascii.eqb_spec ":" c'); [congruence|].
  by destruct (Ascii.eqb_spec "." c'); [congruence|].
Qed.

(** X21.  [exportAnalysis] always succeeds; it reads the clock once and
    leaves the store as it was; the document is the serialised payload
    for that time, whose totals are the length of the invocation list,
    the number of distinct executed identifiers and the number of
    declared actions; and the file name is [nextjs_actions_], the export
    time with every [:] and [.] replaced by [-] (so of the same length
    and free of both), and [.json]. *)
Theorem exportAnalysis_result (stringify : ExportPayload → string)
  (options : ExportOptions) (s : State) :
  let time := clock (clockReads s) in
  let result := exportAnalysis stringify options s in
  let info := exportInfo (exportPayload options time result.2) in
  result.1
  = Ok (stringify (exportPayload options time result.2),
        "nextjs_actions_" +:+ sanitizeTime time +:+ ".json")
  ∧ sameStore result.2 s
  ∧ clockReads result.2 = S (clockReads s)
  ∧ sent result.2 = sent s
  ∧ totalRequests info = length (actions s)
  ∧ (∀ actionId, hasInvocation s actionId → 0 < uniqueActions info)
  ∧ uniqueActions info ≤ totalRequests info
  ∧ totalDiscovered info = size (discoveredActionsById s)
  ∧ String.length (sanitizeTime time) = String.length time
  ∧ Js.includes (sanitizeTime time) ":" = false
  ∧ Js.includes (sanitizeTime time) "." = false.
Proof.
  simpl. destruct (sanitizeTime_clean (clock (clockReads s))) as (Hl & Hc & Hd).
  refine (conj eq_refl (conj _ (conj eq_refl (conj eq_refl (conj eq_refl
            (conj _ (conj _ (conj eq_refl (conj Hl (conj Hc Hd)))))))))).
  - by repeat split.
  - intros actionId Hexec%executedActionIds_spec.
    change (0 < length (executedActionIds s)).
    destruct (executedActionIds s); [by apply elem_of_nil in Hexec | simpl; lia].
  - change (length (executedActionIds s) ≤ length (actions s)).
    unfold executedActionIds. rewrite <- (length_map ActionEntry.actionId (actions s)).
    generalize (map ActionEntry.actionId (actions s)). intros l.
    pose proof (NoDup_setOfList l) as Hnd.
    assert (setOfList l ⊆ l) as Hsub by (intros x; by rewrite elem_of_setOfList).
    by apply submseteq_length, NoDup_submseteq.
Qed.

(** *** Processing only appends *)

Lemma processRequestResponse_appends request response (s : State) :
  let s' := (processRequestResponse request response s).1 in
  actions s `prefix_of` actions s'
  ∧ (∀ actionId, default [] (actionUsagesById s !! actionId)
                 `prefix_of` default [] (actionUsagesById s' !! actionId))
  ∧ actionNamesById s' = actionNamesById s
  ∧ discoveredActionsById s' = discoveredActionsById s.
Proof.
  destruct (processRequestResponse_step request response s)
    as (Hn & Hd & _ & Ha & Hu).
  simpl in *. refine (conj _ (conj _ (conj Hn Hd))).
  - destruct Ha as [->|(_ & entry & -> & _)]; [done | by apply prefix_app_r].
  - intros other. destruct Hu as [->|(actionId & usage & ->)]; [done|].
    destruct (decide (other = actionId)) as [->|Hne].
    + rewrite lookup_insert_eq. simpl. by apply prefix_app_r.
    + by rewrite lookup_insert_ne.
Qed.

(** X22.  Per-pair processing, and so a scan, only ever appends: the
    invocation list before is a prefix of the list after, every usage
    history before is a prefix of the history after, the seen set only
    grows, and function names and declared actions are not touched. *)
Theorem scan_only_appends (h : History) (s : State) :
  let s' := (scanProxyHistory h s).2 in
  actions s `prefix_of` actions s'
  ∧ (∀ actionId, default [] (actionUsagesById s !! actionId)
                 `prefix_of` default [] (actionUsagesById s' !! actionId))
  ∧ seenRequestIds s ⊆ seenRequestIds s'
  ∧ actionNamesById s' = actionNamesById s
  ∧ discoveredActionsById s' = discoveredActionsById s.
Proof.
  simpl. destruct (scan_store h s) as (-> & _ & -> & -> & -> & ->).
  generalize (traversed h). intros items.
  refine ((fun Hall => conj (proj1 Hall) (conj (proj1 (proj2 Hall))
            (conj (processAll_seen_mono items s) (proj2 (proj2 Hall))))) _).
  revert s. induction items as [|it items IH]; intros s; [done|].
  rewrite processAll_cons.
  destruct (processRequestResponse_appends (request it) (response it) s)
    as (Ha & Hu & Hn & Hd).
  specialize (IH (processRequestResponse (request it) (response it) s).1).
  destruct (processRequestResponse (request it) (response it) s) as [s1 [e|]];
    simpl in *; [done|].
  destruct IH as (Ha' & Hu' & Hn' & Hd').
  refine (conj _ (conj _ (conj _ _))).
  - exact (transitivity Ha Ha').
  - intros actionId. exact (transitivity (Hu actionId) (Hu' actionId)).
  - by rewrite Hn'.
  - by rewrite Hd'.
Qed.

(** *** One invocation per request *)

Lemma processRequestResponse_one_per_request request response (s : State) :
  seenCoversStore s → oneInvocationPerRequest s →
  oneInvocationPerRequest (processRequestResponse request response s).1.
Proof.
  intros [Hact _] Hone.
  destruct (processRequestResponse_step request response s)
    as (_ & _ & _ & [Ha|(_ & entry & Ha & _ & Hr & Hfresh)] & _); simpl in *;
    unfold oneInvocationPerRequest in *; rewrite Ha; [done|].
  rewrite map_app.
  apply NoDup_app. split; [done|]. split; [|apply NoDup_singleton].
  intros rid (a & -> & Hin)%list_elem_of_fmap. simpl.
  intros Heq%list_elem_of_singleton. apply Hfresh. rewrite <- Hr, <- Heq.
  by apply Hact.
Qed.

Lemma processAll_one_per_request (items : list Item) (s : State) :
  seenCoversStore s → oneInvocationPerRequest s →
  seenCoversStore (processAll items s).1
  ∧ oneInvocationPerRequest (processAll items s).1.
Proof.
  revert s.
  induction items as [|it items IH]; intros s Hcov Hone; [done|].
  rewrite processAll_cons.
  pose proof (processRequestResponse_covered (request it) (response it) s Hcov)
    as Hcov'.
  pose proof (processRequestResponse_one_per_request (request it) (response it) s
                Hcov Hone) as Hone'.
  destruct (processRequestResponse (request it) (response it) s) as [s1 [e|]];
    simpl in *; [done|]. by apply IH.
Qed.

(** X23.  In a store whose invocations and usage records all stem from
    seen requests and in which no two invocations stem from the same
    request, both stay true under per-pair processing of any items
    (whether or not it throws), a scan, an analyst's note and the reset:
    however often and through whichever path a pair is delivered, the
    invocation list never holds two entries for one request. *)
Theorem one_invocation_per_request (s : State) :
  seenCoversStore s →
  oneInvocationPerRequest s →
  (∀ items, seenCoversStore (processAll items s).1
            ∧ oneInvocationPerRequest (processAll items s).1)
  ∧ (∀ h, oneInvocationPerRequest (scanProxyHistory h s).2)
  ∧ (∀ actionId note, oneInvocationPerRequest (setActionNote actionId note s))
  ∧ oneInvocationPerRequest (clearAll s)
  ∧ oneInvocationPerRequest initialState.
Proof.
  intros Hcov Hone. refine (conj _ (conj _ (conj _ (conj _ _)))).
  - intros items. by apply processAll_one_per_request.
  - intros h. unfold oneInvocationPerRequest.
    destruct (scan_store h s) as (-> & _).
    by apply processAll_one_per_request.
  - intros actionId note. unfold oneInvocationPerRequest in *. simpl.
    rewrite map_map. erewrite map_ext; [exact Hone|].
    intros a. by destruct (negb _).
  - apply NoDup_nil_2.
  - apply NoDup_nil_2.
Qed.

(** *** Passes that fail, and the view a completed discovery returns *)

(** X24.  A name-extraction pass that fails returns the error with the
    thrown message and sets the status [Action name extraction failed];
    the names found before the failure stay in the name table, but the
    note maintenance is skipped: notes and the invocation list are
    exactly as before the pass. *)
Theorem failed_extraction_skips_notes (h : History) (s : State) (e : Thrown) :
  failure h = Some e →
  let s' := (extractActionNames h s).2 in
  (extractActionNames h s).1 = Error (errorMessage e)
  ∧ lastStatus s' = Some "Action name extraction failed"
  ∧ actionNotesById s' = actionNotesById s
  ∧ actions s' = actions s
  ∧ actionNamesById s ⊆ actionNamesById s'.
Proof.
  intros Hfail. unfold extractActionNames.
  pose proof (extract_traversal_adds h s) as (Ha & Hn & _ & _ & _ & Hsub).
  pose proof (paginate_failure extractPage h
                (sendStatus "Scanning chunk files..." s, 0, 0)) as Hf.
  destruct (paginateAllRequests (returning extractPage) h _) as [[[st chunks] names] [e'|]];
    simpl in *; [|congruence].
  assert (e' = e) as -> by congruence.
  refine (conj eq_refl (conj (lastStatus_sendStatus _ _) _)). by repeat split.
Qed.

(** X25.  A discovery pass that completes returns the classification
    view of the store it leaves, the one [getDiscovery] gives afterwards,
    with the status line [Found <declared> actions (<unused> unused)],
    which is also the last status sent; a pass that fails returns the
    error with the thrown message and sets the status
    [Discovery failed]. *)
Theorem findAllActions_result (h : History) (s : State) :
  let s' := (findAllActions h s).2 in
  match failure h with
  | None =>
      ∃ view,
        (findAllActions h s).1 = Ok view
        ∧ dr_all view = dr_all (getDiscovery s')
        ∧ dr_unused view = dr_unused (getDiscovery s')
        ∧ dr_unknown view = dr_unknown (getDiscovery s')
        ∧ dr_status view
          = "Found " +:+ pretty (size (discoveredActionsById s')) +:+ " actions ("
            +:+ pretty (length (dr_unused view)) +:+ " unused)"
        ∧ lastStatus s' = Some (dr_status view)
  | Some e =>
      (findAllActions h s).1 = Error (errorMessage e)
      ∧ lastStatus s' = Some "Discovery failed"
  end.
Proof.
  simpl. unfold findAllActions.
  rewrite <- (paginate_failure findPage h
                (sendStatus "Scanning chunks for server actions..."
                   (setDiscovered ∅ s), 0)).
  destruct (paginateAllRequests (returning findPage) h _) as [[st chunks] [e|]]; simpl.
  { split; [done | apply lastStatus_sendStatus]. }
  eexists. split; [done|]. simpl. repeat split.
  - unfold allRows. by rewrite length_map, length_map_to_list.
  - unfold lastStatus. simpl. rewrite !omap_app. simpl.
    rewrite app_nil_r. apply last_snoc.
Qed.

(** *** The origin rule *)

Lemma substring_all (s : string) : String.substring 0 (String.length s) s = s.
Proof. induction s as [|c s IH]; [done|]. simpl. by rewrite IH. Qed.

Lemma append_empty_r (s : string) : s +:+ "" = s.
Proof.
  induction s as [|c s IH]; [done|].
  change (String c s +:+ "") with (String c (s +:+ "")). by rewrite IH.
Qed.

Lemma stripScheme_http_prefix (rest : string) : stripScheme ("http://" +:+ rest) = rest.
Proof.
  unfold stripScheme. destruct rest as [|a rest]; simpl; [done|].
  by rewrite substring_all.
Qed.

Lemma stripScheme_https_prefix (rest : string) : stripScheme ("https://" +:+ rest) = rest.
Proof.
  unfold stripScheme. destruct rest as [|a rest]; simpl; [done|].
  by rewrite substring_all.
Qed.

Lemma splitHead_host (host path : string) :
  Js.includes host "/" = false →
  path = "" ∨ Js.startsWith path "/" = true →
  Js.splitHead "/" (host +:+ path) = host.
Proof.
  intros Hhost [->|Hpath].
  - rewrite append_empty_r. by apply splitHead_no_separator.
  - destruct path as [|c q]; [done|]. cbn [Js.startsWith] in Hpath.
    destruct (Ascii.eqb_spec "/" c) as [<-|]; [|done].
    by apply splitHead_before_separator.
Qed.

(** X26.  The origin rule compares hosts: when the [Origin] header,
    trimmed, is [http://] or [https://] followed by a host and then
    nothing or a path, and the [Host] header is not blank, the note
    [Origin/Host mismatch] is written exactly when that host differs
    from the trimmed [Host] header; scheme and path play no part. *)
Theorem origin_rule_compares_hosts
  (r : Request.t) (origin host scheme originHost path : string) :
  Request.getHeader r "Origin" ≫= head = Some origin →
  Request.getHeader r "Host" ≫= head = Some host →
  scheme = "http://" ∨ scheme = "https://" →
  Js.trim origin = scheme +:+ originHost +:+ path →
  originHost ≠ "" →
  Js.includes originHost "/" = false →
  path = "" ∨ Js.startsWith path "/" = true →
  Js.trim host ≠ "" →
  originNotes r
  = if String.eqb originHost (Js.trim host) then [] else ["Origin/Host mismatch"].
Proof.
  intros Horigin Hhost Hscheme Htrim Hne Hslash Hpath Hblank.
  unfold originNotes. rewrite Horigin, Hhost. simpl. rewrite Htrim.
  assert (stripScheme (scheme +:+ originHost +:+ path) = originHost +:+ path) as ->.
  { destruct Hscheme as [->| ->]; [apply stripScheme_http_prefix | apply stripScheme_https_prefix]. }
  rewrite splitHead_host by done.
  assert ((scheme +:+ originHost +:+ path =? "")%string = false) as ->.
  { by destruct Hscheme as [->| ->]. }
  destruct (String.eqb_spec (Js.trim host) ""); [done|].
  destruct (String.eqb_spec originHost ""); [done|]. simpl.
  by destruct (String.eqb originHost (Js.trim host)).
Qed.

End Further.

(** ** The properties on the sample traffic *)

#[local] Existing Instance Sample.quiet.

Example sample_notes :
  map ActionEntry.securityNotes (actions Sample.processed) = ["No auth headers"].
Proof. vm_compute. reflexivity. Qed.

Example busy_notes :
  map ActionEntry.securityNotes
    (actions (addActionEntry Sample.post Sample.ok Sample.actionId Sample.busy).1)
  = ["No auth headers; Action reused 11x"].
Proof. vm_compute. reflexivity. Qed.

Example scenario_notes :
  (@analyzeSecurity Sample.parsing Sample.scenario Sample.ok Sample.actionId
     Sample.scenarioBody initialState)
  = "No auth headers; Contains: id; Contains: userId; Direct ID: userId=42".
Proof. vm_compute. reflexivity. Qed.

Example echo_notes :
  (@analyzeSecurity Sample.echoing Sample.echo Sample.ok Sample.actionId
     Sample.echoBody initialState)
  = "No auth headers; Contains: id; Direct ID: id Action reused 0x=1".
Proof. vm_compute. reflexivity. Qed.

Example observed_finding :
  last (sent Sample.observed) = Some (FindingCreated Sample.finding).
Proof. vm_compute. reflexivity. Qed.

(** The call that names [constructor]: its processing throws, the
    observer throws with it and creates no finding, a scan that meets it
    fails and does not reach the call after it, and looking it up
    reports the inherited member as its function name. *)
Example inherited_call_processed :
  processRequestResponse Sample.inherited (Some Sample.ok) initialState
  = (setSeen {["50"]} initialState,
     Some (ThrownError "existing.includes is not a function")).
Proof. vm_compute. reflexivity. Qed.

Example inherited_call_observed :
  (onInterceptResponse Sample.inherited Sample.ok initialState).2
  = Some (ThrownError "existing.includes is not a function")
  ∧ sent (onInterceptResponse Sample.inherited Sample.ok initialState).1 = [].
Proof. vm_compute. split; reflexivity. Qed.

Example inherited_call_scanned :
  (scanProxyHistory Sample.poisoned initialState).1
  = Error "existing.includes is not a function"
  ∧ actions (scanProxyHistory Sample.poisoned initialState).2 = []
  ∧ lastStatus (scanProxyHistory Sample.poisoned initialState).2 = Some "Scan failed".
Proof. vm_compute. repeat split; reflexivity. Qed.

Example inherited_call_looked_up :
  lookupActionForRequest
    (fun _ => Found {| request := Sample.inherited; response := Some Sample.ok |})
    "50" initialState
  = Ok ("constructor", NameMember MConstructor).
Proof. vm_compute. reflexivity. Qed.

(** Once the identifier has a note of its own, the note maintenance
    returns and the invocation is appended; the spread of the usage
    history throws then, and the invocation stays without a usage
    record and is not announced. *)
Example inherited_call_unrecorded :
  let s := setActionNote "constructor" "mine" initialState in
  let r := processRequestResponse Sample.inherited (Some Sample.ok) s in
  r.2 = Some (ThrownError "actionUsagesById[actionId] is not iterable")
  ∧ map ActionEntry.actionNotes (actions r.1)
    = ["Function: function () { [native code] }" +:+ newline +:+ "mine"]
  ∧ actionUsagesById r.1 !! "constructor" = None
  ∧ sent r.1 = [DataChanged].
Proof. vm_compute. repeat split; reflexivity. Qed.

Example duplicate_submission_sample :
  Request.getId Sample.post ∈ seenRequestIds Sample.processed
  ∧ processRequestResponse Sample.post (Some Sample.ok) Sample.processed
    = (Sample.processed, None).
Proof.
  assert (Request.getId Sample.post ∈ seenRequestIds Sample.processed) as Hseen
    by (vm_compute; reflexivity).
  split; [exact Hseen|].
  exact (proj1 (proj2 (duplicate_submission_changes_nothing
                         Sample.processed Sample.post Sample.ok Hseen))).
Qed.

Lemma inherited_identifier_witness :
  seenCoversStore initialState
  ∧ (Request.getId Sample.inherited ∉ seenRequestIds initialState)
  ∧ getNextActionIdFromRequest Sample.inherited = Some "constructor"
  ∧ objectPrototype "constructor" ≠ None
  ∧ actionNotesById initialState !! "constructor" = None
  ∧ (processRequestResponse Sample.inherited (Some Sample.ok) initialState).2
    = Some (ThrownError "existing.includes is not a function")
  ∧ invocationsOf "50"
      (processRequestResponse Sample.inherited (Some Sample.ok)
         (processRequestResponse Sample.inherited (Some Sample.ok) initialState).1).1
    = [].
Proof.
  assert (Request.getId Sample.inherited ∉ seenRequestIds initialState) as Hfresh
    by (vm_compute; discriminate).
  assert (getNextActionIdFromRequest Sample.inherited = Some "constructor") as Hid
    by reflexivity.
  assert (objectPrototype "constructor" ≠ None) as Hkey by discriminate.
  assert (actionNotesById initialState !! "constructor" = None) as Hnote
    by reflexivity.
  refine (conj initialState_covered (conj Hfresh (conj Hid (conj Hkey (conj Hnote _))))).
  destruct (inherited_identifier_yields_no_invocation initialState Sample.inherited
              Sample.ok "constructor" initialState_covered Hfresh Hid Hkey Hnote)
    as (Hthrown & _ & _ & Hnone & _).
  split; [exact Hthrown | exact Hnone].
Defined.

Lemma blank_action_header_witness :
  blankActionHeader Sample.plain
  ∧ processRequestResponse Sample.plain (Some Sample.ok) initialState
    = (initialState, None).
Proof.
  assert (blankActionHeader Sample.plain) as Hblank by (vm_compute; reflexivity).
  split; [exact Hblank|].
  exact (proj1 (proj2 (blank_action_header_is_noop initialState Sample.plain Hblank))
           (Some Sample.ok)).
Defined.

Lemma reuse_note_witness :
  (Request.getId Sample.post ∉ seenRequestIds Sample.busy)
  ∧ objectPrototype Sample.actionId = None
  ∧ length (default [] (actionUsagesById Sample.busy !! Sample.actionId)) = 11
  ∧ ∃ entry,
      actions (addActionEntry Sample.post Sample.ok Sample.actionId Sample.busy).1
      = actions Sample.busy ++ [entry]
      ∧ Js.includes (ActionEntry.securityNotes entry) "Action reused 11x" = true.
Proof.
  assert (Request.getId Sample.post ∉ seenRequestIds Sample.busy) as Hfresh
    by (vm_compute; discriminate).
  assert (objectPrototype Sample.actionId = None) as Hkey by reflexivity.
  assert (length (default [] (actionUsagesById Sample.busy !! Sample.actionId)) = 11)
    as Hcount by (vm_compute; reflexivity).
  refine (conj Hfresh (conj Hkey (conj Hcount _))).
  destruct (reuse_note_iff_more_than_ten Sample.busy Sample.post Sample.ok
              Sample.actionId 11 Hfresh Hkey Hcount)
    as (entry & Hactions & _ & _ & Hincluded & _).
  exists entry. split; [exact Hactions|]. apply Hincluded. lia.
Defined.

Lemma finding_witness :
  getNextActionIdFromRequest Sample.post = Some Sample.actionId
  ∧ (processRequestResponse Sample.post (Some Sample.ok) initialState).2 = None
  ∧ ∃ finding,
      last (sent Sample.observed) = Some (FindingCreated finding)
      ∧ dedupeKey finding
        = "shop.test-/cart-deadbeefdeadbeefdeadbeefdeadbeefdeadbeef".
Proof.
  assert (getNextActionIdFromRequest Sample.post = Some Sample.actionId) as Hid
    by reflexivity.
  assert ((processRequestResponse Sample.post (Some Sample.ok) initialState).2 = None)
    as Hreturns by (vm_compute; reflexivity).
  refine (conj Hid (conj Hreturns _)).
  destruct (finding_iff_no_auth_note initialState Sample.post Sample.ok
              Sample.actionId Hid Hreturns) as (_ & Hemit & _).
  destruct Hemit as [Hsent _]; [vm_compute; reflexivity|].
  eexists. unfold Sample.observed. rewrite Hsent, last_snoc.
  split; [reflexivity|]. vm_compute. reflexivity.
Defined.

Example failed_fetch_sample :
  scanThrown Sample.flaky initialState = Some (ThrownError "connection lost")
  ∧ (scanProxyHistory Sample.flaky initialState).1 = Error "connection lost"
  ∧ map ActionEntry.requestId (actions (scanProxyHistory Sample.flaky initialState).2)
    = ["17"].
Proof. vm_compute. repeat split; reflexivity. Qed.

Lemma failed_scan_witness :
  scanThrown Sample.poisoned initialState
  = Some (ThrownError "existing.includes is not a function")
  ∧ (scanProxyHistory Sample.poisoned initialState).1
    = Error "existing.includes is not a function"
  ∧ lastStatus (scanProxyHistory Sample.poisoned initialState).2 = Some "Scan failed".
Proof.
  assert (scanThrown Sample.poisoned initialState
          = Some (ThrownError "existing.includes is not a function")) as Hfail
    by (vm_compute; reflexivity).
  destruct (failed_scan_keeps_mutations Sample.poisoned initialState _ Hfail)
    as (Hresult & Hstatus & _).
  exact (conj Hfail (conj Hresult Hstatus)).
Defined.

(** C2, as stated, fails: after the reset the store still holds the
    declared action and the note it held before. *)
Lemma clearAll_keeps_declared_and_notes : ¬ resetEmptiesStore Sample.annotated.
Proof.
  intros (_ & Hdeclared & _ & Hnotes & _).
  apply (f_equal (fun m => m !! Sample.actionId)) in Hnotes.
  vm_compute in Hnotes. discriminate.
Qed.

(** C3, as stated, fails on the key: the finding created for the sample
    pair carries the whole forty-character identifier, not its first
    eight characters. *)
Lemma dedupe_key_holds_whole_identifier :
  ¬ keyUsesTruncatedId Sample.post Sample.observed.
Proof.
  intros Hkey.
  destruct (Hkey Sample.finding) as (actionId & Hid & Htruncated).
  - pose proof observed_finding as Hlast.
    destruct (sent Sample.observed) as [|e l _] using rev_ind; [done|].
    rewrite last_snoc in Hlast. injection Hlast as ->.
    apply elem_of_app. right. by left.
  - vm_compute in Hid. injection Hid as <-.
    vm_compute in Htruncated. discriminate.
Qed.

(** C4, as stated, fails on the stored text: for a first call whose
    body has a key that spells the words, the [Direct ID] note echoes
    the key, and the stored notes contain [Action reused 0x] although
    the identifier had no usage record. *)
Lemma reuse_words_echoed_from_body :
  ¬ @storedTextTellsReuse Sample.echoing Sample.echo Sample.ok Sample.actionId
      initialState.
Proof.
  intros Hstored.
  assert (∃ entry,
             last (actions (@addActionEntry Sample.echoing Sample.echo Sample.ok
                              Sample.actionId initialState).1) = Some entry
             ∧ Js.includes (ActionEntry.securityNotes entry) "Action reused 0x" = true)
    as (entry & Hlast & Hwords).
  { vm_compute. eexists. split; reflexivity. }
  destruct (Hstored entry Hlast) as [Hmore _].
  assert (10 < 0) as Habsurd; [|lia].
  apply Hmore. exact Hwords.
Qed.

(** C8, as stated, fails: a note in which the analyst repeated the prefix
    line still holds it twice after an invocation is created. *)
Lemma repeated_prefix_stays_repeated :
  ¬ prefixExactlyOnce Sample.actionId Sample.reannotated.
Proof.
  intros Honce.
  destruct (Honce "checkout") as (note & Hnote & Hocc); [vm_compute; reflexivity|].
  vm_compute in Hnote. injection Hnote as <-.
  vm_compute in Hocc. discriminate.
Qed.

(** ** The further properties on the sample session *)

Example tour_scan :
  (@scanProxyHistory Tour.bundler Tour.traffic initialState).1 = Ok (4, 2)
  ∧ map ActionEntry.requestId (actions Tour.scanned) = ["17"].
Proof. vm_compute. split; reflexivity. Qed.

Example tour_names :
  (@extractActionNames Tour.bundler Tour.traffic Tour.scanned).1 = Ok (1, 1)
  ∧ actionNamesById Tour.named !! Sample.actionId = Some "checkout"
  ∧ map ActionEntry.actionNotes (actions Tour.named) = ["Function: checkout"].
Proof. vm_compute. repeat split; reflexivity. Qed.

Example tour_discovery :
  map (fun row => (DiscoveredAction.functionName row, DiscoveredAction.status row,
                   DiscoveredAction.chunkFile row))
    (dr_all (getDiscovery (@findAllActions Tour.bundler Tour.traffic Tour.named).2))
  = [("checkout", "Executed", "app.js?v=7")].
Proof. vm_compute. reflexivity. Qed.

Lemma completed_scan_witness :
  scanThrown Tour.traffic initialState = None
  ∧ (scanProxyHistory Tour.traffic initialState).1 = Ok (4, 2).
Proof.
  assert (scanThrown Tour.traffic initialState = None) as Hok
    by (vm_compute; reflexivity).
  split; [exact Hok|].
  exact (proj1 (completed_scan_report Tour.traffic initialState Hok)).
Defined.

Lemma rescan_witness :
  (processAll (traversed Tour.traffic) initialState).2 = None
  ∧ sameStore
      (scanProxyHistory Tour.traffic (scanProxyHistory Tour.traffic initialState).2).2
      (scanProxyHistory Tour.traffic initialState).2.
Proof.
  assert ((processAll (traversed Tour.traffic) initialState).2 = None) as Hnone
    by (vm_compute; reflexivity).
  split; [exact Hnone|].
  exact (rescan_changes_nothing Tour.traffic initialState Hnone).
Defined.

(** After a scan that per-pair processing ended early, a second scan
    does add something: the call behind the one that threw. *)
Example rescan_after_throw :
  let once := (scanProxyHistory Sample.poisoned initialState).2 in
  actions once = []
  ∧ map ActionEntry.requestId (actions (scanProxyHistory Sample.poisoned once).2)
    = ["17"].
Proof. vm_compute. split; reflexivity. Qed.

Lemma sequence_numbers_witness :
  sequenced Sample.processed
  ∧ sequenced (scanProxyHistory Tour.traffic Sample.processed).2.
Proof.
  assert (sequenced Sample.processed) as Hseq by reflexivity.
  split; [exact Hseq|].
  exact (proj1 (proj2 (proj2 (sequence_numbers_kept Sample.processed Hseq)))
           Tour.traffic).
Defined.

Lemma extraction_refresh_witness :
  failure Tour.traffic = None ∧ shownNotesCurrent Tour.named.
Proof.
  assert (failure Tour.traffic = None) as Hok by reflexivity.
  split; [exact Hok|].
  exact (proj1 (@extraction_refreshes_shown_notes Tour.bundler Tour.traffic
                  Tour.scanned Hok)).
Defined.

Lemma usage_counts_witness :
  usageMatchesInvocations initialState
  ∧ noInheritedNoteKeys initialState
  ∧ usageMatchesInvocations (scanProxyHistory Sample.poisoned initialState).2.
Proof.
  assert (usageMatchesInvocations initialState) as Hstart.
  { intros actionId. simpl. rewrite lookup_empty. reflexivity. }
  assert (noInheritedNoteKeys initialState) as Hplain.
  { intros key _. simpl. apply lookup_empty. }
  refine (conj Hstart (conj Hplain _)).
  exact (proj1 (proj2 (usage_counts_match_invocations initialState Hstart Hplain))
           Sample.poisoned).
Defined.

Lemma extraction_report_witness :
  failure Tour.traffic = None
  ∧ (@extractActionNames Tour.bundler Tour.traffic Tour.scanned).1
    = Ok (length (List.filter servesBundle (traversed Tour.traffic)),
          size (actionNamesById Tour.named) - size (actionNamesById Tour.scanned)).
Proof.
  assert (failure Tour.traffic = None) as Hok by reflexivity.
  split; [exact Hok|].
  exact (@extraction_report Tour.bundler Tour.traffic Tour.scanned Hok).
Defined.

Lemma observer_count_witness :
  (Request.getId Sample.post ∉ seenRequestIds initialState)
  ∧ getNextActionIdFromRequest Sample.post = Some Sample.actionId
  ∧ objectPrototype Sample.actionId = None
  ∧ length (default [] (actionUsagesById initialState !! Sample.actionId)) = 0
  ∧ analyzeSecurity Sample.post Sample.ok Sample.actionId
      (getTextBody (Request.getBody Sample.post)) Sample.processed
    = analyzeSecurity Sample.post Sample.ok Sample.actionId
        (getTextBody (Request.getBody Sample.post)) initialState.
Proof.
  assert (Request.getId Sample.post ∉ seenRequestIds initialState) as Hfresh
    by (vm_compute; discriminate).
  assert (getNextActionIdFromRequest Sample.post = Some Sample.actionId) as Hid
    by reflexivity.
  assert (objectPrototype Sample.actionId = None) as Hkey by reflexivity.
  assert (length (default [] (actionUsagesById initialState !! Sample.actionId)) = 0)
    as Hcount by reflexivity.
  refine (conj Hfresh (conj Hid (conj Hkey (conj Hcount _)))).
  apply (proj1 (proj2 (proj2 (observer_counts_the_new_invocation initialState
                                Sample.post Sample.ok Sample.actionId 0
                                Hfresh Hid Hkey Hcount)))).
  lia.
Defined.

Lemma lookup_witness :
  Tour.source "17" = Found {| request := Sample.post; response := Some Sample.ok |}
  ∧ (lookupActionForRequest Tour.source "17" initialState
     = Error "No Next-Action header"
     ↔ carriesAction {| request := Sample.post; response := Some Sample.ok |} = false).
Proof.
  assert (Tour.source "17"
          = Found {| request := Sample.post; response := Some Sample.ok |}) as Hget
    by reflexivity.
  split; [exact Hget|].
  exact (proj1 (lookup_agrees_with_processing Tour.source "17" _ initialState Hget)).
Defined.

Lemma analyze_report_witness :
  Forall (answers Tour.source) ["17"; "5"]
  ∧ Forall (ordinaryAnswer Tour.source) ["17"; "5"]
  ∧ (analyzeRequestsById Tour.source ["17"; "5"] initialState).1 = Ok (2, 1).
Proof.
  assert (Forall (answers Tour.source) ["17"; "5"]) as Hall
    by (repeat constructor).
  assert (Forall (ordinaryAnswer Tour.source) ["17"; "5"]) as Hord
    by (repeat (constructor; [vm_compute; done|]); constructor).
  refine (conj Hall (conj Hord _)).
  exact (proj1 (analyzeRequestsById_report Tour.source ["17"; "5"] initialState
                  Hall Hord)).
Defined.

Lemma analyze_failure_witness :
  Forall (answers Tour.source) ["17"]
  ∧ Forall (ordinaryAnswer Tour.source) ["17"]
  ∧ Tour.source "99" = LookupFails (ThrownError "timeout")
  ∧ (analyzeRequestsById Tour.source (["17"] ++ "99" :: ["5"]) initialState).1
    = Error "timeout".
Proof.
  assert (Forall (answers Tour.source) ["17"]) as Hall by (repeat constructor).
  assert (Forall (ordinaryAnswer Tour.source) ["17"]) as Hord
    by (repeat (constructor; [vm_compute; done|]); constructor).
  assert (Tour.source "99" = LookupFails (ThrownError "timeout")) as Hfail
    by reflexivity.
  refine (conj Hall (conj Hord (conj Hfail _))).
  exact (proj1 (proj1 (analyzeRequestsById_failure Tour.source ["17"] ["5"] "99"
                         initialState Hall Hord) _ Hfail)).
Defined.

Lemma chunk_request_witness :
  Js.includes "/x.js" "?" = false
  ∧ Js.includes "/x.js" "/_next/static/chunks/" = false
  ∧ isNextChunkRequest Tour.stray = true.
Proof.
  assert (Js.includes "/x.js" "?" = false) as Hquery by reflexivity.
  refine (conj Hquery (conj eq_refl _)).
  rewrite (proj1 (proj2 (chunk_request_path_and_query Tour.stray "/x.js"
                           "a=/_next/static/chunks/" Hquery)) eq_refl).
  reflexivity.
Defined.

Lemma export_summary_witness :
  includeExecuted Tour.everything = true
  ∧ actionUsagesById Sample.busy !! Sample.actionId = Some (replicate 11 Sample.usage)
  ∧ ∃ summary,
      actionSummary (exportPayload Tour.everything "2025-01-01T00:00:00.000Z" Sample.busy)
        !! Sample.actionId = Some summary
      ∧ ActionSummary.count summary = 11.
Proof.
  assert (includeExecuted Tour.everything = true) as Hopt by reflexivity.
  assert (actionUsagesById Sample.busy !! Sample.actionId
          = Some (replicate 11 Sample.usage)) as Husages
    by (vm_compute; reflexivity).
  refine (conj Hopt (conj Husages _)).
  destruct (export_summary Tour.everything "2025-01-01T00:00:00.000Z"
              Sample.actionId (replicate 11 Sample.usage) Sample.busy Hopt Husages)
    as (summary & Hsummary & Hcount & _).
  exists summary. split; [exact Hsummary | exact Hcount].
Defined.

Lemma export_unused_witness :
  keyedById Sample.annotated
  ∧ ∃ u,
      unusedActions
        (exportPayload Tour.everything "2025-01-01T00:00:00.000Z" Sample.annotated)
        !! Sample.actionId = Some u
      ∧ UnusedExport.functionName u = "checkout".
Proof.
  assert (keyedById Sample.annotated) as Hkeyed.
  { intros key d Hd. simpl in Hd.
    apply lookup_singleton_Some in Hd as [<- <-]. reflexivity. }
  split; [exact Hkeyed|].
  destruct (export_unused_table Tour.everything "2025-01-01T00:00:00.000Z"
              Sample.annotated Hkeyed) as [Hlisted _].
  destruct (Hlisted eq_refl) as [Hrows _].
  destruct (Hrows (rowOf Sample.annotated Sample.declared)) as (u & Hu & Hname & _).
  - apply list_elem_of_filter. split; [reflexivity|].
    apply list_elem_of_fmap. exists (Sample.actionId, Sample.declared).
    split; [reflexivity|]. apply elem_of_map_to_list. simpl.
    apply lookup_singleton_eq.
  - exists u. split; [exact Hu | exact Hname].
Defined.

Lemma one_invocation_witness :
  seenCoversStore initialState
  ∧ oneInvocationPerRequest initialState
  ∧ oneInvocationPerRequest (scanProxyHistory Tour.traffic initialState).2.
Proof.
  assert (oneInvocationPerRequest initialState) as Hone by apply NoDup_nil_2.
  refine (conj initialState_covered (conj Hone _)).
  exact (proj1 (proj2 (one_invocation_per_request initialState
                         initialState_covered Hone)) Tour.traffic).
Defined.

Lemma failed_extraction_witness :
  failure Sample.flaky = Some (ThrownError "connection lost")
  ∧ (extractActionNames Sample.flaky initialState).1 = Error "connection lost".
Proof.
  assert (failure Sample.flaky = Some (ThrownError "connection lost")) as Hfail
    by reflexivity.
  split; [exact Hfail|].
  exact (proj1 (failed_extraction_skips_notes Sample.flaky initialState _ Hfail)).
Defined.

Lemma origin_rule_witness :
  Request.getHeader Tour.crossOrigin "Origin" ≫= head
  = Some " https://evil.test/landing "
  ∧ Request.getHeader Tour.crossOrigin "Host" ≫= head = Some "shop.test"
  ∧ Js.trim " https://evil.test/landing " = "https://" +:+ "evil.test" +:+ "/landing"
  ∧ originNotes Tour.crossOrigin = ["Origin/Host mismatch"].
Proof.
  refine (conj eq_refl (conj eq_refl (conj eq_refl _))).
  refine (origin_rule_compares_hosts Tour.crossOrigin " https://evil.test/landing "
            "shop.test" "https://" "evil.test" "/landing"
            eq_refl eq_refl (or_intror eq_refl) eq_refl _ eq_refl
            (or_intror eq_refl) _); discriminate.
Defined.
